(** * Customer-support bot: answer pipeline, session manager and ingestion

    A shallow embedding of
      - [backend/app/services/rag.py]             (module [Rag]),
      - [backend/app/prompts/templates.py]        (module [Prompts]),
      - [backend/app/services/session_manager.py] with the two tables of
        [backend/app/db/models.py]                (module [Sessions]),
      - [backend/app/api/ingest.py]               (module [Ingest]),
      - [backend/app/api/chat.py]                 (module [Api]),
      - [backend/app/exceptions.py]               (module [Exceptions]),
      - [backend/app/middleware/error_handler.py] (module [Middleware]),
      - [backend/app/monitoring/metrics.py]       (module [Metrics]),
      - [scripts/load_hf_dataset.py]              (module [HFDatasetLoader]),
    followed by the properties of the specification that concern them.

    Modelling conventions.
      - Python [str] is [string]; text is taken over 7-bit ASCII, on which
        [str.upper], [str.lower] and [str.isspace] are the functions of
        module [PyStr].
      - A Python [float] score is a rational [Q].  Scores are only ever
        compared.  No double lies strictly between 9/10 and the double
        nearest to it, so comparing a finite score with the literal [0.90]
        is the comparison with [9 # 10].
      - In module [Metrics], where floats are added and divided, they are
        an abstract type with the operations used on them.
      - [datetime] is an integer number of microseconds ([Z]); a nullable
        column is an [option].
      - A table is a finite map from its primary key to the remaining
        columns.
      - External collaborators (embedding model, vector index, generative
        model, clock, UUID generator) are oracles handed to the code; a
        call that raises answers [None]. *)

From Stdlib Require Import ZArith QArith String Ascii List Lia.
From stdpp Require Import gmap strings list fin_maps sorting.

Open Scope string_scope.
Open Scope Z_scope.

(** ** Python string primitives *)

Module PyStr.

Definition LF : ascii := "010"%char.
Definition nl : string := String LF EmptyString.

(** [bool(s)] for a string. *)
Definition truthy (s : string) : bool :=
  match s with EmptyString => false | String _ _ => true end.

(** [len(s)], as a Python integer. *)
Definition len (s : string) : Z := Z.of_nat (String.length s).

(** [c.isspace()]: TAB, LF, VT, FF, CR, FS, GS, RS, US and SPACE. *)
Definition isspace (c : ascii) : bool :=
  let n := nat_of_ascii c in
  ((9 <=? n)%nat && (n <=? 13)%nat) || ((28 <=? n)%nat && (n <=? 32)%nat).

Fixpoint lstrip (s : string) : string :=
  match s with
  | EmptyString => EmptyString
  | String c s' => if isspace c then lstrip s' else s
  end.

Fixpoint rstrip (s : string) : string :=
  match s with
  | EmptyString => EmptyString
  | String c s' =>
      match rstrip s' with
      | EmptyString => if isspace c then EmptyString else String c EmptyString
      | r => String c r
      end
  end.

(** [s.strip()] *)
Definition strip (s : string) : string := rstrip (lstrip s).

Definition lower_char (c : ascii) : ascii :=
  let n := nat_of_ascii c in
  if (65 <=? n)%nat && (n <=? 90)%nat then ascii_of_nat (n + 32) else c.

Definition upper_char (c : ascii) : ascii :=
  let n := nat_of_ascii c in
  if (97 <=? n)%nat && (n <=? 122)%nat then ascii_of_nat (n - 32) else c.

Fixpoint map_chars (f : ascii -> ascii) (s : string) : string :=
  match s with
  | EmptyString => EmptyString
  | String c s' => String (f c) (map_chars f s')
  end.

(** [s.lower()] and [s.upper()] *)
Definition lower : string -> string := map_chars lower_char.
Definition upper : string -> string := map_chars upper_char.

Definition is_letter (c : ascii) : bool :=
  let n := nat_of_ascii c in
  ((65 <=? n)%nat && (n <=? 90)%nat) || ((97 <=? n)%nat && (n <=? 122)%nat).

(** [s.title()]: a letter is upper-cased when the character before it is
    not a letter, lower-cased otherwise. *)
Fixpoint title_from (previous_is_cased : bool) (s : string) : string :=
  match s with
  | EmptyString => EmptyString
  | String c s' =>
      String (if previous_is_cased then lower_char c else upper_char c)
             (title_from (is_letter c) s')
  end.
Definition title : string -> string := title_from false.

Fixpoint drop_chars (n : nat) (s : string) : string :=
  match n, s with
  | O, _ => s
  | S n', String _ s' => drop_chars n' s'
  | S _, EmptyString => EmptyString
  end.

(** [s.startswith(p)] *)
Fixpoint has_prefix (p s : string) : bool :=
  match p with
  | EmptyString => true
  | String a p' =>
      match s with
      | EmptyString => false
      | String b s' => Ascii.eqb a b && has_prefix p' s'
      end
  end.

(** [s.partition(sep)] at the leftmost occurrence of [sep]: the text before
    it and the text after it, [None] when [sep] does not occur. *)
Fixpoint partition (sep s : string) : option (string * string) :=
  match s with
  | EmptyString =>
      if has_prefix sep EmptyString then Some (EmptyString, EmptyString) else None
  | String c s' =>
      if has_prefix sep s then Some (EmptyString, drop_chars (String.length sep) s)
      else match partition sep s' with
           | Some (before, after) => Some (String c before, after)
           | None => None
           end
  end.

(** [sep in s] *)
Definition contains (sep s : string) : bool :=
  match partition sep s with Some _ => true | None => false end.

(** [s.split(c)] for a one-character separator: never the empty list. *)
Fixpoint split_char (sep : ascii) (s : string) : list string :=
  match s with
  | EmptyString => [EmptyString]
  | String c s' =>
      if Ascii.eqb c sep then EmptyString :: split_char sep s'
      else match split_char sep s' with
           | h :: t => String c h :: t
           | [] => [String c EmptyString]
           end
  end.

(** [s.startswith((p1, p2, ...))] *)
Definition startswith (prefixes : list string) (s : string) : bool :=
  existsb (fun p => has_prefix p s) prefixes.

(** [sep.join(parts)] *)
Definition join (sep : string) (parts : list string) : string :=
  String.concat sep parts.

(** [l[-n:] if len(l) > n else l] *)
Definition last_n {A} (n : nat) (l : list A) : list A :=
  if (n <? List.length l)%nat then skipn (List.length l - n) l else l.

End PyStr.

(** ** Exceptions of [backend/app/exceptions.py] and of the libraries

    The message of a re-raised exception is kept up to the text of the
    exception it wraps (the [str(e)] suffix is left out); [ExternalError] is
    whatever a collaborator raises. *)

Inductive exn : Type :=
| VectorStoreException (message operation : string)
| LLMServiceException (message model : string)
| SessionException (message session_id : string)
| HTTPException (status_code : Z) (detail : string)
| IntegrityError (table : string)
| ExternalError (collaborator : string).

(** ** Prompt templates ([backend/app/prompts/templates.py])

    [prompt_manager.get_prompt(PromptType.X, ...)] formats the template of
    [X] with its named variables.  Every call site of [rag.py] passes
    exactly the variables the template lists, so the [ValueError] of
    [PromptTemplate.format] cannot arise; each template is the function of
    its variables. *)

Module Prompts.

Definition faq_response (context conversation_history user_question : string) : string :=
  "You are a helpful customer support assistant. Your role is to provide accurate, helpful, and specific information to customers based on the provided FAQ knowledge base.

Context from FAQ knowledge base:
" ++
  context ++
  "

Conversation history:
" ++
  conversation_history ++
  "

User question: " ++
  user_question ++
  "

Instructions:
1. Use the provided FAQ context to answer the user's question
2. Be specific and actionable in your response
3. If the context doesn't fully answer the question, acknowledge this and provide the best available information
4. Maintain a helpful and professional tone
5. If multiple FAQ items are relevant, synthesize them into a comprehensive answer

Please provide a helpful response:".

Definition general_response (conversation_history user_question : string) : string :=
  "You are a helpful customer support assistant. The user has asked a question that may not be fully covered in our specific knowledge base.

Conversation history:
" ++
  conversation_history ++
  "

User question: " ++
  user_question ++
  "

Instructions:
1. Provide a helpful, general answer based on your knowledge
2. Be honest about limitations if the question requires specific internal information
3. Suggest appropriate next steps when possible
4. If the question is too specific to our business or requires access to internal systems, respond with 'ESCALATE_TO_HUMAN'
5. Maintain a professional and helpful tone

Please provide a helpful response:".

Definition action_suggestions (user_question main_topic conversation_context faq_context : string) : string :=
  "Based on the user's question and conversation context, generate contextually relevant follow-up questions and actions.

User question: " ++
  user_question ++
  "
Main topic: " ++
  main_topic ++
  "
Conversation context: " ++
  conversation_context ++
  "
Available FAQ context: " ++
  faq_context ++
  "

Instructions:
Generate 4-5 contextually relevant follow-up questions and actions that a customer would likely ask next about this specific topic. Focus on:
- Natural follow-up questions related to their specific issue
- Alternative approaches to solve their problem
- Related concerns they might have
- Next steps they might need to take
- Additional information they might need

Make the suggestions sound like natural questions a real customer would ask. Format as complete questions or actionable statements.

Examples for different topics:
- Account issues: 'How do I change my account settings?', 'Can I have multiple accounts?', 'How do I deactivate my account?'
- Password issues: 'What if I don't receive the reset email?', 'How do I create a stronger password?', 'Can I change my security questions?'
- Billing issues: 'How do I update my payment method?', 'Can I get a refund?', 'How do I view my billing history?'
- Technical issues: 'What browsers are supported?', 'How do I clear my cache?', 'Is there a mobile app?'

Generate 4-5 relevant suggestions (one per line, no numbering):".

Definition topic_analysis (user_question : string) : string :=
  "Analyze this user question and identify the main topic/domain: '" ++
  user_question ++
  "'

Identify the key topic (e.g., 'account management', 'password reset', 'billing', 'technical support', etc.)

Respond with just the main topic in 2-3 words.".

Definition conversation_summary (conversation_text : string) : string :=
  "Please provide a concise summary of this customer support conversation. Focus on the main issues discussed, questions asked, and solutions provided.

Conversation:
" ++
  conversation_text ++
  "

Instructions:
1. Identify the main customer issue or question
2. Summarize the key points discussed
3. Note any solutions or recommendations provided
4. Keep the summary under 200 words
5. Use clear, professional language

Summary:".

End Prompts.

(** ** The answer pipeline ([backend/app/services/rag.py]) *)

Module Rag.
Import PyStr.

(** The part of [app.config.Settings] read by the pipeline. *)
Record Settings := {
  chat_model : string;
  top_k : Z;
  score_threshold : Q;
  max_context_chars : Z
}.

Definition default_settings : Settings := {|
  chat_model := "models/gemini-2.5-flash";
  top_k := 3;
  score_threshold := 0.75%Q;
  max_context_chars := 1200
|}.

(** A match of the vector index: [(score, metadata)]. *)
Definition Match : Type := Q * gmap string string.

Definition vector : Type := list Q.

(** One turn of [chat_history]: [{"role": ..., "content": ...}]. *)
Record Turn := { role : string; content : string }.

(** The collaborators held by a [RAG] object.  The generative model is
    asked with the number of calls made before, so that it may answer the
    same prompt differently at different times. *)
Record Collaborators := {
  embed_text : string -> option vector;
  query_index : vector -> Z -> option (list Match);
  generate_content : nat -> string -> option string
}.

(** A computation that may raise and that records, in order, the prompts
    it sends to the generative model. *)
Definition Run (A : Type) : Type := list string -> (exn + A) * list string.

Definition ret {A} (a : A) : Run A := fun log => (inr a, log).
Definition raise {A} (e : exn) : Run A := fun log => (inl e, log).
Definition bind {A B} (c : Run A) (k : A -> Run B) : Run B :=
  fun log => match c log with
             | (inr a, log') => k a log'
             | (inl e, log') => (inl e, log')
             end.
(** [try: c except Exception as e: h e] *)
Definition try_except {A} (c : Run A) (h : exn -> Run A) : Run A :=
  fun log => match c log with
             | (inl e, log') => h e log'
             | r => r
             end.
(** A collaborator call that does not involve the generative model. *)
Definition external {A} (who : string) (r : option A) : Run A :=
  match r with Some a => ret a | None => raise (ExternalError who) end.

Notation "x <- c ;; k" := (bind c (fun x => k))
  (at level 100, c at next level, right associativity).

Section Pipeline.
Variable settings : Settings.
Variable co : Collaborators.

(** [self.model.generate_content(prompt)] followed by [response.text]. *)
Definition ask_model (prompt : string) : Run string :=
  fun log =>
    (match generate_content co (List.length log) prompt with
     | Some text => inr text
     | None => inl (ExternalError "generate_content")
     end, (log ++ [prompt])%list).

Definition retrieve (query : string) : Run (list Match) :=
  try_except
    (emb <- external "embed_text" (embed_text co query) ;;
     external "query" (query_index co emb (top_k settings)))
    (fun _ => raise (VectorStoreException "Failed to retrieve context" "retrieve")).

(** [f"Q: {meta.get('question', '')}\nA: {meta.get('answer', '')}\n"] *)
Definition qa_block (meta : gmap string string) : string :=
  "Q: " ++ default "" (meta !! "question") ++ nl ++
  "A: " ++ default "" (meta !! "answer") ++ nl.

(** The [for score, meta in matches] loop of [build_context], from the
    state [(context_parts, chars)]; [break] returns the state. *)
Fixpoint build_loop (matches : list Match) (context_parts : list string)
    (chars : Z) : list string * Z :=
  match matches with
  | [] => (context_parts, chars)
  | (score, meta) :: rest =>
      let qa := qa_block meta in
      if chars + len qa >? max_context_chars settings
      then (context_parts, chars)
      else build_loop rest (context_parts ++ [qa])%list (chars + len qa)
  end.

(** The body of [build_context] after retrieval. *)
Definition assemble (matches : list Match) : string * bool * Q :=
  match matches with
  | [] => ("", true, 0%Q)
  | (best_score, _) :: _ =>
      let should_escalate :=
        match best_score ?= score_threshold settings with
        | Lt => true | _ => false end%Q in
      let '(context_parts, chars) := build_loop matches [] 0 in
      (join nl context_parts, should_escalate, best_score)
  end.

Definition build_context (query : string) : Run (string * bool * Q) :=
  matches <- retrieve query ;;
  ret (assemble matches).

Definition history_line (m : Turn) : string := role m ++ ": " ++ content m.

(** [context.split("A:", 1)[1].strip().split("\n")[0] if "A:" in context
    else None] *)
Definition best_answer (context : string) : option string :=
  match partition "A:" context with
  | Some (_, after) => Some (hd "" (split_char LF (strip after)))
  | None => None
  end.

Definition handoff_message : string :=
  "I apologize, but I'm unable to provide a specific answer to your question. " ++
  "Let me connect you with a human agent who can better assist you.".

Definition get_general_answer (query : string) (chat_history : list Turn)
    : Run (string * bool) :=
  try_except
    (let history_text := join nl (map history_line chat_history) in
     let full_prompt := Prompts.general_response history_text query in
     response <- ask_model full_prompt ;;
     let answer := strip response in
     if contains "ESCALATE_TO_HUMAN" (upper answer)
        || contains "escalate" (lower answer)
     then ret (answer, true)
     else ret (answer, false))
    (fun _ => raise (LLMServiceException
                       "Failed to generate general response"
                       (chat_model settings))).

Definition answer (query : string) (chat_history : list Turn)
    : Run (string * bool * Q * string) :=
  built <- build_context query ;;
  let '(context, should_escalate, score) := built in
  let trimmed_history := last_n 6 chat_history in
  if truthy context && negb should_escalate then
    let direct :=
      if Qle_bool 0.90 score then
        match best_answer context with
        | Some a => if truthy a then Some a else None
        | None => None
        end
      else None in
    match direct with
    | Some a => ret (a, false, score, "faq")
    | None =>
        try_except
          (let history_text := join nl (map history_line trimmed_history) in
           let full_prompt :=
             Prompts.faq_response context history_text query in
           response <- ask_model full_prompt ;;
           ret (strip response, false, score, "faq"))
          (fun _ => raise (LLMServiceException
                             "Failed to generate FAQ response"
                             (chat_model settings)))
    end
  else
    general <- get_general_answer query trimmed_history ;;
    let '(general_answer, general_escalate) := general in
    if negb general_escalate
    then ret (general_answer, false, score, "general")
    else ret (handoff_message, true, score, "escalated").

Definition filler_openers : list string := ["here"; "you can"; "please"; "thank"].

Definition fallback_actions : list string := [
  "Can you provide more details about your specific situation?";
  "Would you like me to walk you through the steps?";
  "Do you need help with anything else related to this?";
  "Is there a specific part you're having trouble with?"
].

Definition titled_line (m : Turn) : string := title (role m) ++ ": " ++ content m.

Definition suggest_next_actions (query : string) (chat_history : list Turn)
    (context : string) : Run (list string) :=
  let clipped_history := last_n 5 chat_history in
  let conversation_text := join nl (map titled_line clipped_history) in
  main_topic <-
    try_except
      (let topic_prompt := Prompts.topic_analysis query in
       topic_response <- ask_model topic_prompt ;;
       ret (lower (strip topic_response)))
      (fun _ => ret "general support") ;;
  try_except
    (let actions_prompt :=
       Prompts.action_suggestions query main_topic conversation_text context in
     response <- ask_model actions_prompt ;;
     let actions :=
       List.filter truthy (map strip (split_char LF (strip response))) in
     let filtered_actions :=
       List.filter
         (fun action =>
            (10 <? len action) && negb (startswith filler_openers (lower action)))
         actions in
     ret (firstn 5 filtered_actions))
    (fun _ => ret fallback_actions).

Definition summarize_conversation (chat_history : list Turn) : Run string :=
  match chat_history with
  | [] => ret "No conversation to summarize."
  | _ =>
      try_except
        (let conversation_text := join nl (map titled_line chat_history) in
         let summary_prompt := Prompts.conversation_summary conversation_text in
         response <- ask_model summary_prompt ;;
         ret (strip response))
        (fun _ => raise (LLMServiceException
                           "Failed to generate conversation summary"
                           (chat_model settings)))
  end.

Definition generate_enhanced_response (query : string)
    (chat_history : list Turn) (include_suggestions : bool)
    : Run (string * bool * Q * option string * option (list string) * string) :=
  answered <- answer query chat_history ;;
  let '(answer, should_escalate, score, response_type) := answered in
  summary <-
    (if (4 <=? List.length chat_history)%nat
     then s <- summarize_conversation chat_history ;; ret (Some s)
     else ret None) ;;
  suggestions <-
    (if include_suggestions && negb should_escalate
     then built <- build_context query ;;
          let '(context, _, _) := built in
          actions <- suggest_next_actions query chat_history context ;;
          ret (Some actions)
     else ret None) ;;
  ret (answer, should_escalate, score, summary, suggestions, response_type).

End Pipeline.

End Rag.

(** ** The two tables ([backend/app/db/models.py]) *)

Module ChatSession.
(** A row of [chat_sessions]; the primary key [id] is the key of the
    table. *)
Record t := {
  created_at : Z;
  updated_at : Z;
  expires_at : option Z;
  is_active : bool;
  message_count : Z;
  last_activity : Z
}.
End ChatSession.

Module ChatMessage.
(** A row of [chat_messages]; the primary key [id] is the key of the
    table. *)
Record t := {
  session_id : string;
  role : string;
  content : string;
  created_at : Z
}.
End ChatMessage.

(** ** The session manager ([backend/app/services/session_manager.py]) *)

Module Sessions.
Import PyStr.

Record DB := {
  chat_sessions : gmap string ChatSession.t;
  chat_messages : gmap string ChatMessage.t
}.

(** [datetime.utcnow()] and [uuid.uuid4()]: the value of the n-th call. *)
Record Oracles := {
  utcnow : nat -> Z;
  uuid4 : nat -> string
}.

(** The database seen by the unit of work, and how many times the clock
    and the UUID generator have been consulted. *)
Record World := {
  db : DB;
  clock_reads : nat;
  uuids_drawn : nat
}.

(** [timedelta(hours=24)], in microseconds. *)
Definition session_timeout : Z := 24 * 3600 * 1000000.

Definition Tx (A : Type) : Type := World -> (exn + A) * World.

Definition ret {A} (a : A) : Tx A := fun w => (inr a, w).
Definition raise {A} (e : exn) : Tx A := fun w => (inl e, w).
Definition bind {A B} (c : Tx A) (k : A -> Tx B) : Tx B :=
  fun w => match c w with
           | (inr a, w') => k a w'
           | (inl e, w') => (inl e, w')
           end.

Notation "x <- c ;; k" := (bind c (fun x => k))
  (at level 100, c at next level, right associativity).

Definition get_db : Tx DB := fun w => (inr (db w), w).
Definition put_db (d : DB) : Tx unit :=
  fun w => (inr tt, {| db := d; clock_reads := clock_reads w;
                       uuids_drawn := uuids_drawn w |}).

(** [ChatSession.expires_at > t] and [ChatSession.expires_at < t] as SQL
    evaluates them: a NULL expiration satisfies neither. *)
Definition expires_after (s : ChatSession.t) (t : Z) : bool :=
  match ChatSession.expires_at s with Some e => t <? e | None => false end.
Definition expires_before (s : ChatSession.t) (t : Z) : bool :=
  match ChatSession.expires_at s with Some e => e <? t | None => false end.

(** [delete(ChatMessage).where(ChatMessage.session_id.in_(ids))] *)
Definition delete_messages_in (ids : list string) (d : DB) : DB :=
  {| chat_sessions := chat_sessions d;
     chat_messages :=
       filter (fun kv => ChatMessage.session_id kv.2 ∉ ids) (chat_messages d) |}.

(** [delete(ChatSession).where(ChatSession.id.in_(ids))] *)
Definition delete_sessions_in (ids : list string) (d : DB) : DB :=
  {| chat_sessions := filter (fun kv => kv.1 ∉ ids) (chat_sessions d);
     chat_messages := chat_messages d |}.

(** [order_by(ChatMessage.created_at.asc())] *)
Definition created_le (x y : string * ChatMessage.t) : Prop :=
  ChatMessage.created_at x.2 <= ChatMessage.created_at y.2.

#[export] Instance created_le_dec x y : Decision (created_le x y).
Proof. unfold created_le. apply _. Defined.

Section Manager.
Variable orc : Oracles.

Definition now : Tx Z :=
  fun w => (inr (utcnow orc (clock_reads w)),
            {| db := db w; clock_reads := S (clock_reads w);
               uuids_drawn := uuids_drawn w |}).

Definition new_uuid : Tx string :=
  fun w => (inr (uuid4 orc (uuids_drawn w)),
            {| db := db w; clock_reads := clock_reads w;
               uuids_drawn := S (uuids_drawn w) |}).

(** [select(ChatSession).where(and_(id == session_id, is_active == True,
    expires_at > t))] followed by [scalar_one_or_none()]. *)
Definition select_active_unexpired (session_id : string) (t : Z)
    : Tx (option ChatSession.t) :=
  d <- get_db ;;
  ret (match chat_sessions d !! session_id with
       | Some s => if ChatSession.is_active s && expires_after s t
                   then Some s else None
       | None => None
       end).

(** [select(ChatSession).where(and_(id == session_id, is_active ==
    True))] followed by [scalar_one_or_none()]. *)
Definition select_active (session_id : string) : Tx (option ChatSession.t) :=
  d <- get_db ;;
  ret (match chat_sessions d !! session_id with
       | Some s => if ChatSession.is_active s then Some s else None
       | None => None
       end).

Definition _update_session_activity (session_id : string)
    (session : ChatSession.t) : Tx ChatSession.t :=
  t_activity <- now ;;
  t_expiry <- now ;;
  t_update <- now ;;
  let session' := {|
    ChatSession.created_at := ChatSession.created_at session;
    ChatSession.updated_at := t_update;
    ChatSession.expires_at := Some (t_expiry + session_timeout);
    ChatSession.is_active := ChatSession.is_active session;
    ChatSession.message_count := ChatSession.message_count session;
    ChatSession.last_activity := t_activity |} in
  d <- get_db ;;
  _ <- put_db {| chat_sessions := <[session_id := session']> (chat_sessions d);
                 chat_messages := chat_messages d |} ;;
  ret session'.

(** [ChatSession(expires_at=utcnow() + timeout)], [db.add], [db.flush]:
    the flush fills the defaulted columns in column order and inserts
    the row; an id already present violates the primary key. *)
Definition create_session : Tx (string * ChatSession.t) :=
  t_expiry <- now ;;
  new_id <- new_uuid ;;
  t_created <- now ;;
  t_updated <- now ;;
  t_activity <- now ;;
  let session := {|
    ChatSession.created_at := t_created;
    ChatSession.updated_at := t_updated;
    ChatSession.expires_at := Some (t_expiry + session_timeout);
    ChatSession.is_active := true;
    ChatSession.message_count := 0;
    ChatSession.last_activity := t_activity |} in
  d <- get_db ;;
  match chat_sessions d !! new_id with
  | Some _ => raise (IntegrityError "chat_sessions")
  | None =>
      _ <- put_db {| chat_sessions := <[new_id := session]> (chat_sessions d);
                     chat_messages := chat_messages d |} ;;
      ret (new_id, session)
  end.

Definition get_or_create_session (session_id : option string)
    : Tx (string * ChatSession.t) :=
  match session_id with
  | Some sid =>
      if truthy sid then
        t_query <- now ;;
        found <- select_active_unexpired sid t_query ;;
        match found with
        | Some session =>
            session' <- _update_session_activity sid session ;;
            ret (sid, session')
        | None => create_session
        end
      else create_session
  | None => create_session
  end.

Definition add_message (session_id role content : string)
    : Tx (string * ChatMessage.t) :=
  found <- select_active session_id ;;
  match found with
  | None => raise (SessionException "Session not found or expired" session_id)
  | Some session =>
      t_activity <- now ;;
      t_update <- now ;;
      let session' := {|
        ChatSession.created_at := ChatSession.created_at session;
        ChatSession.updated_at := t_update;
        ChatSession.expires_at := ChatSession.expires_at session;
        ChatSession.is_active := ChatSession.is_active session;
        ChatSession.message_count := ChatSession.message_count session + 1;
        ChatSession.last_activity := t_activity |} in
      new_id <- new_uuid ;;
      t_created <- now ;;
      let message := {|
        ChatMessage.session_id := session_id;
        ChatMessage.role := role;
        ChatMessage.content := content;
        ChatMessage.created_at := t_created |} in
      d <- get_db ;;
      match chat_messages d !! new_id with
      | Some _ => raise (IntegrityError "chat_messages")
      | None =>
          _ <- put_db {|
            chat_sessions := <[session_id := session']> (chat_sessions d);
            chat_messages := <[new_id := message]> (chat_messages d) |} ;;
          ret (new_id, message)
      end
  end.

Definition list_messages (session_id : string)
    : Tx (list (string * ChatMessage.t)) :=
  found <- select_active session_id ;;
  match found with
  | None => raise (SessionException "Session not found or expired" session_id)
  | Some _ =>
      d <- get_db ;;
      ret (merge_sort created_le
             (map_to_list
                (filter (fun kv => ChatMessage.session_id kv.2 = session_id)
                        (chat_messages d))))
  end.

Definition deactivate_session (session_id : string) : Tx bool :=
  t_update <- now ;;
  d <- get_db ;;
  match chat_sessions d !! session_id with
  | Some s =>
      let s' := {|
        ChatSession.created_at := ChatSession.created_at s;
        ChatSession.updated_at := t_update;
        ChatSession.expires_at := ChatSession.expires_at s;
        ChatSession.is_active := false;
        ChatSession.message_count := ChatSession.message_count s;
        ChatSession.last_activity := ChatSession.last_activity s |} in
      _ <- put_db {| chat_sessions := <[session_id := s']> (chat_sessions d);
                     chat_messages := chat_messages d |} ;;
      ret true
  | None => ret false
  end.

(** The rows selected by [cleanup_expired_sessions]. *)
Definition swept (t : Z) (s : ChatSession.t) : bool :=
  expires_before s t && ChatSession.is_active s.

Definition cleanup_expired_sessions : Tx Z :=
  t_query <- now ;;
  d <- get_db ;;
  let sessions :=
    map_to_list (filter (fun kv => swept t_query kv.2 = true) (chat_sessions d)) in
  match sessions with
  | [] => ret 0
  | _ =>
      let session_ids := map fst sessions in
      _ <- put_db (delete_messages_in session_ids d) ;;
      d1 <- get_db ;;
      _ <- put_db (delete_sessions_in session_ids d1) ;;
      ret (Z.of_nat (List.length sessions))
  end.

End Manager.

End Sessions.


(** ** Knowledge-base ingestion ([backend/app/api/ingest.py]) *)

Module Ingest.

(** [schemas.IngestFAQItem] *)
Record IngestFAQItem := { question : string; answer : string }.

(** What the vector index keeps under an id. *)
Record Entry := { values : list Q; metadata : gmap string string }.

(** [uuid.uuid5] (a hash of namespace and name) and the embedding model
    are library code: they are taken as they come. *)
Record Collaborators := {
  uuid5 : string -> string -> string;
  embed_texts : list string -> option (list (list Q))
}.

(** [str(uuid.NAMESPACE_URL)] *)
Definition NAMESPACE_URL : string := "6ba7b811-9dad-11d1-80b4-00c04fd430c8".

(** [index.upsert(vectors=items)]: the index keeps one entry per id, and an
    upserted item replaces the entry of its id; items are taken in order. *)
Definition upsert (items : list (string * Entry)) (index : gmap string Entry)
    : gmap string Entry :=
  foldl (fun ix item => <[item.1 := item.2]> ix) index items.

(** [VectorStore.upsert_faqs] *)
Definition upsert_faqs (ids : list string) (vectors : list (list Q))
    (metadatas : list (gmap string string)) (index : gmap string Entry)
    : gmap string Entry :=
  let items :=
    map (fun ivm => (ivm.1, {| values := ivm.2.1; metadata := ivm.2.2 |}))
        (zip ids (zip vectors metadatas)) in
  upsert items index.

Section Endpoint.
Variable co : Collaborators.

(** [str(uuid.uuid5(uuid.NAMESPACE_URL, q))] *)
Definition faq_id (q : string) : string := uuid5 co NAMESPACE_URL q.

(** The endpoint: the response body [{"ingested": n}] is returned as [n],
    next to the index it leaves. *)
Definition ingest_faq (items : list IngestFAQItem) (index : gmap string Entry)
    : (exn + Z) * gmap string Entry :=
  match items with
  | [] => (inl (HTTPException 400 "No FAQ items provided"), index)
  | _ =>
      let questions := map question items in
      let answers := map answer items in
      let metadatas :=
        map (fun qa => <["question" := qa.1]> (<["answer" := qa.2]> ∅))
            (zip questions answers) in
      let ids := map faq_id questions in
      match embed_texts co
              (map (fun qa => qa.1 ++ PyStr.nl ++ qa.2) (zip questions answers)) with
      | None => (inl (ExternalError "embed_texts"), index)
      | Some vectors =>
          (inr (Z.of_nat (List.length ids)),
           upsert_faqs ids vectors metadatas index)
      end
  end.

End Endpoint.

End Ingest.


(** ** The chat endpoints ([backend/app/api/chat.py]) *)

Module ChatRequest.
(** [schemas.ChatRequest] *)
Record t := {
  session_id : option string;
  message : string;
  include_suggestions : bool;
  include_summary : bool
}.
End ChatRequest.

Module ChatResponse.
(** [schemas.ChatResponse] *)
Record t := {
  session_id : string;
  response : string;
  escalated : bool;
  escalation_reason : option string;
  conversation_summary : option string;
  next_actions : option (list string);
  response_type : string;
  confidence_score : option Q
}.
End ChatResponse.

Module SummaryResponse.
Record t := { session_id : string; summary : string }.
End SummaryResponse.

Module ActionsRequest.
Record t := { session_id : string; query : option string }.
End ActionsRequest.

Module ActionsResponse.
Record t := { session_id : string; actions : list string }.
End ActionsResponse.

Module Api.
Import PyStr.

(** What a request works on: the database with the two counters of the
    session manager, and the prompts sent to the generative model so far.
    The database of the state is the committed one; a handler works on its
    own unit of work, which is committed by [db.commit()] and dropped when
    the handler ends without it. *)
Record Server := {
  world : Sessions.World;
  prompts : list string
}.

Definition Handler (A : Type) : Type := Server -> (exn + A) * Server.

Definition ret {A} (a : A) : Handler A := fun st => (inr a, st).
Definition bind {A B} (c : Handler A) (k : A -> Handler B) : Handler B :=
  fun st => match c st with
            | (inr a, st') => k a st'
            | (inl e, st') => (inl e, st')
            end.

Notation "x <- c ;; k" := (bind c (fun x => k))
  (at level 100, c at next level, right associativity).

(** A call of the session manager, and a call of the pipeline. *)
Definition tx {A} (c : Sessions.Tx A) : Handler A :=
  fun st => let (r, w) := c (world st) in
            (r, {| world := w; prompts := prompts st |}).
Definition rag {A} (c : Rag.Run A) : Handler A :=
  fun st => let (r, log) := c (prompts st) in
            (r, {| world := world st; prompts := log |}).

(** The end of a unit of work that was not committed: the tables are those
    of [before]; the clock, the UUID generator and the generative model have
    moved on. *)
Definition rolled_back (before after : Server) : Server := {|
  world := {| Sessions.db := Sessions.db (world before);
              Sessions.clock_reads := Sessions.clock_reads (world after);
              Sessions.uuids_drawn := Sessions.uuids_drawn (world after) |};
  prompts := prompts after
|}.

(** [[{"role": m.role, "content": m.content} for m in stored
      if m.role in ("user", "assistant")]] *)
Definition history_of (stored : list (string * ChatMessage.t)) : list Rag.Turn :=
  map (fun m : string * ChatMessage.t =>
         {| Rag.role := ChatMessage.role m.2;
            Rag.content := ChatMessage.content m.2 |})
      (List.filter
         (fun m : string * ChatMessage.t =>
            String.eqb (ChatMessage.role m.2) "user"
            || String.eqb (ChatMessage.role m.2) "assistant")
         stored).

(** The loop [for msg in reversed(chat_history): if msg["role"] == "user":
    ...; break], over the reversed history. *)
Fixpoint first_user_content (reversed_history : list Rag.Turn) : option string :=
  match reversed_history with
  | [] => None
  | msg :: rest =>
      if String.eqb (Rag.role msg) "user" then Some (Rag.content msg)
      else first_user_content rest
  end.

(** [bool(x)] for an optional string. *)
Definition given (x : option string) : bool :=
  match x with Some s => truthy s | None => false end.

(** The query that [suggest_actions] hands to the pipeline. *)
Definition latest_user_message (query : option string)
    (chat_history : list Rag.Turn) : string :=
  let latest :=
    if negb (given query) && negb (match chat_history with [] => true | _ => false end)
    then match first_user_content (rev chat_history) with
         | Some text => Some text
         | None => query
         end
    else query in
  match latest with
  | Some text => if truthy text then text else "How can I help you today?"
  | None => "How can I help you today?"
  end.

Section Endpoints.
Variable settings : Rag.Settings.
Variable co : Rag.Collaborators.
Variable orc : Sessions.Oracles.
(** [f"{score:.2f}"] *)
Variable format_score : Q -> string.

(** The statements of [chat] up to and including [db.commit()], followed by
    the construction of the response.  The calls to the logger and to the
    metrics collector between the two touch neither the tables nor the
    response. *)
Definition chat_turn (req : ChatRequest.t) : Handler ChatResponse.t :=
  session <- tx (Sessions.get_or_create_session orc (ChatRequest.session_id req)) ;;
  _ <- tx (Sessions.add_message orc session.1 "user" (ChatRequest.message req)) ;;
  stored <- tx (Sessions.list_messages session.1) ;;
  let chat_history := history_of stored in
  enhanced <- rag (Rag.generate_enhanced_response settings co
                     (ChatRequest.message req) chat_history
                     (ChatRequest.include_suggestions req)) ;;
  let '(answer, should_escalate, score, summary, suggestions, response_type) :=
    enhanced in
  _ <- tx (Sessions.add_message orc session.1 "assistant" answer) ;;
  let escalation_reason :=
    if should_escalate
    then Some ("Low similarity score: " ++ format_score score ++
               ". Escalating to human agent.")
    else None in
  let conversation_summary :=
    if ChatRequest.include_summary req && given summary then summary else None in
  ret {| ChatResponse.session_id := session.1;
         ChatResponse.response := answer;
         ChatResponse.escalated := should_escalate;
         ChatResponse.escalation_reason := escalation_reason;
         ChatResponse.conversation_summary := conversation_summary;
         ChatResponse.next_actions := suggestions;
         ChatResponse.response_type := response_type;
         ChatResponse.confidence_score := Some score |}.

(** [chat]: what [chat_turn] has written is committed when it returns and
    dropped when it raises (the exception is logged and raised again). *)
Definition chat (req : ChatRequest.t) : Handler ChatResponse.t :=
  fun st => match chat_turn req st with
            | (inr response, st') => (inr response, st')
            | (inl e, st') => (inl e, rolled_back st st')
            end.

(** [summarize_conversation] of [chat.py]; it never commits. *)
Definition summarize_conversation (session_id : string)
    : Handler SummaryResponse.t :=
  fun st =>
    let (r, st') :=
      (stored <- tx (Sessions.list_messages session_id) ;;
       match stored with
       | [] => ret {| SummaryResponse.session_id := session_id;
                      SummaryResponse.summary :=
                        "No conversation found for this session." |}
       | _ =>
           let chat_history := history_of stored in
           summary <- rag (Rag.summarize_conversation settings co chat_history) ;;
           ret {| SummaryResponse.session_id := session_id;
                  SummaryResponse.summary := summary |}
       end) st in
    (r, rolled_back st st').


End Endpoints.

End Api.

(** ** Errors on the way out ([backend/app/exceptions.py],
    [backend/app/middleware/error_handler.py]) *)

Module Exceptions.

(** The attributes of a [CustomerBotException]. *)
Record CustomerBotException := {
  message : string;
  error_code : string;
  details : list (string * string)
}.

(** [isinstance(e, CustomerBotException)], with the attributes that the
    constructor of its class has set; the exceptions of SQLAlchemy, of
    FastAPI and of the collaborators are no [CustomerBotException]. *)
Definition as_customer_bot_exception (e : exn) : option CustomerBotException :=
  match e with
  | LLMServiceException message model =>
      Some {| message := message; error_code := "LLM_SERVICE_ERROR";
              details := [("model", model)] |}
  | VectorStoreException message operation =>
      Some {| message := message; error_code := "VECTOR_STORE_ERROR";
              details := [("operation", operation)] |}
  | SessionException message session_id =>
      Some {| message := message; error_code := "SESSION_ERROR";
              details := [("session_id", session_id)] |}
  | HTTPException _ _ | IntegrityError _ | ExternalError _ => None
  end.

Definition status_code_mapping : gmap string Z :=
  list_to_map [
    ("LLM_SERVICE_ERROR", 503);
    ("VECTOR_STORE_ERROR", 503);
    ("EMBEDDING_ERROR", 503);
    ("SESSION_ERROR", 400);
    ("CONFIGURATION_ERROR", 500);
    ("VALIDATION_ERROR", 422);
    ("CUSTOMER_BOT_ERROR", 500)
  ].

(** The body of an error response: the keys ["error"] and ["message"],
    and the key ["details"] where there is one. *)
Record ErrorBody := {
  error : string;
  body_message : string;
  body_details : option (list (string * string))
}.

(** The [HTTPException] built by [to_http_exception]: status code and
    detail. *)
Definition to_http_exception (exception : CustomerBotException)
    : Z * ErrorBody :=
  let status_code := default 500 (status_code_mapping !! error_code exception) in
  (status_code,
   {| error := error_code exception;
      body_message := message exception;
      body_details := Some (details exception) |}).

End Exceptions.

Module Middleware.
Import Exceptions.

Record JSONResponse := {
  status_code : Z;
  content : ErrorBody
}.

(** What [dispatch] returns: the response of the application as it is, or
    a [JSONResponse] of its own. *)
Inductive Response (A : Type) : Type :=
| Passed (response : A)
| Replaced (response : JSONResponse).
Arguments Passed {A} response.
Arguments Replaced {A} response.

(** [ErrorHandlingMiddleware.dispatch] around the rest of the application
    [call_next], which works on a state of type [S]. *)
Definition dispatch {S A : Type} (call_next : S -> (exn + A) * S)
    : S -> Response A * S :=
  fun st =>
    match call_next st with
    | (inr response, st') => (Passed response, st')
    | (inl e, st') =>
        match as_customer_bot_exception e with
        | Some e =>
            let http_exception := to_http_exception e in
            (Replaced {| status_code := http_exception.1;
                         content := http_exception.2 |}, st')
        | None =>
            match e with
            | HTTPException status_code detail =>
                (Replaced {| status_code := status_code;
                             content := {| error := "HTTP_ERROR";
                                           body_message := detail;
                                           body_details := None |} |},
                 st')
            | _ =>
                (Replaced {|
                   status_code := 500;
                   content :=
                     {| error := "INTERNAL_SERVER_ERROR";
                        body_message :=
                          "An unexpected error occurred. Please try again later.";
                        body_details := None |} |},
                 st')
            end
        end
    end.

End Middleware.

(** ** Request metrics ([backend/app/monitoring/metrics.py]) *)

Module Metrics.
Import PyStr.

(** Python floats with the operations that the collector uses on them; the
    arithmetic itself is that of the runtime and is left uninterpreted. *)
Class Float (float : Type) := {
  zero : float;                       (* [0.0] *)
  add : float -> float -> float;      (* [a + b] *)
  div : float -> float -> float;      (* [a / b] *)
  of_int : Z -> float;                (* an [int] operand of [+] or [/] *)
  true_div : Z -> Z -> float;         (* [a / b] on two [int]s *)
  minutes : Z -> float                (* [timedelta.total_seconds() / 60] *)
}.

(** What the field [timestamp] of a request holds: a [datetime], as the
    dataclass announces, or the float of [time.time()]. *)
Inductive Timestamp {float : Type} : Type :=
| Datetime (t : Z)
| Seconds (t : float).
Arguments Timestamp : clear implicits.

Module RequestMetrics.
Record t {float : Type} := {
  endpoint : string;
  method : string;
  status_code : Z;
  response_time : float;
  timestamp : Timestamp float;
  session_id : option string;
  confidence_score : option float;
  response_type : option string;
  escalated : bool
}.
Arguments t : clear implicits.
End RequestMetrics.

Module SystemMetrics.
Record t {float : Type} := {
  total_requests : Z;
  successful_requests : Z;
  failed_requests : Z;
  average_response_time : float;
  requests_per_minute : float;
  escalation_rate : float;
  average_confidence_score : float;
  active_sessions : Z;
  timestamp : Z
}.
Arguments t : clear implicits.
End SystemMetrics.

(** An entry of [endpoint_metrics]. *)
Module EndpointMetrics.
Record t {float : Type} := {
  count : Z;
  total_time : float;
  success_count : Z;
  error_count : Z
}.
Arguments t : clear implicits.
End EndpointMetrics.

(** An entry of [session_metrics]. *)
Module SessionMetrics.
Record t {float : Type} := {
  request_count : Z;
  total_time : float;
  escalations : Z;
  confidence_scores : list float
}.
Arguments t : clear implicits.
End SessionMetrics.

(** An entry of the result of [get_endpoint_metrics]. *)
Module EndpointStats.
Record t {float : Type} := {
  total_requests : Z;
  success_rate : float;
  error_rate : float;
  average_response_time : float;
  total_response_time : float
}.
Arguments t : clear implicits.
End EndpointStats.

(** The result of [get_session_metrics]. *)
Module SessionStats.
Record t {float : Type} := {
  request_count : Z;
  total_time : float;
  escalations : Z;
  average_confidence_score : float;
  escalation_rate : float
}.
Arguments t : clear implicits.
End SessionStats.

Record MetricsCollector {float : Type} := {
  max_history : nat;
  request_history : list (RequestMetrics.t float);
  session_metrics : gmap string (SessionMetrics.t float);
  endpoint_metrics : gmap string (EndpointMetrics.t float)
}.
Arguments MetricsCollector : clear implicits.

Definition hour : Z := 3600000000.

Section Collector.
Context {float : Type} `{Float float}.

Definition init (max_history : nat) : MetricsCollector float := {|
  max_history := max_history;
  request_history := [];
  session_metrics := ∅;
  endpoint_metrics := ∅
|}.

(** [200 <= status_code < 400] *)
Definition succeeded (status_code : Z) : bool :=
  (200 <=? status_code)%Z && (status_code <? 400)%Z.

(** [sum(xs)] *)
Definition sum (xs : list float) : float := fold_left add xs (of_int 0).

(** The default entry of [endpoint_metrics], and the entry that
    [record_request] gives a session at its first request. *)
Definition new_endpoint_entry : EndpointMetrics.t float := {|
  EndpointMetrics.count := 0;
  EndpointMetrics.total_time := zero;
  EndpointMetrics.success_count := 0;
  EndpointMetrics.error_count := 0 |}.
Definition new_session_entry : SessionMetrics.t float := {|
  SessionMetrics.request_count := 0;
  SessionMetrics.total_time := zero;
  SessionMetrics.escalations := 0;
  SessionMetrics.confidence_scores := [] |}.

(** [deque.append] on a deque of the given [maxlen]. *)
Definition deque_append {A} (maxlen : nat) (items : list A) (x : A) : list A :=
  last_n maxlen (items ++ [x])%list.

Definition record_request (metrics : RequestMetrics.t float)
    (self : MetricsCollector float) : MetricsCollector float :=
  let endpoint_key :=
    RequestMetrics.method metrics ++ " " ++ RequestMetrics.endpoint metrics in
  let entry := default new_endpoint_entry (endpoint_metrics self !! endpoint_key) in
  let ok := succeeded (RequestMetrics.status_code metrics) in
  let entry' := {|
    EndpointMetrics.count := EndpointMetrics.count entry + 1;
    EndpointMetrics.total_time :=
      add (EndpointMetrics.total_time entry) (RequestMetrics.response_time metrics);
    EndpointMetrics.success_count :=
      if ok then EndpointMetrics.success_count entry + 1
      else EndpointMetrics.success_count entry;
    EndpointMetrics.error_count :=
      if ok then EndpointMetrics.error_count entry
      else EndpointMetrics.error_count entry + 1 |} in
  let sessions :=
    match RequestMetrics.session_id metrics with
    | Some sid =>
        if truthy sid then
          let session := default new_session_entry (session_metrics self !! sid) in
          <[sid := {|
              SessionMetrics.request_count := SessionMetrics.request_count session + 1;
              SessionMetrics.total_time :=
                add (SessionMetrics.total_time session)
                    (RequestMetrics.response_time metrics);
              SessionMetrics.escalations :=
                if RequestMetrics.escalated metrics
                then SessionMetrics.escalations session + 1
                else SessionMetrics.escalations session;
              SessionMetrics.confidence_scores :=
                match RequestMetrics.confidence_score metrics with
                | Some score =>
                    (SessionMetrics.confidence_scores session ++ [score])%list
                | None => SessionMetrics.confidence_scores session
                end |}]> (session_metrics self)
        else session_metrics self
    | None => session_metrics self
    end in
  {| max_history := max_history self;
     request_history :=
       deque_append (max_history self) (request_history self) metrics;
     session_metrics := sessions;
     endpoint_metrics := <[endpoint_key := entry']> (endpoint_metrics self) |}.

(** [[r for r in history if r.timestamp > cutoff]] for a [datetime]
    [cutoff]; comparing the float of [time.time()] with a [datetime]
    raises [TypeError], which is the answer [None]. *)
Fixpoint newer_than (cutoff : Z) (history : list (RequestMetrics.t float))
    : option (list (RequestMetrics.t float)) :=
  match history with
  | [] => Some []
  | r :: rest =>
      match RequestMetrics.timestamp r with
      | Datetime t =>
          match newer_than cutoff rest with
          | Some kept => Some (if (cutoff <? t)%Z then r :: kept else kept)
          | None => None
          end
      | Seconds _ => None
      end
  end.

(** [(last.timestamp - first.timestamp).total_seconds() / 60], followed by
    [total_requests / time_span if time_span > 0 else 0.0]. *)
Definition rate_per_minute (total_requests : Z)
    (first last : RequestMetrics.t float) : option float :=
  match RequestMetrics.timestamp last, RequestMetrics.timestamp first with
  | Datetime t_last, Datetime t_first =>
      Some (if (0 <? t_last - t_first)%Z
            then div (of_int total_requests) (minutes (t_last - t_first))
            else zero)
  | _, _ => None
  end.

(** [get_system_metrics]; [utcnow] gives the readings of the clock in the
    order in which the call takes them. *)
Definition get_system_metrics (utcnow : nat -> Z) (self : MetricsCollector float)
    : option (SystemMetrics.t float) :=
  match request_history self with
  | [] =>
      Some {| SystemMetrics.total_requests := 0;
              SystemMetrics.successful_requests := 0;
              SystemMetrics.failed_requests := 0;
              SystemMetrics.average_response_time := zero;
              SystemMetrics.requests_per_minute := zero;
              SystemMetrics.escalation_rate := zero;
              SystemMetrics.average_confidence_score := zero;
              SystemMetrics.active_sessions :=
                Z.of_nat (size (session_metrics self));
              SystemMetrics.timestamp := utcnow 0%nat |}
  | oldest :: _ =>
      let one_hour_ago := utcnow 0%nat - hour in
      match newer_than one_hour_ago (request_history self) with
      | None => None
      | Some recent =>
          let recent_requests :=
            match recent with [] => request_history self | _ => recent end in
          let total_requests := Z.of_nat (List.length recent_requests) in
          let successful_requests :=
            Z.of_nat (List.length
              (List.filter (fun r => succeeded (RequestMetrics.status_code r))
                           recent_requests)) in
          let failed_requests := total_requests - successful_requests in
          let total_response_time :=
            sum (map RequestMetrics.response_time recent_requests) in
          let average_response_time :=
            if (0 <? total_requests)%Z
            then div total_response_time (of_int total_requests) else zero in
          match rate_per_minute total_requests
                  (hd oldest recent_requests) (List.last recent_requests oldest) with
          | None => None
          | Some requests_per_minute =>
              let escalated_requests :=
                Z.of_nat (List.length
                  (List.filter RequestMetrics.escalated recent_requests)) in
              let escalation_rate :=
                if (0 <? total_requests)%Z
                then true_div escalated_requests total_requests else zero in
              let confidence_scores :=
                omap RequestMetrics.confidence_score recent_requests in
              let average_confidence_score :=
                match confidence_scores with
                | [] => zero
                | _ => div (sum confidence_scores)
                           (of_int (Z.of_nat (List.length confidence_scores)))
                end in
              Some {| SystemMetrics.total_requests := total_requests;
                      SystemMetrics.successful_requests := successful_requests;
                      SystemMetrics.failed_requests := failed_requests;
                      SystemMetrics.average_response_time := average_response_time;
                      SystemMetrics.requests_per_minute := requests_per_minute;
                      SystemMetrics.escalation_rate := escalation_rate;
                      SystemMetrics.average_confidence_score :=
                        average_confidence_score;
                      SystemMetrics.active_sessions :=
                        Z.of_nat (size (session_metrics self));
                      SystemMetrics.timestamp := utcnow 1%nat |}
          end
      end
  end.

Definition get_endpoint_metrics (self : MetricsCollector float)
    : gmap string (EndpointStats.t float) :=
  (fun metrics : EndpointMetrics.t float => {|
     EndpointStats.total_requests := EndpointMetrics.count metrics;
     EndpointStats.success_rate :=
       true_div (EndpointMetrics.success_count metrics)
                (EndpointMetrics.count metrics);
     EndpointStats.error_rate :=
       true_div (EndpointMetrics.error_count metrics)
                (EndpointMetrics.count metrics);
     EndpointStats.average_response_time :=
       div (EndpointMetrics.total_time metrics)
           (of_int (EndpointMetrics.count metrics));
     EndpointStats.total_response_time := EndpointMetrics.total_time metrics |})
  <$> filter (fun kv => (0 < EndpointMetrics.count kv.2)%Z) (endpoint_metrics self).

Definition get_session_metrics (session_id : string)
    (self : MetricsCollector float) : option (SessionStats.t float) :=
  match session_metrics self !! session_id with
  | None => None
  | Some metrics =>
      let scores := SessionMetrics.confidence_scores metrics in
      Some {|
        SessionStats.request_count := SessionMetrics.request_count metrics;
        SessionStats.total_time := SessionMetrics.total_time metrics;
        SessionStats.escalations := SessionMetrics.escalations metrics;
        SessionStats.average_confidence_score :=
          match scores with
          | [] => zero
          | _ => div (sum scores) (of_int (Z.of_nat (List.length scores)))
          end;
        SessionStats.escalation_rate :=
          match scores with
          | [] => zero
          | _ => true_div (SessionMetrics.escalations metrics)
                          (SessionMetrics.request_count metrics)
          end |}
  end.

(** The request that [chat] of [backend/app/api/chat.py] records after a
    turn: [response_time] and [now] are differences and readings of
    [time.time()]. *)
Definition chat_request (response_time now : float) (session_id : string)
    (score : float) (response_type : string) (escalated : bool)
    : RequestMetrics.t float := {|
  RequestMetrics.endpoint := "/api/chat";
  RequestMetrics.method := "POST";
  RequestMetrics.status_code := 200;
  RequestMetrics.response_time := response_time;
  RequestMetrics.timestamp := Seconds now;
  RequestMetrics.session_id := Some session_id;
  RequestMetrics.confidence_score := Some score;
  RequestMetrics.response_type := Some response_type;
  RequestMetrics.escalated := escalated |}.

(** [cleanup_old_metrics]; [now] is the reading of the clock. *)
Definition cleanup_old_metrics (now : Z) (max_age_hours : Z)
    (self : MetricsCollector float) : option (MetricsCollector float) :=
  let cutoff_time := now - max_age_hours * hour in
  match newer_than cutoff_time (request_history self) with
  | None => None
  | Some kept =>
      Some {| max_history := max_history self;
              request_history := last_n (max_history self) kept;
              session_metrics := session_metrics self;
              endpoint_metrics := endpoint_metrics self |}
  end.

End Collector.

End Metrics.

(** ** The dataset loader ([scripts/load_hf_dataset.py]) *)

Module HFDatasetLoader.
Import PyStr Ingest.

(** A row of a split: from the name of a column to [str] of its value. *)
Definition Row : Type := gmap string string.

(** The loader: the splits of the dataset in the order of
    [dataset.keys()], [None] before [load_dataset]; and [self.faqs]. *)
Record t := {
  dataset : option (list (string * list Row));
  faqs : list IngestFAQItem
}.

Definition question_cols : list string :=
  ["question"; "Question"; "query"; "Query"; "text"; "Text"; "input"; "Input"].
Definition answer_cols : list string :=
  ["answer"; "Answer"; "response"; "Response"; "output"; "Output"; "target";
   "Target"].

(** [for col in candidates: if col in columns: ...; break] *)
Definition first_column (candidates : list string) (first_row : Row)
    : option string :=
  List.find (fun col => bool_decide (is_Some (first_row !! col))) candidates.

(** [self.dataset[split]] *)
Fixpoint split_data (splits : list (string * list Row)) (split : string)
    : option (list Row) :=
  match splits with
  | [] => None
  | (name, data) :: rest =>
      if String.eqb name split then Some data else split_data rest split
  end.

(** The body of the loop over the rows: the item to append, if any.  A
    row without the column raises [KeyError], which the loop catches. *)
Definition extracted (question_col answer_col : string) (item : Row)
    : option IngestFAQItem :=
  match item !! question_col, item !! answer_col with
  | Some q, Some a =>
      let question := strip q in
      let answer := strip a in
      if (len question <? 10)%Z || (len answer <? 10)%Z then None
      else Some {| question := question; answer := answer |}
  | _, _ => None
  end.

(** [extract_faqs]: the list returned and the loader afterwards; [None] is
    the [IndexError] of [data[0]] on a split without rows. *)
Definition extract_faqs (split : string) (self : t)
    : option (list IngestFAQItem * t) :=
  match dataset self with
  | None | Some [] => Some ([], self)
  | Some splits =>
      match split_data splits split with
      | None => Some ([], self)
      | Some data =>
          match data with
          | [] => None
          | first_row :: _ =>
              match first_column question_cols first_row,
                    first_column answer_cols first_row with
              | Some question_col, Some answer_col =>
                  let faqs := omap (extracted question_col answer_col) data in
                  Some (faqs, {| dataset := dataset self; faqs := faqs |})
              | _, _ => Some ([], self)
              end
          end
      end
  end.

(** The loop of [main] over the splits: [all_faqs] and the loader. *)
Fixpoint extract_all (split_names : list string) (self : t)
    : option (list IngestFAQItem * t) :=
  match split_names with
  | [] => Some ([], self)
  | split_name :: rest =>
      match extract_faqs split_name self with
      | None => None
      | Some (faqs, self') =>
          match extract_all rest self' with
          | None => None
          | Some (more, self'') => Some ((faqs ++ more)%list, self'')
          end
      end
  end.

(** One turn of the loop of [main] that drops repeated questions, on the
    pair of [seen_questions] and [unique_faqs]. *)
Definition keep_unseen (state : gset string * list IngestFAQItem)
    (faq : IngestFAQItem) : gset string * list IngestFAQItem :=
  if decide (question faq ∈ state.1) then state
  else ({[question faq]} ∪ state.1, (state.2 ++ [faq])%list).

Definition unique_faqs (all_faqs : list IngestFAQItem) : list IngestFAQItem :=
  (fold_left keep_unseen all_faqs (∅, [])).2.

(** [main] after a successful [load_dataset], up to [loader.faqs =
    unique_faqs]. *)
Definition main (self : t) : option t :=
  match dataset self with
  | None => None
  | Some splits =>
      match extract_all (map fst splits) self with
      | None => None
      | Some (all_faqs, self') =>
          Some {| dataset := dataset self'; faqs := unique_faqs all_faqs |}
      end
  end.

End HFDatasetLoader.

(** ** Vocabulary of the properties *)

Module Vocabulary.
Import PyStr Rag.

(** The formatted blocks of a list of matches, in the order of the list. *)
Definition blocks (matches : list Match) : list string :=
  map (fun m => qa_block m.2) matches.

(** Sum of the lengths of a list of strings. *)
Definition total_len (parts : list string) : Z :=
  foldr (fun p n => len p + n) 0 parts.

(** The score reported by context assembly: that of the first match, or
    zero when there is none. *)
Definition best_score (matches : list Match) : Q :=
  match matches with [] => 0%Q | (score, _) :: _ => score end.

(** The first line of a text. *)
Definition first_line (s : string) : string := hd "" (split_char LF s).

(** An entry from which direct extraction can read the answer: the question
    does not contain the marker "A:", and the first line of the answer is
    not empty and has no blank at either end. *)
Definition extractable (meta : gmap string string) : Prop :=
  contains "A:" (default "" (meta !! "question")) = false /\
  first_line (default "" (meta !! "answer")) <> "" /\
  strip (first_line (default "" (meta !! "answer")))
    = first_line (default "" (meta !! "answer")).

(** Insufficient evidence: no match, or a best score below the threshold. *)
Definition insufficient (settings : Settings) (matches : list Match) : Prop :=
  matches = [] \/ (best_score matches < score_threshold settings)%Q.

(** The scan of the general answer: the marker in any letter case, or the
    word in any letter case. *)
Definition signals_escalation (text : string) : bool :=
  contains "ESCALATE_TO_HUMAN" (upper text) || contains "escalate" (lower text).

(** The prompts of the general-knowledge path and of the FAQ path. *)
Definition general_prompt (query : string) (chat_history : list Turn) : string :=
  Prompts.general_response
    (join nl (map history_line (last_n 6 chat_history))) query.

Definition faq_prompt (context query : string) (chat_history : list Turn) : string :=
  Prompts.faq_response context
    (join nl (map history_line (last_n 6 chat_history))) query.

(** Started with [log], the computation [c] sends at most [n] further
    prompts, and either returns a value satisfying [Q] or raises an
    exception satisfying [E]. *)
Definition outcome {A} (c : Run A) (log : list string) (n : nat)
    (Q : A -> Prop) (E : exn -> Prop) : Prop :=
  exists sent,
    (c log).2 = (log ++ sent)%list /\ (List.length sent <= n)%nat /\
    match (c log).1 with inr a => Q a | inl e => E e end.

(** The exceptions of the pipeline. *)
Definition pipeline_error (settings : Settings) (e : exn) : Prop :=
  e = VectorStoreException "Failed to retrieve context" "retrieve" \/
  exists message, e = LLMServiceException message (chat_model settings).

(** What a kept suggestion satisfies: more than 10 characters, and none of
    the filler openers at its start once letter case is ignored. *)
Definition acceptable (action : string) : Prop :=
  10 < len action /\
  Forall (fun p => has_prefix p (lower action) = false) filler_openers.

End Vocabulary.

Module SessionVocabulary.
Import Sessions.

(** The expiration of a session has passed at time [t]. *)
Definition expired_at (s : ChatSession.t) (t : Z) : Prop :=
  exists e, ChatSession.expires_at s = Some e /\ e < t.

(** A session is eligible for use at time [t]: active, and [t] strictly
    before its expiration. *)
Definition eligible (s : ChatSession.t) (t : Z) : Prop :=
  ChatSession.is_active s = true /\
  exists e, ChatSession.expires_at s = Some e /\ t < e.

(** The argument of [get_or_create_session] names the eligible session
    [s] under [sid]. *)
Definition names_eligible (d : DB) (t : Z) (session_id : option string)
    (sid : string) (s : ChatSession.t) : Prop :=
  session_id = Some sid /\ sid <> "" /\
  chat_sessions d !! sid = Some s /\ eligible s t.

(** Clock readings consumed by the lookup of [get_or_create_session]. *)
Definition lookup_reads (session_id : option string) : nat :=
  match session_id with
  | Some sid => if PyStr.truthy sid then 1 else 0
  | None => 0
  end.

(** Every message belongs to a session of the table. *)
Definition owned (d : DB) : Prop :=
  forall mid m, chat_messages d !! mid = Some m ->
    is_Some (chat_sessions d !! ChatMessage.session_id m).

(** The session of a message is one of those selected by the sweep. *)
Definition owner_swept (d : DB) (t : Z) (m : ChatMessage.t) : bool :=
  match chat_sessions d !! ChatMessage.session_id m with
  | Some s => swept t s
  | None => false
  end.

(** The row of a session touched by a new message at the given readings. *)
Definition touched (s : ChatSession.t) (t_activity t_update : Z) : ChatSession.t := {|
  ChatSession.created_at := ChatSession.created_at s;
  ChatSession.updated_at := t_update;
  ChatSession.expires_at := ChatSession.expires_at s;
  ChatSession.is_active := ChatSession.is_active s;
  ChatSession.message_count := ChatSession.message_count s + 1;
  ChatSession.last_activity := t_activity |}.

(** The row of a session whose expiration is pushed forward. *)
Definition refreshed (s : ChatSession.t) (t_activity t_expiry t_update : Z)
    : ChatSession.t := {|
  ChatSession.created_at := ChatSession.created_at s;
  ChatSession.updated_at := t_update;
  ChatSession.expires_at := Some (t_expiry + session_timeout);
  ChatSession.is_active := ChatSession.is_active s;
  ChatSession.message_count := ChatSession.message_count s;
  ChatSession.last_activity := t_activity |}.

(** The row of a session after deactivation at the given reading. *)
Definition deactivated (s : ChatSession.t) (t_update : Z) : ChatSession.t := {|
  ChatSession.created_at := ChatSession.created_at s;
  ChatSession.updated_at := t_update;
  ChatSession.expires_at := ChatSession.expires_at s;
  ChatSession.is_active := false;
  ChatSession.message_count := ChatSession.message_count s;
  ChatSession.last_activity := ChatSession.last_activity s |}.

(** The messages of a session. *)
Definition messages_of (d : DB) (sid : string) : gmap string ChatMessage.t :=
  filter (fun kv => ChatMessage.session_id kv.2 = sid) (chat_messages d).

(** The message counter of every session is the number of its messages. *)
Definition counted (d : DB) : Prop :=
  forall sid s, chat_sessions d !! sid = Some s ->
    ChatSession.message_count s = Z.of_nat (size (messages_of d sid)).

(** One call of the session manager, whatever its arguments and whether it
    returns or raises. *)
Inductive manager_step (orc : Oracles) : World -> World -> Prop :=
| step_get_or_create (session_id : option string) (w : World) :
    manager_step orc w (get_or_create_session orc session_id w).2
| step_add_message (session_id role content : string) (w : World) :
    manager_step orc w (add_message orc session_id role content w).2
| step_list_messages (session_id : string) (w : World) :
    manager_step orc w (list_messages session_id w).2
| step_deactivate_session (session_id : string) (w : World) :
    manager_step orc w (deactivate_session orc session_id w).2
| step_cleanup_expired_sessions (w : World) :
    manager_step orc w (cleanup_expired_sessions orc w).2.

(** The worlds reached from an empty database by calls of the manager. *)
Inductive reachable (orc : Oracles) : World -> Prop :=
| reachable_empty (reads draws : nat) :
    reachable orc {| db := {| chat_sessions := ∅; chat_messages := ∅ |};
                     clock_reads := reads; uuids_drawn := draws |}
| reachable_step (w w' : World) :
    reachable orc w -> manager_step orc w w' -> reachable orc w'.

End SessionVocabulary.

Module ApiVocabulary.
Import Sessions Vocabulary.


(** The stock question of [suggest_actions]. *)
Definition default_query : string := "How can I help you today?".

(** The exceptions of a chat turn: a colliding primary key in either table,
    or an exception of the pipeline. *)
Definition chat_error (settings : Rag.Settings) (e : exn) : Prop :=
  e = IntegrityError "chat_sessions" \/ e = IntegrityError "chat_messages" \/
  pipeline_error settings e.

End ApiVocabulary.

Module MetricsVocabulary.
Import Metrics.

Section Recorded.
Context {float : Type} `{Float float}.

(** The collector after the requests [requests], recorded in this order. *)
Definition recorded (requests : list (RequestMetrics.t float))
    (self : MetricsCollector float) : MetricsCollector float :=
  fold_left (fun c r => record_request r c) requests self.

Definition endpoint_key (r : RequestMetrics.t float) : string :=
  RequestMetrics.method r ++ " " ++ RequestMetrics.endpoint r.

(** The requests to an endpoint, and the requests of a session. *)
Definition requests_to (key : string) (requests : list (RequestMetrics.t float))
    : list (RequestMetrics.t float) :=
  List.filter (fun r => String.eqb (endpoint_key r) key) requests.
Definition requests_of (sid : string) (requests : list (RequestMetrics.t float))
    : list (RequestMetrics.t float) :=
  List.filter
    (fun r => match RequestMetrics.session_id r with
              | Some s => String.eqb s sid
              | None => false
              end)
    requests.

Definition number (requests : list (RequestMetrics.t float)) : Z :=
  Z.of_nat (List.length requests).

Definition has_datetime (r : RequestMetrics.t float) : Prop :=
  exists t, RequestMetrics.timestamp r = Datetime t.
Definition has_float_time (r : RequestMetrics.t float) : Prop :=
  exists t, RequestMetrics.timestamp r = Seconds t.

End Recorded.

End MetricsVocabulary.

(** ** Concrete scenarios used below *)

Module Scenarios.
Import PyStr Rag.

(** A text of [n] characters. *)
Fixpoint filler (n : nat) : string :=
  match n with O => EmptyString | S n' => String "x"%char (filler n') end.

Definition faq (q a : string) : gmap string string :=
  <["question" := q]> (<["answer" := a]> ∅).

(** A retriever that answers every query with [matches], and a generative
    model that answers every prompt with [reply]. *)
Definition fixed (matches : list Match) (reply : option string) : Collaborators := {|
  embed_text := fun _ => Some [];
  query_index := fun _ _ => Some matches;
  generate_content := fun _ _ => reply
|}.

(** Two entries whose blocks are 600 characters each. *)
Definition two_full_blocks : list Match :=
  [ (0.93%Q, faq "How do I reset my password?" (filler 565));
    (0.81%Q, faq "How do I change my email?" (filler 567)) ].

(** With a budget of 20: a block of 12, one of 13, one of 8. *)
Definition budget_20 : Settings := {|
  chat_model := "models/gemini-2.5-flash";
  top_k := 3;
  score_threshold := 0.75%Q;
  max_context_chars := 20
|}.
Definition small_after_large : list Match :=
  [ (0.90%Q, faq "ab" "cd"); (0.80%Q, faq "abc" "cd"); (0.70%Q, faq "" "") ].

(** The scenario of the specification: top score 0.95 with the default
    threshold 0.75 and budget 1200. *)
Definition direct_hit : list Match :=
  [ (0.95%Q, faq "How do I reset my password?"
                 ("Use the reset link on the sign-in page." ++ nl ++
                  "The link is valid for one hour."));
    (0.62%Q, faq "How do I change my email?" "Open the account settings.") ].

(** A best match of score 0.95 whose block alone is over the default
    budget. *)
Definition oversized_top : list Match :=
  [ (0.95%Q, faq "How do I reset my password?" (filler 1200)) ].

End Scenarios.

Module IngestVocabulary.
Import Ingest.

(** What the endpoint stores for an item whose text was embedded as [v]. *)
Definition stored (it : IngestFAQItem) (v : list Q) : Entry := {|
  values := v;
  metadata := <["question" := question it]> (<["answer" := answer it]> ∅) |}.

(** The entry of the last item of a batch that carries the id [k]. *)
Fixpoint last_with_key (k : string) (items : list (string * Entry)) : option Entry :=
  match items with
  | [] => None
  | item :: rest =>
      match last_with_key k rest with
      | Some e => Some e
      | None => if decide (item.1 = k) then Some item.2 else None
      end
  end.

(** Stand-ins for the library functions in the scenarios: a key built from
    the namespace and the name, and an embedding of one number. *)
Definition plain : Collaborators := {|
  uuid5 := fun ns name => ns ++ "/" ++ name;
  embed_texts := fun texts => Some (map (fun t => [inject_Z (PyStr.len t)]) texts)
|}.

Definition first_version : IngestFAQItem :=
  {| question := "How do I reset my password?"; answer := "Ask support." |}.
Definition second_version : IngestFAQItem :=
  {| question := "How do I reset my password?";
     answer := "Use the reset link on the sign-in page." |}.

End IngestVocabulary.

Module SessionScenarios.
Import Sessions.

(** A clock that advances by one microsecond per reading, and one that
    gives the same reading every time (a clock coarser than the calls). *)
Definition ticking (start : Z) : nat -> Z := fun n => start + Z.of_nat n.
Definition frozen (t : Z) : nat -> Z := fun _ => t.

Definition numbered (n : nat) : string :=
  match n with
  | 0%nat => "id-0" | 1%nat => "id-1" | 2%nat => "id-2" | _ => "id-3"
  end.

Definition empty_world : World := {|
  db := {| chat_sessions := ∅; chat_messages := ∅ |};
  clock_reads := 0;
  uuids_drawn := 0
|}.

Definition session (expires : option Z) (active : bool) : ChatSession.t := {|
  ChatSession.created_at := 10;
  ChatSession.updated_at := 10;
  ChatSession.expires_at := expires;
  ChatSession.is_active := active;
  ChatSession.message_count := 1;
  ChatSession.last_activity := 10 |}.

Definition message (sid content : string) (t : Z) : ChatMessage.t := {|
  ChatMessage.session_id := sid;
  ChatMessage.role := "user";
  ChatMessage.content := content;
  ChatMessage.created_at := t |}.

(** Three sessions seen at time 200: [stale] is active and expired at 100,
    [closed] was deactivated and expired at 100, [live] is active and
    expires at 900.  Each owns one message. *)
Definition three_sessions : World := {|
  db := {|
    chat_sessions :=
      <["stale" := session (Some 100) true]>
        (<["closed" := session (Some 100) false]>
           (<["live" := session (Some 900) true]> ∅));
    chat_messages :=
      <["m-stale" := message "stale" "hello" 20]>
        (<["m-closed" := message "closed" "bye" 30]>
           (<["m-live" := message "live" "hi" 40]> ∅)) |};
  clock_reads := 0;
  uuids_drawn := 0
|}.

Definition at_200 : Oracles := {| utcnow := ticking 200; uuid4 := numbered |}.
Definition stuck_at_1000 : Oracles := {| utcnow := frozen 1000; uuid4 := numbered |}.

End SessionScenarios.

Module ApiScenarios.
Import Api Scenarios SessionScenarios.

(** A first request, without session id, on an empty database. *)
Definition first_request : ChatRequest.t := {|
  ChatRequest.session_id := None;
  ChatRequest.message := "How do I reset my password?";
  ChatRequest.include_suggestions := true;
  ChatRequest.include_summary := true
|}.

Definition fresh_server : Server := {| world := empty_world; prompts := [] |}.

(** Collaborators whose embedding model is down. *)
Definition embedding_down : Rag.Collaborators := {|
  Rag.embed_text := fun _ => None;
  Rag.query_index := fun _ _ => Some [];
  Rag.generate_content := fun _ _ => Some "Please contact the help desk."
|}.

Definition two_digits (score : Q) : string := "0.95".

End ApiScenarios.

Module MetricsScenarios.
Import Metrics.

(** Rational arithmetic in the place of the floats, for the examples. *)
#[export] Instance rational : Float Q := {|
  zero := 0%Q;
  add := Qplus;
  div := Qdiv;
  of_int := inject_Z;
  true_div := fun a b => (inject_Z a / inject_Z b)%Q;
  minutes := fun microseconds => (inject_Z microseconds / 60000000)%Q
|}.

(** The request recorded after a chat turn answered from the knowledge
    base. *)
Definition after_chat : RequestMetrics.t Q :=
  chat_request 0.2%Q 1700000000%Q "id-0" 0.95%Q "faq" false.

(** A request stamped with a [datetime]. *)
Definition stamped (status_code t : Z) : RequestMetrics.t Q := {|
  RequestMetrics.endpoint := "/api/chat";
  RequestMetrics.method := "POST";
  RequestMetrics.status_code := status_code;
  RequestMetrics.response_time := 0.2%Q;
  RequestMetrics.timestamp := Datetime t;
  RequestMetrics.session_id := Some "id-0";
  RequestMetrics.confidence_score := None;
  RequestMetrics.response_type := None;
  RequestMetrics.escalated := false |}.

End MetricsScenarios.

Module MigrationScenarios.
Import Sessions SessionScenarios.

(** A database with one session from before the migration, and its
    message. *)
Definition migrated : World := {|
  db := {|
    chat_sessions := <["old" := session None true]> ∅;
    chat_messages := <["m-old" := message "old" "hello" 20]> ∅ |};
  clock_reads := 0;
  uuids_drawn := 0
|}.

End MigrationScenarios.

Module LoaderScenarios.
Import Ingest IngestVocabulary HFDatasetLoader.

(** Three extracted items, the first two with the same question. *)
Definition batch : list IngestFAQItem :=
  [ first_version; second_version;
    {| question := "How do I change my email?";
       answer := "Open the account settings." |} ].

(** A loaded dataset of one split with three rows: one to keep once its
    blanks are stripped, one whose question is too short, one without
    answer. *)
Definition loaded : t := {|
  dataset := Some [
    ("train",
     [ <["Question" := "  How do I reset my password? "]>
         (<["answer" := "Use the reset link on the sign-in page."]> ∅);
       <["Question" := "Hello?"]> (<["answer" := "Hello, how can I help?"]> ∅);
       <["Question" := "How do I change my email?"]> ∅ ]) ];
  faqs := []
|}.

End LoaderScenarios.

(** * Properties *)

(** ** Strings *)

Module PyStrFacts.
Import PyStr.

#[local] Arguments String.append !_ _ / : simpl nomatch.

Lemma length_append (a b : string) :
  String.length (a ++ b) = (String.length a + String.length b)%nat.
Proof. induction a as [|c a IH]; simpl; [done | by rewrite IH]. Qed.

Lemma len_append (a b : string) : len (a ++ b) = len a + len b.
Proof. unfold len. rewrite length_append. lia. Qed.

Lemma len_nonneg (a : string) : 0 <= len a.
Proof. unfold len. lia. Qed.

Lemma len_nl : len nl = 1.
Proof. reflexivity. Qed.

Lemma join_cons2 (sep x y : string) (l : list string) :
  join sep (x :: y :: l) = x ++ sep ++ join sep (y :: l).
Proof. reflexivity. Qed.

Lemma lstrip_shorter (s : string) :
  lstrip s = s \/ (String.length (lstrip s) < String.length s)%nat.
Proof.
  induction s as [|c s IH]; [by left|]. simpl.
  destruct (isspace c); [right | by left].
  destruct IH as [-> | IH]; simpl; lia.
Qed.

Lemma rstrip_length (s : string) :
  (String.length (rstrip s) <= String.length s)%nat.
Proof.
  induction s as [|c s IH]; [done|]. simpl.
  destruct (rstrip s); [destruct (isspace c) |]; simpl in *; lia.
Qed.

(** A non-empty text equal to its own [strip] is untouched by either side
    of the trimming. *)
Lemma strip_fixed (a : string) :
  strip a = a -> lstrip a = a /\ rstrip a = a.
Proof.
  unfold strip. intros H.
  destruct (lstrip_shorter a) as [Hl | Hl]; [rewrite Hl in H; done|].
  pose proof (rstrip_length (lstrip a)) as Hr. rewrite H in Hr. lia.
Qed.

Lemma rstrip_cons_cases (c : ascii) (t : string) :
  rstrip (String c t) = "" \/ exists r, rstrip (String c t) = String c r.
Proof.
  simpl. destruct (rstrip t); [destruct (isspace c) |]; eauto.
Qed.

Lemma append_cons (c : ascii) (a t : string) :
  String c a ++ t = String c (a ++ t).
Proof. reflexivity. Qed.

Lemma rstrip_cons (c : ascii) (s : string) :
  rstrip (String c s) =
    match rstrip s with
    | "" => if isspace c then "" else String c ""
    | r => String c r
    end.
Proof. reflexivity. Qed.

Lemma append_assoc (a b c : string) : (a ++ b) ++ c = a ++ b ++ c.
Proof. induction a as [|x a IH]; [done|]. by rewrite !append_cons, IH. Qed.

Lemma append_nil_r (a : string) : a ++ "" = a.
Proof. induction a as [|x a IH]; [done|]. by rewrite append_cons, IH. Qed.

Lemma has_prefix_cons (a b : ascii) (p s : string) :
  has_prefix (String a p) (String b s) = Ascii.eqb a b && has_prefix p s.
Proof. reflexivity. Qed.

Lemma partition_cons (sep : string) (c : ascii) (s : string) :
  partition sep (String c s) =
    if has_prefix sep (String c s)
    then Some ("", drop_chars (String.length sep) (String c s))
    else match partition sep s with
         | Some (before, after) => Some (String c before, after)
         | None => None
         end.
Proof. reflexivity. Qed.

Lemma rstrip_append (a t : string) :
  a <> "" -> rstrip a = a -> rstrip (a ++ t) = a ++ rstrip t.
Proof.
  induction a as [|c a IH]; [done|]. intros _ Ha.
  destruct a as [|c' a'].
  - simpl in Ha |- *. destruct (isspace c); [done|].
    by destruct (rstrip t).
  - assert (rstrip (String c' a') = String c' a') as Ha'.
    { rewrite rstrip_cons in Ha.
      destruct (rstrip (String c' a')) eqn:E;
        [destruct (isspace c); discriminate | congruence]. }
    rewrite append_cons, rstrip_cons, (IH ltac:(done) Ha'). reflexivity.
Qed.

Lemma lstrip_append (a t : string) :
  a <> "" -> lstrip a = a -> lstrip (a ++ t) = a ++ t.
Proof.
  destruct a as [|c a]; [done|]. intros _ Ha. simpl in Ha |- *.
  destruct (isspace c) eqn:E; [|done].
  pose proof (lstrip_shorter a) as [Hs|Hs]; rewrite Ha in Hs.
  - assert (String.length (String c a) = String.length a) as Hl by (by rewrite Hs).
    simpl in Hl. lia.
  - simpl in Hs. lia.
Qed.

(** The first line of a text that starts with a complete line. *)
Lemma first_line_append (a u : string) :
  split_char LF a = [a] ->
  u = "" \/ (exists u', u = String LF u') ->
  hd "" (split_char LF (a ++ u)) = a.
Proof.
  intros Ha Hu. induction a as [|c a IH].
  - destruct Hu as [-> | [u' ->]]; reflexivity.
  - simpl in Ha |- *. destruct (Ascii.eqb c LF); [discriminate|].
    destruct (split_char LF a) as [|h t] eqn:E.
    + destruct (split_char LF (a ++ u)); simpl; destruct a; try done.
      all: simpl in E; destruct (Ascii.eqb _ LF); try discriminate;
        destruct (split_char LF _); discriminate.
    + injection Ha as -> ->. specialize (IH eq_refl).
      destruct (split_char LF (a ++ u)); simpl in *; by subst.
Qed.

(** A text is its first line followed by nothing or by a line break. *)
Lemma split_first_line (a : string) :
  exists rest,
    a = hd "" (split_char LF a) ++ rest /\
    (rest = "" \/ exists r, rest = String LF r) /\
    split_char LF (hd "" (split_char LF a)) = [hd "" (split_char LF a)].
Proof.
  induction a as [|c a (rest & Ha & Hrest & Hline)].
  - exists "". split; [reflexivity|]. split; [by left | reflexivity].
  - simpl. destruct (Ascii.eqb c LF) eqn:Hc.
    + apply Ascii.eqb_eq in Hc as ->. exists (String LF a).
      split; [reflexivity|]. split; [right; eauto | reflexivity].
    + destruct (split_char LF a) as [|h t] eqn:Hsplit; exists rest;
        simpl in *; rewrite Hc.
      * split; [by rewrite Ha at 1|]. split; [done|]. reflexivity.
      * split; [by rewrite Ha at 1|]. split; [done|]. by rewrite Hline.
Qed.

(** The leftmost marker of a text whose head does not contain it. *)
Lemma partition_marker (q r : string) :
  contains "A:" q = false ->
  partition "A:" (q ++ nl ++ "A:" ++ r) = Some (q ++ nl, r).
Proof.
  unfold contains. induction q as [|c q IH]; intros Hq; [reflexivity|].
  rewrite partition_cons in Hq.
  destruct (has_prefix "A:" (String c q)) eqn:Hp; [done|].
  assert (partition "A:" q = None) as Hn
    by (destruct (partition "A:" q) as [[??]|]; done).
  rewrite Hn in IH. specialize (IH eq_refl).
  rewrite append_cons, partition_cons, IH.
  replace (has_prefix "A:" (String c (q ++ nl ++ "A:" ++ r))) with false;
    [reflexivity|].
  rewrite has_prefix_cons in Hp |- *.
  destruct (Ascii.eqb "A" c); [|done].
  destruct q as [|c' q]; [reflexivity|].
  rewrite append_cons, has_prefix_cons.
  rewrite has_prefix_cons in Hp.
  destruct (Ascii.eqb ":" c'); [|done]. done.
Qed.

Lemma map_chars_compose (f g : ascii -> ascii) (s : string) :
  map_chars f (map_chars g s) = map_chars (fun c => f (g c)) s.
Proof. induction s as [|c s IH]; simpl; [done | by rewrite IH]. Qed.

Lemma map_chars_ext (f g : ascii -> ascii) (s : string) :
  (forall c, f c = g c) -> map_chars f s = map_chars g s.
Proof. intros H. induction s as [|c s IH]; simpl; [done | by rewrite H, IH]. Qed.

Lemma upper_lower_char (c : ascii) :
  upper_char (upper_char c) = upper_char c /\
  upper_char (lower_char c) = upper_char c /\
  lower_char (upper_char c) = lower_char c /\
  lower_char (lower_char c) = lower_char c.
Proof. destruct c as [[] [] [] [] [] [] [] []]; vm_compute; done. Qed.

(** Changing the letter case of a text changes neither its upper-cased nor
    its lower-cased form. *)
Lemma upper_of_cased (s : string) :
  upper (upper s) = upper s /\ upper (lower s) = upper s.
Proof.
  unfold upper, lower. rewrite !map_chars_compose.
  split; apply map_chars_ext; intros c; apply upper_lower_char.
Qed.

Lemma lower_of_cased (s : string) :
  lower (upper s) = lower s /\ lower (lower s) = lower s.
Proof.
  unfold upper, lower. rewrite !map_chars_compose.
  split; apply map_chars_ext; intros c; apply upper_lower_char.
Qed.

End PyStrFacts.

(** ** Context assembly *)

Module ContextFacts.
Import PyStr Rag Vocabulary PyStrFacts.

Lemma total_len_app (xs ys : list string) :
  total_len (xs ++ ys) = total_len xs + total_len ys.
Proof. induction xs as [|x xs IH]; simpl; [done | rewrite IH; lia]. Qed.

Lemma total_len_nonneg (xs : list string) : 0 <= total_len xs.
Proof.
  induction xs as [|x xs IH]; simpl; [done | pose proof (len_nonneg x); lia].
Qed.

(** The loop keeps the longest prefix of blocks each of which still fits
    when it is reached, and stops at the first one that does not. *)
Lemma build_loop_prefix (settings : Settings) (matches : list Match) :
  forall (parts : list string) (chars : Z),
  exists k : nat,
    (k <= List.length matches)%nat /\
    build_loop settings matches parts chars =
      ((parts ++ take k (blocks matches))%list,
       chars + total_len (take k (blocks matches))) /\
    (forall j, (j < k)%nat ->
       chars + total_len (take (S j) (blocks matches))
         <= max_context_chars settings) /\
    ((k < List.length matches)%nat ->
       chars + total_len (take (S k) (blocks matches))
         > max_context_chars settings).
Proof.
  induction matches as [|[score meta] rest IH]; intros parts chars.
  - exists 0%nat. simpl. rewrite app_nil_r, Z.add_0_r.
    repeat split; [lia | intros; lia | intros; lia].
  - simpl build_loop.
    destruct (chars + len (qa_block meta) >? max_context_chars settings) eqn:Hover.
    + exists 0%nat. simpl. rewrite app_nil_r, Z.add_0_r.
      repeat split; [lia | intros; lia |].
      intros _. rewrite Z.add_0_r. lia.
    + destruct (IH (parts ++ [qa_block meta])%list (chars + len (qa_block meta)))
        as (k & Hk & Hrun & Hfit & Hstop).
      exists (S k). simpl. repeat split.
      * lia.
      * rewrite Hrun. f_equal; [by rewrite <- app_assoc | lia].
      * intros j Hj. destruct j as [|j].
        -- simpl. lia.
        -- specialize (Hfit j ltac:(lia)). simpl in Hfit |- *. lia.
      * intros Hlt. specialize (Hstop ltac:(lia)). simpl in Hstop. lia.
Qed.

(** The context is the join of what the loop keeps, and the loop started
    from nothing keeps a prefix of the blocks. *)
Lemma assemble_context (settings : Settings) (matches : list Match) :
  (assemble settings matches).1.1
  = join nl (build_loop settings matches [] 0).1.
Proof.
  destruct matches as [|[best meta] rest]; [reflexivity|].
  unfold assemble. by destruct (build_loop _ _ _ _).
Qed.

Lemma assemble_prefix (settings : Settings) (matches : list Match) :
  exists k : nat,
    (k <= List.length matches)%nat /\
    (assemble settings matches).1.1 = join nl (take k (blocks matches)) /\
    (forall j, (j < k)%nat ->
       total_len (take (S j) (blocks matches)) <= max_context_chars settings) /\
    ((k < List.length matches)%nat ->
       total_len (take (S k) (blocks matches)) > max_context_chars settings).
Proof.
  destruct (build_loop_prefix settings matches [] 0) as (k & Hk & Hrun & Hfit & Hstop).
  exists k. split; [done|]. split; [by rewrite assemble_context, Hrun|].
  split; [intros j Hj; specialize (Hfit j Hj) | intros Hlt; specialize (Hstop Hlt)]; lia.
Qed.

(** C4.  Context assembly takes the blocks in the order of the ranked
    matches and keeps exactly those before the first block whose addition
    would exceed the budget: the loop, started with no part and a count of
    zero, returns the first [k] blocks and their total length, where every
    block before position [k] fitted when it was reached and block [k] (if
    any) did not; the context is the join of these [k] blocks.  No match
    from position [k] on contributes, whatever its own size. *)
Theorem context_is_greedy_prefix (settings : Settings) (matches : list Match) :
  exists k : nat,
    (k <= List.length matches)%nat /\
    build_loop settings matches [] 0
      = (take k (blocks matches), total_len (take k (blocks matches))) /\
    (assemble settings matches).1.1 = join nl (take k (blocks matches)) /\
    (forall j, (j < k)%nat ->
       total_len (take (S j) (blocks matches)) <= max_context_chars settings) /\
    ((k < List.length matches)%nat ->
       total_len (take (S k) (blocks matches)) > max_context_chars settings).
Proof.
  destruct (build_loop_prefix settings matches [] 0) as (k & Hk & Hrun & Hfit & Hstop).
  exists k. split; [done|]. split; [by rewrite Hrun|].
  split; [by rewrite assemble_context, Hrun|].
  split; [intros j Hj; specialize (Hfit j Hj) | intros Hlt; specialize (Hstop Hlt)]; lia.
Qed.

(** A block that would fit is still left out once an earlier one did not:
    with a budget of 20, the blocks of 12, 13 and 8 characters give a
    context made of the first block only. *)
Example small_block_after_overflow_is_dropped :
  map len (blocks Scenarios.small_after_large) = [12; 13; 8] /\
  (assemble Scenarios.budget_20 Scenarios.small_after_large).1.1
    = qa_block (Scenarios.faq "ab" "cd").
Proof. split; vm_compute; reflexivity. Qed.

Lemma len_join_nl (parts : list string) :
  len (join nl parts) = total_len parts + Z.max 0 (Z.of_nat (List.length parts) - 1).
Proof.
  induction parts as [|x [|y l] IH]; [reflexivity | |].
  - simpl. unfold join. simpl. lia.
  - rewrite join_cons2, !len_append, IH, len_nl. simpl total_len.
    simpl List.length. lia.
Qed.

(** What the running count does guarantee: the blocks kept sum to at most
    the budget; the separators of the join come on top. *)
Lemma context_length_bound (settings : Settings) (matches : list Match) :
  0 <= max_context_chars settings ->
  len (assemble settings matches).1.1
    <= max_context_chars settings + Z.max 0 (Z.of_nat (List.length matches) - 1).
Proof.
  intros Hb.
  destruct (assemble_prefix settings matches) as (k & Hk & -> & Hfit & _).
  assert (List.length (blocks matches) = List.length matches) as Hlen
    by (unfold blocks; apply length_map).
  rewrite len_join_nl, length_take, Hlen.
  destruct k as [|k]; [simpl; lia|].
  specialize (Hfit k ltac:(lia)). lia.
Qed.

(** If the best match alone is over the budget, the context is empty. *)
Lemma oversized_best_match_gives_empty_context (settings : Settings)
    (score : Q) (meta : gmap string string) (rest : list Match) :
  len (qa_block meta) > max_context_chars settings ->
  (assemble settings ((score, meta) :: rest)).1.1 = "".
Proof.
  intros Hbig. unfold assemble. simpl build_loop.
  replace (0 + len (qa_block meta) >? max_context_chars settings) with true;
    [reflexivity | symmetry; apply Z.gtb_lt; lia].
Qed.

(** When the best match fits, the context starts with its block, and what
    follows is nothing or starts a new line. *)
Lemma context_starts_with_best_block (settings : Settings) (score : Q)
    (meta : gmap string string) (rest : list Match) :
  len (qa_block meta) <= max_context_chars settings ->
  exists tail,
    (assemble settings ((score, meta) :: rest)).1.1 = qa_block meta ++ tail /\
    (tail = "" \/ exists t, tail = String LF t).
Proof.
  intros Hfits.
  destruct (assemble_prefix settings ((score, meta) :: rest))
    as (k & _ & -> & _ & Hstop).
  destruct k as [|k].
  - specialize (Hstop ltac:(simpl; lia)). simpl in Hstop. lia.
  - change (take (S k) (blocks ((score, meta) :: rest)))
      with (qa_block meta :: take k (blocks rest)).
    destruct (take k (blocks rest)) as [|y l].
    + exists "". split; [by rewrite append_nil_r | by left].
    + exists (nl ++ join nl (y :: l)). split; [apply join_cons2 | right; eauto].
Qed.

Lemma nonempty_context_best_block_fits (settings : Settings) (score : Q)
    (meta : gmap string string) (rest : list Match) :
  (assemble settings ((score, meta) :: rest)).1.1 <> "" ->
  len (qa_block meta) <= max_context_chars settings.
Proof.
  intros Hne.
  destruct (Z_le_gt_dec (len (qa_block meta)) (max_context_chars settings))
    as [H|H]; [done|].
  by rewrite (oversized_best_match_gives_empty_context _ _ _ _ H) in Hne.
Qed.

(** C3.  With the default budget of 1200 characters, two matches whose
    blocks are 600 characters each are both kept (the running count reaches
    exactly 1200), and the context joining them is 1201 characters long. *)
Theorem context_exceeds_budget_by_separator :
  map len (blocks Scenarios.two_full_blocks) = [600; 600] /\
  max_context_chars default_settings = 1200 /\
  len (assemble default_settings Scenarios.two_full_blocks).1.1 = 1201.
Proof. repeat split; vm_compute; reflexivity. Qed.

End ContextFacts.


(** ** The tiered answer *)

Module AnswerFacts.
Import PyStr Rag Vocabulary PyStrFacts ContextFacts.

Lemma assemble_score (settings : Settings) (matches : list Match) :
  (assemble settings matches).2 = best_score matches.
Proof.
  destruct matches as [|[s m] rest]; [reflexivity|].
  unfold assemble. destruct (build_loop _ _ _ _). reflexivity.
Qed.

Lemma assemble_flag (settings : Settings) (matches : list Match) :
  (assemble settings matches).1.2 = true <-> insufficient settings matches.
Proof.
  unfold insufficient. destruct matches as [|[s m] rest].
  - simpl. split; auto.
  - unfold assemble. destruct (build_loop _ _ _ _). simpl.
    unfold Qlt, Qcompare. destruct (_ ?= _) eqn:Hc; split; intros H;
      try done; try (by right); destruct H as [H|H]; try done.
    + unfold Qlt in H. apply Z.compare_eq_iff in Hc. lia.
    + unfold Qlt in H. apply Z.compare_gt_iff in Hc. lia.
Qed.

(** Retrieval sends nothing to the generative model. *)
Lemma retrieve_keeps_log (settings : Settings) (co : Collaborators)
    (query : string) (log : list string) :
  (retrieve settings co query log).2 = log.
Proof.
  unfold retrieve, try_except, bind, external, ret, raise.
  destruct (embed_text co query); [|reflexivity].
  destruct (query_index co _ _); reflexivity.
Qed.

Lemma build_context_run (settings : Settings) (co : Collaborators)
    (query : string) (log : list string) (matches : list Match) :
  retrieve settings co query log = (inr matches, log) ->
  build_context settings co query log = (inr (assemble settings matches), log).
Proof. intros H. unfold build_context, bind. rewrite H. reflexivity. Qed.

(** Direct extraction reads the first line of the answer of the best match
    when that entry is extractable and its block fits the budget. *)
Lemma direct_extraction_reads_top_answer (settings : Settings) (score : Q)
    (meta : gmap string string) (rest : list Match) :
  len (qa_block meta) <= max_context_chars settings ->
  extractable meta ->
  best_answer (assemble settings ((score, meta) :: rest)).1.1
  = Some (first_line (default "" (meta !! "answer"))).
Proof.
  intros Hfits (Hq & Hne & Hstrip).
  destruct (context_starts_with_best_block settings score meta rest Hfits)
    as (tail & -> & Htail).
  unfold qa_block, first_line in *.
  set (q := default "" (meta !! "question")) in *.
  set (a := default "" (meta !! "answer")) in *.
  destruct (split_first_line a) as (more & Ha & Hmore & Hline).
  set (l1 := hd "" (split_char LF a)) in *.
  assert (exists u, more ++ nl ++ tail = String LF u) as [u Hu].
  { destruct Hmore as [-> | [r ->]]; eauto. }
  replace (("Q: " ++ q ++ nl ++ "A: " ++ a ++ nl) ++ tail)
    with ("Q: " ++ (q ++ nl ++ "A:" ++ (" " ++ l1 ++ String LF u))).
  2:{ rewrite <- Hu, Ha at 1. rewrite !append_assoc. reflexivity. }
  unfold best_answer.
  assert (partition "A:" ("Q: " ++ (q ++ nl ++ "A:" ++ (" " ++ l1 ++ String LF u)))
          = Some ("Q: " ++ q ++ nl, " " ++ l1 ++ String LF u)) as ->.
  { change ("Q: " ++ ?x) with (String "Q" (String ":" (String " " x))).
    rewrite !partition_cons, (partition_marker _ _ Hq). reflexivity. }
  destruct (strip_fixed l1 Hstrip) as [Hl Hr].
  assert (strip (" " ++ l1 ++ String LF u) = l1 ++ rstrip (String LF u)) as ->.
  { unfold strip. change (lstrip (" " ++ ?x)) with (lstrip x).
    rewrite (lstrip_append _ _ Hne Hl). by apply rstrip_append. }
  f_equal. apply first_line_append; [done|].
  destruct (rstrip_cons_cases LF u) as [->|[r ->]]; eauto.
Qed.

(** C1 (as amended).  When the evidence is sufficient and the assembled
    context is not empty, the request never escalates: either a non-empty
    answer is returned with tier [faq], escalate = false and the score of
    context assembly, nothing being sent to the generative model, or the
    FAQ prompt is sent (once) and the trimmed reply is returned with tier
    [faq], escalate = false and the same score, a failed call raising
    [LLMServiceException].  With a best score of at least 0.90 and an
    extractable best entry, it is the first case, and the answer is the
    first line of the stored answer of the best match.  With a best score
    below 0.90, it is the second case. *)
Theorem sufficient_evidence_answers_from_faq
    (settings : Settings) (co : Collaborators) (query : string)
    (chat_history : list Turn) (log : list string) (matches : list Match) :
  retrieve settings co query log = (inr matches, log) ->
  ~ insufficient settings matches ->
  (assemble settings matches).1.1 <> "" ->
  let context := (assemble settings matches).1.1 in
  let score := best_score matches in
  let run := answer settings co query chat_history log in
  let prompt := faq_prompt context query chat_history in
  let generated :=
    (match generate_content co (List.length log) prompt with
     | None => inl (LLMServiceException "Failed to generate FAQ response"
                      (chat_model settings))
     | Some reply => inr (strip reply, false, score, "faq")
     end, (log ++ [prompt])%list) in
  (score_threshold settings <= score)%Q /\
  ((exists a, a <> "" /\ run = (inr (a, false, score, "faq"), log))
   \/ run = generated) /\
  ((0.90 <= score)%Q ->
   forall s meta rest, matches = (s, meta) :: rest -> extractable meta ->
     run = (inr (first_line (default "" (meta !! "answer")), false, score, "faq"),
            log)) /\
  ((score < 0.90)%Q -> run = generated).
Proof.
  intros Hret Hsuff Hctx context score run prompt generated.
  assert (score_threshold settings <= score)%Q as Hth.
  { apply Qnot_lt_le. intros H. apply Hsuff. by right. }
  assert (answer settings co query chat_history log
          = let direct :=
              if Qle_bool 0.90 score then
                match best_answer context with
                | Some a => if truthy a then Some a else None
                | None => None
                end
              else None in
            match direct with
            | Some a => (inr (a, false, score, "faq"), log)
            | None => generated
            end) as Hrun.
  { unfold answer. unfold bind at 1.
    rewrite (build_context_run _ _ _ _ _ Hret).
    pose proof (assemble_score settings matches) as Hs.
    assert ((assemble settings matches).1.2 = false) as Hf.
    { destruct ((assemble settings matches).1.2) eqn:E; [|done].
      by apply assemble_flag in E. }
    subst generated prompt context score. revert Hctx Hs Hf.
    destruct (assemble settings matches) as [[ctx flag] sc]. simpl.
    intros Hctx <- ->.
    replace (truthy ctx) with true by (by destruct ctx).
    simpl. destruct (Qle_bool 0.90 sc);
      [destruct (best_answer ctx) as [a|]; [destruct (truthy a)|] |];
      try reflexivity;
      unfold try_except, bind, ask_model, faq_prompt;
      by destruct (generate_content co _ _). }
  fold run in Hrun. split; [done|]. split; [|split].
  - rewrite Hrun. simpl. destruct (Qle_bool 0.90 score); [|by right].
    destruct (best_answer context) as [[|c a]|]; simpl; [by right | | by right].
    left. by exists (String c a).
  - intros Hhigh s meta rest -> Hmeta. rewrite Hrun.
    apply Qle_bool_iff in Hhigh. simpl. rewrite Hhigh. subst context.
    rewrite (direct_extraction_reads_top_answer settings s meta rest
               (nonempty_context_best_block_fits _ _ _ _ Hctx) Hmeta).
    destruct Hmeta as (_ & Hne & _).
    by destruct (first_line (default "" (meta !! "answer"))).
  - intros Hlow. rewrite Hrun. simpl.
    destruct (Qle_bool 0.90 score) eqn:Hq; [|done].
    apply Qle_bool_iff in Hq. by apply Qle_not_lt in Hq.
Qed.

(** The scenario of the specification: threshold 0.75, budget 1200, best
    score 0.95; the answer of the best match has two lines. *)
Lemma sufficient_evidence_answers_from_faq_witness :
  answer default_settings (Scenarios.fixed Scenarios.direct_hit None)
         "I forgot my password" [] []
  = (inr ("Use the reset link on the sign-in page.", false, 0.95%Q, "faq"), []).
Proof.
  destruct (sufficient_evidence_answers_from_faq default_settings
              (Scenarios.fixed Scenarios.direct_hit None)
              "I forgot my password" [] [] Scenarios.direct_hit eq_refl)
    as (_ & _ & Hdirect & _).
  - intros [H|H]; [discriminate H | vm_compute in H; discriminate H].
  - intros H; vm_compute in H; discriminate H.
  - apply (Hdirect ltac:(vm_compute; intros H; discriminate H) _ _ _ eq_refl).
    split; [vm_compute; reflexivity|].
    split; [vm_compute; intros H; discriminate H | vm_compute; reflexivity].
Defined.

(** C1 fails as stated: with the default settings, a best match of score
    0.95 whose block does not fit the budget leaves the context empty; the
    evidence is sufficient and the score is at least 0.90, yet the request
    is answered by the general-knowledge call and here escalated. *)
Lemma sufficient_evidence_can_escalate :
  let matches := Scenarios.oversized_top in
  let co := Scenarios.fixed matches (Some "Please escalate this to our support team.") in
  retrieve default_settings co "I forgot my password" [] = (inr matches, []) /\
  ~ insufficient default_settings matches /\
  (0.90 <= best_score matches)%Q /\
  answer default_settings co "I forgot my password" [] []
  = (inr (handoff_message, true, 0.95%Q, "escalated"),
     [general_prompt "I forgot my password" []]).
Proof.
  split; [reflexivity|]. split; [|split].
  - intros [H|H]; [discriminate H | vm_compute in H; discriminate H].
  - vm_compute. intros H; discriminate H.
  - vm_compute. reflexivity.
Qed.

(** The scan does not depend on the letter case of the reply. *)
Lemma scan_ignores_case (text : string) :
  signals_escalation (upper text) = signals_escalation text /\
  signals_escalation (lower text) = signals_escalation text.
Proof.
  unfold signals_escalation.
  destruct (upper_of_cased text) as [-> ->].
  destruct (lower_of_cased text) as [-> ->]. done.
Qed.

(** C2.  When retrieval yields insufficient evidence (no match, or a best
    score below the threshold) the request goes to the general-knowledge
    call: exactly one prompt, the general one, is sent.  If the trimmed
    reply contains the marker or the word "escalate" in any letter case,
    the result is the fixed handoff message, tier [escalated], escalate =
    true, with the score of context assembly; otherwise it is the trimmed
    reply, tier [general], escalate = false, same score.  A failed call
    raises [LLMServiceException].  The scan gives the same verdict on a
    reply and on its upper-cased or lower-cased form. *)
Theorem insufficient_evidence_takes_general_path
    (settings : Settings) (co : Collaborators) (query : string)
    (chat_history : list Turn) (log : list string) (matches : list Match) :
  retrieve settings co query log = (inr matches, log) ->
  insufficient settings matches ->
  let run := answer settings co query chat_history log in
  let prompt := general_prompt query chat_history in
  run.2 = (log ++ [prompt])%list /\
  run.1 =
    match generate_content co (List.length log) prompt with
    | None => inl (LLMServiceException "Failed to generate general response"
                     (chat_model settings))
    | Some reply =>
        if signals_escalation (strip reply)
        then inr (handoff_message, true, best_score matches, "escalated")
        else inr (strip reply, false, best_score matches, "general")
    end /\
  (forall text, signals_escalation (upper text) = signals_escalation text /\
                signals_escalation (lower text) = signals_escalation text).
Proof.
  intros Hret Hins run prompt.
  assert (run = (match generate_content co (List.length log) prompt with
                 | None => inl (LLMServiceException
                                  "Failed to generate general response"
                                  (chat_model settings))
                 | Some reply =>
                     if signals_escalation (strip reply)
                     then inr (handoff_message, true, best_score matches, "escalated")
                     else inr (strip reply, false, best_score matches, "general")
                 end, (log ++ [prompt])%list)) as ->.
  { subst run prompt. unfold answer. unfold bind at 1.
    rewrite (build_context_run _ _ _ _ _ Hret).
    pose proof (assemble_score settings matches) as Hs.
    apply assemble_flag in Hins.
    destruct (assemble settings matches) as [[context flag] score].
    simpl in Hs, Hins. subst flag score.
    rewrite andb_false_r.
    unfold get_general_answer, try_except, bind, ask_model, general_prompt.
    destruct (generate_content co _ _) as [reply|]; [|reflexivity].
    unfold signals_escalation.
    destruct (contains "ESCALATE_TO_HUMAN" (upper (strip reply))
              || contains "escalate" (lower (strip reply))); reflexivity. }
  split; [reflexivity|]. split; [reflexivity | apply scan_ignores_case].
Qed.

(** The no-match scenario of the specification: nothing is retrieved and the
    general answer is "I recommend you escalate this". *)
Lemma insufficient_evidence_takes_general_path_witness :
  (answer default_settings
     (Scenarios.fixed [] (Some "I recommend you escalate this")) "Where is my parcel?" [] []).1
  = inr (handoff_message, true, 0%Q, "escalated").
Proof.
  pose proof (insufficient_evidence_takes_general_path default_settings
    (Scenarios.fixed [] (Some "I recommend you escalate this"))
    "Where is my parcel?" [] [] [] eq_refl (or_introl eq_refl)) as [_ [H _]].
  exact H.
Defined.

End AnswerFacts.

(** ** Action suggestions *)

Module SuggestionFacts.
Import PyStr Rag Vocabulary PyStrFacts.

Lemma filter_Forall {A} (f : A -> bool) (P : A -> Prop) (l : list A) :
  (forall x, f x = true -> P x) -> Forall P (List.filter f l).
Proof.
  intros H. induction l as [|x l IH]; simpl; [constructor|].
  destruct (f x) eqn:E; [constructor; auto | done].
Qed.

Lemma kept_is_acceptable (action : string) :
  (10 <? len action) && negb (startswith filler_openers (lower action)) = true ->
  acceptable action.
Proof.
  intros H. apply andb_true_iff in H as [Hlen Hopen].
  split; [by apply Z.ltb_lt|].
  apply negb_true_iff in Hopen. unfold startswith, filler_openers in *.
  simpl in Hopen.
  repeat (apply orb_false_iff in Hopen as [? Hopen]).
  repeat constructor; done.
Qed.

Lemma fallback_is_acceptable : Forall acceptable fallback_actions.
Proof. repeat constructor; vm_compute; reflexivity. Qed.

(** C10.  Whatever the generative model does, the suggestion step returns
    a list (it never raises) of at most 5 strings, each longer than 10
    characters and none starting, in any letter case, with "here",
    "you can", "please" or "thank"; and when the suggestion-generation call
    fails the list is the fixed one of four clarifying questions. *)
Theorem suggestions_are_bounded_and_filtered
    (co : Collaborators) (query : string)
    (chat_history : list Turn) (context : string) (log : list string) :
  let run := suggest_next_actions co query chat_history context log in
  let main_topic :=
    match generate_content co (List.length log) (Prompts.topic_analysis query) with
    | Some reply => lower (strip reply)
    | None => "general support"
    end in
  let actions_prompt :=
    Prompts.action_suggestions query main_topic
      (join nl (map titled_line (last_n 5 chat_history))) context in
  exists actions,
    run.1 = inr actions /\
    (List.length actions <= 5)%nat /\
    Forall acceptable actions /\
    (generate_content co (S (List.length log)) actions_prompt = None ->
     actions = fallback_actions /\ List.length actions = 4%nat).
Proof.
  intros run main_topic actions_prompt. subst run main_topic actions_prompt.
  unfold suggest_next_actions, bind, try_except, ask_model, ret.
  assert (forall p, List.length (log ++ [p])%list = S (List.length log)) as Hlen
    by (intros p; rewrite length_app; simpl; lia).
  destruct (generate_content co (List.length log) _) as [topic|];
    rewrite Hlen;
    destruct (generate_content co (S (List.length log)) _) as [response|];
    cbn [fst snd].
  all: eexists; split; [reflexivity|].
  all: try (split; [simpl; lia | split; [apply fallback_is_acceptable | done]]).
  all: split; [rewrite length_take; lia|].
  all: split; [apply Forall_take, filter_Forall, kept_is_acceptable | done].
Qed.

End SuggestionFacts.


(** ** Sessions *)

Module SessionFacts.
Import Sessions SessionVocabulary.

(** Runs the plumbing of the unit-of-work monad. *)
Ltac tx_step :=
  unfold bind, ret, raise, get_db, put_db, now, new_uuid, select_active,
    select_active_unexpired;
  cbn beta iota delta [db clock_reads uuids_drawn].
Ltac tx_run := repeat (progress tx_step).

Lemma swept_iff (t : Z) (s : ChatSession.t) :
  swept t s = true <-> ChatSession.is_active s = true /\ expired_at s t.
Proof.
  unfold swept, expires_before, expired_at.
  rewrite andb_true_iff. destruct (ChatSession.expires_at s) as [e|].
  - rewrite Z.ltb_lt. split.
    + intros [??]. eauto.
    + intros [? (e' & [= <-] & ?)]. done.
  - split; [intros [[=] _] | intros [_ (e' & [=] & _)]].
Qed.

Lemma eligible_iff (t : Z) (s : ChatSession.t) :
  ChatSession.is_active s && expires_after s t = true <-> eligible s t.
Proof.
  unfold expires_after, eligible.
  rewrite andb_true_iff. destruct (ChatSession.expires_at s) as [e|].
  - rewrite Z.ltb_lt. split.
    + intros [??]. eauto.
    + intros [? (e' & [= <-] & ?)]. done.
  - split; [intros [_ [=]] | intros [_ (e' & [=] & _)]].
Qed.

Lemma add_message_inactive (orc : Oracles) (w : World)
    (session_id role content : string) (s : ChatSession.t) :
  chat_sessions (db w) !! session_id = Some s ->
  ChatSession.is_active s = false ->
  add_message orc session_id role content w
  = (inl (SessionException "Session not found or expired" session_id), w).
Proof.
  intros Hs Hoff. unfold add_message. tx_run. rewrite Hs, Hoff. reflexivity.
Qed.

(** C8.  On a session whose active flag is false, [add_message] raises
    [SessionException] and the world (both tables, the clock and the UUID
    generator) is as before.  On an active session, with an unused message
    id, it succeeds, and in one step inserts the message, adds one to the
    message count and sets the activity and update timestamps; nothing else
    changes. *)
Theorem add_message_all_or_nothing (orc : Oracles) (w : World)
    (session_id role content : string) (s : ChatSession.t) :
  chat_sessions (db w) !! session_id = Some s ->
  (ChatSession.is_active s = false ->
   add_message orc session_id role content w
   = (inl (SessionException "Session not found or expired" session_id), w)) /\
  (ChatSession.is_active s = true ->
   let n := clock_reads w in
   let new_id := uuid4 orc (uuids_drawn w) in
   let message := {|
     ChatMessage.session_id := session_id;
     ChatMessage.role := role;
     ChatMessage.content := content;
     ChatMessage.created_at := utcnow orc (S (S n)) |} in
   chat_messages (db w) !! new_id = None ->
   add_message orc session_id role content w
   = (inr (new_id, message),
      {| db := {|
           chat_sessions :=
             <[session_id := touched s (utcnow orc n) (utcnow orc (S n))]>
               (chat_sessions (db w));
           chat_messages := <[new_id := message]> (chat_messages (db w)) |};
         clock_reads := S (S (S n));
         uuids_drawn := S (uuids_drawn w) |})).
Proof.
  intros Hs. split.
  - by apply add_message_inactive.
  - intros Hon n new_id message Hfresh. unfold add_message. tx_run.
    rewrite Hs, Hon. tx_run. fold new_id. rewrite Hfresh. reflexivity.
Qed.

Lemma add_message_all_or_nothing_witness :
  add_message SessionScenarios.at_200 "closed" "user" "anyone?"
    SessionScenarios.three_sessions
  = (inl (SessionException "Session not found or expired" "closed"),
     SessionScenarios.three_sessions) /\
  (add_message SessionScenarios.at_200 "live" "user" "anyone?"
     SessionScenarios.three_sessions).1
  = inr ("id-0", {| ChatMessage.session_id := "live";
                    ChatMessage.role := "user";
                    ChatMessage.content := "anyone?";
                    ChatMessage.created_at := 202 |}).
Proof.
  split.
  - apply (add_message_all_or_nothing SessionScenarios.at_200
             SessionScenarios.three_sessions "closed" "user" "anyone?"
             (SessionScenarios.session (Some 100) false));
      vm_compute; reflexivity.
  - rewrite (proj2 (add_message_all_or_nothing SessionScenarios.at_200
             SessionScenarios.three_sessions "live" "user" "anyone?"
             (SessionScenarios.session (Some 900) true) eq_refl) eq_refl eq_refl).
    reflexivity.
Defined.

(** A session that has just been deactivated refuses messages. *)
Lemma deactivated_session_refuses_messages (orc : Oracles) (w : World)
    (session_id role content : string) (s : ChatSession.t) :
  chat_sessions (db w) !! session_id = Some s ->
  exists w1,
    deactivate_session orc session_id w = (inr true, w1) /\
    chat_messages (db w1) = chat_messages (db w) /\
    add_message orc session_id role content w1
    = (inl (SessionException "Session not found or expired" session_id), w1).
Proof.
  intros Hs. unfold deactivate_session. tx_run. rewrite Hs. tx_run.
  eexists. split; [reflexivity|]. split; [reflexivity|].
  eapply add_message_inactive; [apply lookup_insert_eq | reflexivity].
Qed.

#[local] Instance created_le_total : Total created_le.
Proof. intros x y. unfold created_le. lia. Qed.

(** On an active session [list_messages] returns every message of the
    session, each once, in ascending order of creation time. *)
Lemma list_messages_of_active (w : World) (session_id : string)
    (s : ChatSession.t) :
  chat_sessions (db w) !! session_id = Some s ->
  ChatSession.is_active s = true ->
  exists l,
    list_messages session_id w = (inr l, w) /\
    Sorted created_le l /\ NoDup l /\
    (forall mid m, (mid, m) ∈ l <->
       chat_messages (db w) !! mid = Some m /\
       ChatMessage.session_id m = session_id).
Proof.
  intros Hs Hon. unfold list_messages. tx_run. rewrite Hs, Hon. tx_run.
  eexists. split; [reflexivity|]. split; [|split].
  - apply Sorted_merge_sort, _.
  - rewrite merge_sort_Permutation. apply NoDup_map_to_list.
  - intros mid m. rewrite merge_sort_Permutation, elem_of_map_to_list.
    apply map_lookup_filter_Some.
Qed.

(** C6.  The session [stale] is active but its expiration (100) has passed
    at the time of the call (200), so it is not eligible; [add_message] and
    [list_messages] both succeed on it. *)
Theorem expired_session_still_served :
  let w := SessionScenarios.three_sessions in
  let s := SessionScenarios.session (Some 100) true in
  chat_sessions (db w) !! "stale" = Some s /\
  ~ eligible s (utcnow SessionScenarios.at_200 0) /\
  (add_message SessionScenarios.at_200 "stale" "user" "still there?" w).1
  = inr ("id-0", {| ChatMessage.session_id := "stale";
                    ChatMessage.role := "user";
                    ChatMessage.content := "still there?";
                    ChatMessage.created_at := 202 |}) /\
  (list_messages "stale" w).1
  = inr [("m-stale", SessionScenarios.message "stale" "hello" 20)].
Proof.
  split; [vm_compute; reflexivity|]. split; [|split].
  - intros [_ (e & [= <-] & He)]. vm_compute in He. discriminate He.
  - vm_compute. reflexivity.
  - vm_compute. reflexivity.
Qed.

Lemma resolve_hit (orc : Oracles) (w : World) (session_id : option string)
    (sid : string) (s : ChatSession.t) :
  names_eligible (db w) (utcnow orc (clock_reads w)) session_id sid s ->
  let n := clock_reads w in
  let s' := refreshed s (utcnow orc (S n)) (utcnow orc (S (S n)))
                        (utcnow orc (S (S (S n)))) in
  get_or_create_session orc session_id w
  = (inr (sid, s'),
     {| db := {| chat_sessions := <[sid := s']> (chat_sessions (db w));
                 chat_messages := chat_messages (db w) |};
        clock_reads := S (S (S (S n)));
        uuids_drawn := uuids_drawn w |}).
Proof.
  intros (-> & Hne & Hs & Hel) n s'. apply eligible_iff in Hel.
  unfold get_or_create_session.
  replace (PyStr.truthy sid) with true by (by destruct sid).
  tx_run. rewrite Hs, Hel. unfold _update_session_activity. tx_run.
  reflexivity.
Qed.

Lemma create_session_run (orc : Oracles) (w : World) :
  let n := clock_reads w in
  let new_id := uuid4 orc (uuids_drawn w) in
  let s' := {|
    ChatSession.created_at := utcnow orc (S n);
    ChatSession.updated_at := utcnow orc (S (S n));
    ChatSession.expires_at := Some (utcnow orc n + session_timeout);
    ChatSession.is_active := true;
    ChatSession.message_count := 0;
    ChatSession.last_activity := utcnow orc (S (S (S n))) |} in
  chat_sessions (db w) !! new_id = None ->
  create_session orc w
  = (inr (new_id, s'),
     {| db := {| chat_sessions := <[new_id := s']> (chat_sessions (db w));
                 chat_messages := chat_messages (db w) |};
        clock_reads := S (S (S (S n)));
        uuids_drawn := S (uuids_drawn w) |}).
Proof.
  intros n new_id s' Hfresh. unfold create_session. tx_run.
  fold new_id. rewrite Hfresh. tx_run. reflexivity.
Qed.

Lemma resolve_miss (orc : Oracles) (w : World) (session_id : option string) :
  (forall sid s,
     ~ names_eligible (db w) (utcnow orc (clock_reads w)) session_id sid s) ->
  let n := (clock_reads w + lookup_reads session_id)%nat in
  let new_id := uuid4 orc (uuids_drawn w) in
  let s' := {|
    ChatSession.created_at := utcnow orc (S n);
    ChatSession.updated_at := utcnow orc (S (S n));
    ChatSession.expires_at := Some (utcnow orc n + session_timeout);
    ChatSession.is_active := true;
    ChatSession.message_count := 0;
    ChatSession.last_activity := utcnow orc (S (S (S n))) |} in
  chat_sessions (db w) !! new_id = None ->
  get_or_create_session orc session_id w
  = (inr (new_id, s'),
     {| db := {| chat_sessions := <[new_id := s']> (chat_sessions (db w));
                 chat_messages := chat_messages (db w) |};
        clock_reads := S (S (S (S n)));
        uuids_drawn := S (uuids_drawn w) |}).
Proof.
  intros Hmiss n new_id s' Hfresh. subst n s' new_id.
  unfold get_or_create_session, lookup_reads.
  destruct session_id as [sid|];
    [destruct (PyStr.truthy sid) eqn:Ht|];
    rewrite ?Nat.add_0_r; try (by apply create_session_run).
  rewrite Nat.add_1_r. tx_run.
  destruct (chat_sessions (db w) !! sid) as [s|] eqn:Hs.
  - destruct (ChatSession.is_active s && expires_after s _) eqn:Hel.
    + exfalso. apply (Hmiss sid s).
      split; [done|]. split; [by destruct sid|]. split; [done|].
      by apply eligible_iff.
    + by apply (create_session_run orc
        {| db := db w; clock_reads := S (clock_reads w);
           uuids_drawn := uuids_drawn w |}).
  - by apply (create_session_run orc
      {| db := db w; clock_reads := S (clock_reads w);
         uuids_drawn := uuids_drawn w |}).
Qed.

(** C7 (as amended).  Given an id that names an active, unexpired session,
    [get_or_create_session] returns that id with the stored row refreshed:
    expiration = (clock reading at the refresh) + 24 h, activity and update
    timestamps set to the readings around it, everything else kept; the new
    expiration is strictly later than the old one whenever the old one is
    earlier than that reading + 24 h.  Given no id, an empty id, or an id
    that names no active unexpired session, it inserts and returns a new
    active session under the id drawn from the generator, with expiration =
    (clock reading at creation) + 24 h and no messages; this succeeds
    provided the drawn id is not in use. *)
Theorem get_or_create_session_resolves_or_creates
    (orc : Oracles) (w : World) (session_id : option string) :
  let t := utcnow orc (clock_reads w) in
  let n := clock_reads w in
  (forall sid s, names_eligible (db w) t session_id sid s ->
     let s' := refreshed s (utcnow orc (S n)) (utcnow orc (S (S n)))
                           (utcnow orc (S (S (S n)))) in
     (get_or_create_session orc session_id w).1 = inr (sid, s') /\
     chat_sessions (db (get_or_create_session orc session_id w).2) !! sid
       = Some s' /\
     ChatSession.expires_at s'
       = Some (utcnow orc (S (S n)) + session_timeout) /\
     (forall e, ChatSession.expires_at s = Some e ->
        e < utcnow orc (S (S n)) + session_timeout ->
        exists e', ChatSession.expires_at s' = Some e' /\ e < e')) /\
  ((forall sid s, ~ names_eligible (db w) t session_id sid s) ->
   let new_id := uuid4 orc (uuids_drawn w) in
   let m := (n + lookup_reads session_id)%nat in
   chat_sessions (db w) !! new_id = None ->
   exists s',
     (get_or_create_session orc session_id w).1 = inr (new_id, s') /\
     chat_sessions (db (get_or_create_session orc session_id w).2)
       = <[new_id := s']> (chat_sessions (db w)) /\
     ChatSession.expires_at s' = Some (utcnow orc m + session_timeout) /\
     ChatSession.is_active s' = true /\
     ChatSession.message_count s' = 0).
Proof.
  intros t n. split.
  - intros sid s Hhit s'. rewrite (resolve_hit orc w session_id sid s Hhit).
    cbn [fst snd db chat_sessions]. rewrite lookup_insert_eq.
    repeat split. intros e _ He. exists (utcnow orc (S (S n)) + session_timeout).
    split; [reflexivity | exact He].
  - intros Hmiss new_id m Hfresh.
    rewrite (resolve_miss orc w session_id Hmiss Hfresh).
    eexists. repeat split.
Qed.

Lemma get_or_create_session_resolves_or_creates_witness :
  (get_or_create_session SessionScenarios.at_200 (Some "live")
     SessionScenarios.three_sessions).1
  = inr ("live", refreshed (SessionScenarios.session (Some 900) true) 201 202 203) /\
  exists s',
    (get_or_create_session SessionScenarios.at_200 (Some "stale")
       SessionScenarios.three_sessions).1 = inr ("id-0", s') /\
    ChatSession.expires_at s' = Some (201 + session_timeout).
Proof.
  destruct (get_or_create_session_resolves_or_creates SessionScenarios.at_200
              SessionScenarios.three_sessions (Some "live")) as [Hhit _].
  destruct (get_or_create_session_resolves_or_creates SessionScenarios.at_200
              SessionScenarios.three_sessions (Some "stale")) as [_ Hmiss].
  split.
  - apply (Hhit "live" (SessionScenarios.session (Some 900) true)).
    split; [reflexivity|]. split; [intros H; discriminate H|].
    split; [vm_compute; reflexivity|]. split; [reflexivity|].
    exists 900. split; [reflexivity | vm_compute; reflexivity].
  - destruct Hmiss as (s' & Hrun & _ & Hexp & _).
    + intros sid s (Hid & _ & Hs & _ & e & He & Hlt).
      injection Hid as <-. vm_compute in Hs. injection Hs as <-.
      injection He as <-. vm_compute in Hlt. discriminate Hlt.
    + vm_compute. reflexivity.
    + exists s'. split; [exact Hrun | exact Hexp].
Defined.

(** With a clock that advances, a session created and then resolved gets
    a strictly later expiration. *)
Example resolve_extends_expiration :
  let orc := {| utcnow := SessionScenarios.ticking 1000;
                uuid4 := SessionScenarios.numbered |} in
  let created := get_or_create_session orc None SessionScenarios.empty_world in
  let resolved := get_or_create_session orc (Some "id-0") created.2 in
  exists s1 s2,
    created.1 = inr ("id-0", s1) /\ resolved.1 = inr ("id-0", s2) /\
    ChatSession.expires_at s1 = Some (1000 + session_timeout) /\
    ChatSession.expires_at s2 = Some (1006 + session_timeout).
Proof. vm_compute. do 2 eexists. repeat split. Qed.

(** C7 fails as stated: when the clock gives the same reading for the
    creation of a session and for its next resolution, the session is found
    (it is active and not expired) and its expiration after the call equals
    the one before: it is not strictly later. *)
Lemma same_reading_expiration_not_later :
  let orc := SessionScenarios.stuck_at_1000 in
  let created := get_or_create_session orc None SessionScenarios.empty_world in
  let resolved := get_or_create_session orc (Some "id-0") created.2 in
  exists s1 s2 e,
    created.1 = inr ("id-0", s1) /\ resolved.1 = inr ("id-0", s2) /\
    eligible s1 (utcnow orc (clock_reads created.2)) /\
    ChatSession.expires_at s1 = Some e /\
    ChatSession.expires_at s2 = Some e /\
    ~ (e < e).
Proof.
  vm_compute. do 3 eexists.
  split; [reflexivity|]. split; [reflexivity|]. split.
  - split; [reflexivity|]. eexists. split; reflexivity.
  - split; [reflexivity|]. split; [reflexivity|]. intros H; discriminate H.
Qed.

(** The ids selected by the sweep are those of the rows that are active
    and expired. *)
Lemma swept_ids (t : Z) (sessions : gmap string ChatSession.t) (sid : string) :
  sid ∈ map fst (map_to_list (filter (fun kv => swept t kv.2 = true) sessions))
  <-> exists s, sessions !! sid = Some s /\ swept t s = true.
Proof.
  rewrite list_elem_of_In, in_map_iff. split.
  - intros ([k s] & <- & Hin). exists s.
    apply list_elem_of_In, elem_of_map_to_list in Hin.
    by apply map_lookup_filter_Some in Hin.
  - intros (s & Hs & Hsw). exists (sid, s). split; [done|].
    apply list_elem_of_In, elem_of_map_to_list.
    by apply map_lookup_filter_Some.
Qed.

Lemma deleted_sessions_lookup (t : Z) (d : DB) (sid : string) :
  let ids :=
    map fst (map_to_list (filter (fun kv => swept t kv.2 = true) (chat_sessions d))) in
  chat_sessions (delete_sessions_in ids (delete_messages_in ids d)) !! sid
  = match chat_sessions d !! sid with
    | Some s => if swept t s then None else Some s
    | None => None
    end.
Proof.
  intros ids. apply option_eq. intros x. unfold delete_sessions_in, delete_messages_in.
  cbn [chat_sessions]. rewrite map_lookup_filter_Some. cbn [fst].
  unfold ids. rewrite swept_ids.
  destruct (chat_sessions d !! sid) as [s|] eqn:Hs; [|by split; [intros [??]|]].
  destruct (swept t s) eqn:Hsw.
  - split; [intros [_ Hn]; exfalso; apply Hn; eauto | discriminate].
  - split; [by intros [H _] | intros H; split; [done|]].
    intros (s0 & [= <-] & Hs0). congruence.
Qed.

Lemma deleted_messages_lookup (t : Z) (d : DB) (mid : string) :
  let ids :=
    map fst (map_to_list (filter (fun kv => swept t kv.2 = true) (chat_sessions d))) in
  chat_messages (delete_sessions_in ids (delete_messages_in ids d)) !! mid
  = match chat_messages d !! mid with
    | Some m => if owner_swept d t m then None else Some m
    | None => None
    end.
Proof.
  intros ids. apply option_eq. intros x. unfold delete_sessions_in, delete_messages_in.
  cbn [chat_messages]. rewrite map_lookup_filter_Some. cbn [snd].
  unfold ids. rewrite swept_ids.
  destruct (chat_messages d !! mid) as [m|] eqn:Hm; [|by split; [intros [??]|]].
  unfold owner_swept. split.
  - intros [[= <-] Hn].
    destruct (chat_sessions d !! ChatMessage.session_id m) as [s|] eqn:Hs; [|done].
    destruct (swept t s) eqn:Hsw; [|done]. exfalso. apply Hn. eauto.
  - intros H.
    destruct (chat_sessions d !! ChatMessage.session_id m) as [s|] eqn:Hs.
    + destruct (swept t s) eqn:Hsw; [done|]. injection H as <-.
      split; [done|]. rewrite Hs. intros (s0 & [= <-] & Hs0). congruence.
    + injection H as <-. split; [done|]. rewrite Hs. by intros (s0 & [=] & _).
Qed.

Lemma deleted_sessions_size (t : Z) (d : DB) :
  let selected := filter (fun kv => swept t kv.2 = true) (chat_sessions d) in
  let ids := map fst (map_to_list selected) in
  size (chat_sessions d)
  = (size (chat_sessions (delete_sessions_in ids (delete_messages_in ids d)))
     + List.length (map_to_list selected))%nat.
Proof.
  intros selected ids. unfold delete_sessions_in, delete_messages_in.
  cbn [chat_sessions].
  assert (filter (fun kv => kv.1 ∉ ids) (chat_sessions d)
          = filter (fun kv => ~ (swept t kv.2 = true)) (chat_sessions d)) as ->.
  { apply map_filter_ext. intros sid s Hs. cbn [fst snd]. unfold ids, selected.
    rewrite swept_ids. split.
    - intros Hn Hsw. apply Hn. eauto.
    - intros Hn (s0 & Hs0 & Hsw). rewrite Hs in Hs0. injection Hs0 as <-. done. }
  rewrite length_map_to_list.
  rewrite <- (map_filter_union_complement (fun kv => swept t kv.2 = true)
                (chat_sessions d)) at 1.
  rewrite map_size_disj_union by apply map_disjoint_filter_complement.
  unfold selected. lia.
Qed.

Lemma delete_nothing (d : DB) :
  delete_sessions_in [] (delete_messages_in [] d) = d.
Proof.
  destruct d as [ss ms]. unfold delete_sessions_in, delete_messages_in.
  cbn [chat_sessions chat_messages]. f_equal; apply map_filter_id;
    intros ? ? _; apply not_elem_of_nil.
Qed.

(** C5 (as amended).  [cleanup_expired_sessions] reads the clock once and
    removes exactly the sessions that are active and whose expiration is
    strictly before that reading, together with exactly the messages of
    those sessions; every other session (unexpired, without expiration, or
    inactive) and every other message is kept unchanged.  The messages are
    deleted first, the sessions second, so that every message has its
    session at each step.  It returns the number of sessions removed. *)
Theorem cleanup_sweeps_active_expired (orc : Oracles) (w : World) :
  let t := utcnow orc (clock_reads w) in
  let d := db w in
  let run := cleanup_expired_sessions orc w in
  let d' := db run.2 in
  let ids :=
    map fst (map_to_list (filter (fun kv => swept t kv.2 = true) (chat_sessions d))) in
  (forall s, swept t s = true <-> ChatSession.is_active s = true /\ expired_at s t) /\
  (forall sid, chat_sessions d' !! sid
     = match chat_sessions d !! sid with
       | Some s => if swept t s then None else Some s
       | None => None
       end) /\
  (forall mid, chat_messages d' !! mid
     = match chat_messages d !! mid with
       | Some m => if owner_swept d t m then None else Some m
       | None => None
       end) /\
  (exists n : nat,
     run.1 = inr (Z.of_nat n) /\
     size (chat_sessions d) = (size (chat_sessions d') + n)%nat) /\
  d' = delete_sessions_in ids (delete_messages_in ids d) /\
  (owned d -> owned (delete_messages_in ids d) /\ owned d').
Proof.
  intros t d run d' ids.
  assert (d' = delete_sessions_in ids (delete_messages_in ids d) /\
          run.1 = inr (Z.of_nat (List.length (map_to_list
                    (filter (fun kv => swept t kv.2 = true) (chat_sessions d))))))
    as [Hd' Hn].
  { subst d' run ids. unfold cleanup_expired_sessions. tx_run. fold t d.
    destruct (map_to_list (filter _ (chat_sessions d))) as [|kv l] eqn:Hl.
    - cbn [fst snd db]. by rewrite delete_nothing.
    - tx_run. cbn [fst snd db]. done. }
  split; [apply swept_iff|].
  split; [intros sid; rewrite Hd'; apply deleted_sessions_lookup|].
  split; [intros mid; rewrite Hd'; apply deleted_messages_lookup|].
  split; [eexists; split; [exact Hn | rewrite Hd'; apply deleted_sessions_size]|].
  split; [done|].
  intros Hown.
  assert (owned (delete_messages_in ids d)) as Hmid.
  { intros mid m Hm. unfold delete_messages_in in *. cbn [chat_messages chat_sessions] in *.
    apply map_lookup_filter_Some in Hm as [Hm _]. by apply (Hown mid). }
  split; [done|]. rewrite Hd'. intros mid m Hm.
  rewrite (deleted_messages_lookup t d mid : chat_messages
             (delete_sessions_in ids (delete_messages_in ids d)) !! mid = _) in Hm.
  rewrite (deleted_sessions_lookup t d (ChatMessage.session_id m) : chat_sessions
             (delete_sessions_in ids (delete_messages_in ids d)) !! _ = _).
  destruct (chat_messages d !! mid) as [m0|] eqn:Hm0; [|done].
  destruct (owner_swept d t m0) eqn:Hsw; [done|]. injection Hm as <-.
  destruct (Hown mid m0 Hm0) as [s Hs0]. unfold owner_swept in Hsw.
  rewrite Hs0 in Hsw |- *. rewrite Hsw. eauto.
Qed.

(** C5 fails as stated: at time 200 the expiration (100) of the
    deactivated session [closed] has passed, as has that of the active
    session [stale]; the sweep removes [stale] and its message, reports one
    session, and keeps [closed] and its message. *)
Lemma inactive_expired_session_survives_sweep :
  let w := SessionScenarios.three_sessions in
  let run := cleanup_expired_sessions SessionScenarios.at_200 w in
  let closed := SessionScenarios.session (Some 100) false in
  chat_sessions (db w) !! "closed" = Some closed /\
  expired_at closed (utcnow SessionScenarios.at_200 0) /\
  run.1 = inr 1 /\
  chat_sessions (db run.2) !! "stale" = None /\
  chat_messages (db run.2) !! "m-stale" = None /\
  chat_sessions (db run.2) !! "closed" = Some closed /\
  chat_messages (db run.2) !! "m-closed"
    = Some (SessionScenarios.message "closed" "bye" 30).
Proof.
  split; [vm_compute; reflexivity|].
  split; [exists 100; split; [reflexivity | vm_compute; reflexivity]|].
  repeat split; vm_compute; reflexivity.
Qed.

End SessionFacts.


(** ** Ingestion *)

Module IngestFacts.
Import Ingest IngestVocabulary.

Lemma upsert_lookup (items : list (string * Entry)) :
  forall (index : gmap string Entry) (k : string),
  upsert items index !! k
  = match last_with_key k items with
    | Some e => Some e
    | None => index !! k
    end.
Proof.
  unfold upsert. induction items as [|item rest IH]; intros index k; [done|].
  simpl. rewrite IH. destruct (last_with_key k rest); [done|].
  destruct (decide (item.1 = k)) as [<-|Hne];
    [apply lookup_insert_eq | by apply lookup_insert_ne].
Qed.

(** The items handed to the index: each item under the id of its
    question. *)
Lemma upserted_items (co : Collaborators) (items : list IngestFAQItem) :
  forall vectors : list (list Q),
  map (fun ivm : string * (list Q * gmap string string) =>
         (ivm.1, {| values := ivm.2.1; metadata := ivm.2.2 |}))
      (zip (map (faq_id co) (map question items))
           (zip vectors
                (map (fun qa : string * string =>
                        <["question" := qa.1]> (<["answer" := qa.2]> ∅))
                     (zip (map question items) (map answer items)))))
  = map (fun iv => (faq_id co (question iv.1), stored iv.1 iv.2))
        (zip items vectors).
Proof.
  induction items as [|it items IH]; intros [|v vectors]; try reflexivity.
  simpl. by rewrite IH.
Qed.

Lemma last_with_key_found (co : Collaborators) (items : list IngestFAQItem) :
  forall (vectors : list (list Q)) (i : nat) (it : IngestFAQItem) (v : list Q),
  items !! i = Some it -> vectors !! i = Some v ->
  (forall j it', (i < j)%nat -> items !! j = Some it' ->
     faq_id co (question it') <> faq_id co (question it)) ->
  last_with_key (faq_id co (question it))
    (map (fun iv => (faq_id co (question iv.1), stored iv.1 iv.2))
         (zip items vectors))
  = Some (stored it v).
Proof.
  induction items as [|x items IH]; intros [|y vectors] i it v Hi Hv Hlast;
    try done.
  destruct i as [|i]; simpl in Hi, Hv.
  - injection Hi as ->. injection Hv as ->. simpl.
    assert (last_with_key (faq_id co (question it))
              (map (fun iv => (faq_id co (question iv.1), stored iv.1 iv.2))
                   (zip items vectors)) = None) as ->.
    { clear IH. revert vectors.
      assert (forall j it', items !! j = Some it' ->
                faq_id co (question it') <> faq_id co (question it)) as Hrest
        by (intros j it' Hj; apply (Hlast (S j) it'); [lia | done]).
      clear Hlast. induction items as [|z items IH]; intros [|w vectors]; try done.
      simpl. rewrite IH by (intros j it' Hj; apply (Hrest (S j) it' Hj)).
      destruct (decide _) as [Heq|]; [|done].
      by destruct (Hrest 0%nat z eq_refl). }
    by destruct (decide _).
  - simpl. rewrite (IH vectors i it v Hi Hv); [done|].
    intros j it' Hj Hit'. apply (Hlast (S j) it'); [lia | done].
Qed.

Lemma last_with_key_absent (co : Collaborators) (k : string)
    (items : list IngestFAQItem) :
  (forall it, it ∈ items -> faq_id co (question it) <> k) ->
  forall vectors : list (list Q),
  last_with_key k
    (map (fun iv => (faq_id co (question iv.1), stored iv.1 iv.2))
         (zip items vectors))
  = None.
Proof.
  intros Hk. induction items as [|x items IH]; intros [|y vectors]; try done.
  simpl. rewrite IH by (intros it Hit; apply Hk; by right).
  destruct (decide _) as [Heq|]; [|done].
  destruct (Hk x); [by left | done].
Qed.

(** C9.  Every item of a batch is stored under [faq_id] of its question,
    a function of the question text alone (not of the answer, the position,
    the batch or the index); so items with the same question text get the
    same id.  After the batch, the entry under the id of an item is that of
    the last item of the batch carrying this id, whether or not the
    index held an entry under it before: the later answer replaces the
    earlier one and no second entry appears.  Ids that no item of the batch
    carries keep their entry. *)
Theorem ingest_overwrites_by_question
    (co : Collaborators) (index : gmap string Entry)
    (items : list IngestFAQItem) (vectors : list (list Q)) :
  items <> [] ->
  embed_texts co
    (map (fun qa : string * string => qa.1 ++ PyStr.nl ++ qa.2)
         (zip (map question items) (map answer items))) = Some vectors ->
  let run := ingest_faq co items index in
  run.1 = inr (Z.of_nat (List.length items)) /\
  run.2 = upsert (map (fun iv => (faq_id co (question iv.1), stored iv.1 iv.2))
                      (zip items vectors)) index /\
  (forall it1 it2, question it1 = question it2 ->
     faq_id co (question it1) = faq_id co (question it2)) /\
  (forall i it v, items !! i = Some it -> vectors !! i = Some v ->
     (forall j it', (i < j)%nat -> items !! j = Some it' ->
        faq_id co (question it') <> faq_id co (question it)) ->
     run.2 !! faq_id co (question it) = Some (stored it v)) /\
  (forall k, (forall it, it ∈ items -> faq_id co (question it) <> k) ->
     run.2 !! k = index !! k).
Proof.
  intros Hne Hemb run.
  assert (run = (inr (Z.of_nat (List.length items)),
                 upsert (map (fun iv => (faq_id co (question iv.1), stored iv.1 iv.2))
                             (zip items vectors)) index)) as ->.
  { subst run. unfold ingest_faq. destruct items as [|it items]; [done|].
    rewrite Hemb. unfold upsert_faqs. rewrite upserted_items.
    by rewrite !length_map. }
  cbn [fst snd]. split; [done|]. split; [done|]. split; [by intros ?? ->|]. split.
  - intros i it v Hi Hv Hlast. rewrite upsert_lookup.
    by rewrite (last_with_key_found co items vectors i it v Hi Hv Hlast).
  - intros k Hk. rewrite upsert_lookup.
    by rewrite (last_with_key_absent co k items Hk).
Qed.

(** The scenario of the specification: two items with the same question
    and different answers, in one batch; the index keeps one entry, with
    the later answer. *)
Lemma ingest_overwrites_by_question_witness :
  let run := ingest_faq plain [first_version; second_version] ∅ in
  run.1 = inr 2 /\
  run.2 !! faq_id plain (question first_version)
  = Some (stored second_version [inject_Z 67]) /\
  size run.2 = 1%nat.
Proof.
  destruct (ingest_overwrites_by_question plain ∅
              [first_version; second_version]
              [[inject_Z 40]; [inject_Z 67]])
    as (Hn & Hrun & _ & Hlast & _).
  - intros H; discriminate H.
  - vm_compute. reflexivity.
  - split; [exact Hn|]. split.
    + apply (Hlast 1%nat second_version); [reflexivity | reflexivity |].
      intros j it' Hj Hit'. destruct j as [|[|j]]; [lia | lia | discriminate Hit'].
    + vm_compute. reflexivity.
Defined.

(** The same across two batches. *)
Example reingest_in_a_later_batch :
  let first := ingest_faq plain [first_version] ∅ in
  let second := ingest_faq plain [second_version] first.2 in
  first.2 !! faq_id plain (question first_version)
  = Some (stored first_version [inject_Z 40]) /\
  second.2 !! faq_id plain (question first_version)
  = Some (stored second_version [inject_Z 67]) /\
  size second.2 = 1%nat.
Proof. repeat split; vm_compute; reflexivity. Qed.

End IngestFacts.

(** ** The pipeline as a whole *)

Module PipelineFacts.
Import PyStr Rag Vocabulary PyStrFacts ContextFacts AnswerFacts.

Lemma retrieve_cases (settings : Settings) (co : Collaborators)
    (query : string) (log : list string) :
  (exists matches, retrieve settings co query log = (inr matches, log)) \/
  retrieve settings co query log
  = (inl (VectorStoreException "Failed to retrieve context" "retrieve"), log).
Proof.
  unfold retrieve, try_except, bind, external, ret, raise.
  destruct (embed_text co query) as [emb|]; [|by right].
  destruct (query_index co emb (top_k settings)) as [matches|]; [left; eauto | by right].
Qed.

Lemma build_context_cases (settings : Settings) (co : Collaborators)
    (query : string) (log : list string) :
  (exists matches,
     retrieve settings co query log = (inr matches, log) /\
     build_context settings co query log = (inr (assemble settings matches), log)) \/
  (retrieve settings co query log
   = (inl (VectorStoreException "Failed to retrieve context" "retrieve"), log) /\
   build_context settings co query log
   = (inl (VectorStoreException "Failed to retrieve context" "retrieve"), log)).
Proof.
  destruct (retrieve_cases settings co query log) as [[matches H]|H].
  - left. exists matches. split; [done | by apply build_context_run].
  - right. split; [done|]. unfold build_context, bind. by rewrite H.
Qed.

(** The outcomes of [answer]: what it sends, what it returns, what it
    raises. *)
Lemma answer_cases (settings : Settings) (co : Collaborators) (query : string)
    (chat_history : list Turn) (log : list string) :
  let run := answer settings co query chat_history log in
  (run = (inl (VectorStoreException "Failed to retrieve context" "retrieve"), log)) \/
  (exists matches,
     retrieve settings co query log = (inr matches, log) /\
     ((exists a, run = (inr (a, false, best_score matches, "faq"), log) /\
                 ~ insufficient settings matches) \/
      (exists prompt,
         (run = (inl (LLMServiceException "Failed to generate FAQ response"
                        (chat_model settings)), (log ++ [prompt])%list) \/
          exists a, run = (inr (a, false, best_score matches, "faq"),
                           (log ++ [prompt])%list)) /\
         ~ insufficient settings matches) \/
      (exists prompt,
         run = (inl (LLMServiceException "Failed to generate general response"
                       (chat_model settings)), (log ++ [prompt])%list) \/
         (exists a, run = (inr (a, false, best_score matches, "general"),
                           (log ++ [prompt])%list)) \/
         run = (inr (handoff_message, true, best_score matches, "escalated"),
                (log ++ [prompt])%list)))).
Proof.
  intros run. remember run as r eqn:Hr. subst run. revert Hr.
  unfold answer. unfold bind at 1.
  destruct (build_context_cases settings co query log)
    as [(matches & Hret & ->)|[_ ->]]; [|by intros ->; left].
  intros Hr. right. exists matches. split; [done|]. revert Hr.
  pose proof (assemble_score settings matches) as Hs.
  pose proof (assemble_flag settings matches) as Hf.
  destruct (assemble settings matches) as [[context flag] score].
  simpl in Hs, Hf. subst score.
  destruct (truthy context && negb flag) eqn:Hguard.
  - assert (~ insufficient settings matches) as Hsuff.
    { intros H. apply Hf in H. subst flag. by rewrite andb_false_r in Hguard. }
    cbn beta iota zeta.
    destruct (Qle_bool 0.90 (best_score matches));
      [destruct (best_answer context) as [a|]; [destruct (truthy a)|]|].
    1: intros ->; left; exists a; split; [reflexivity | done].
    all: unfold try_except, bind, ask_model;
      destruct (generate_content co _ _); intros ->;
      right; left; eexists; (split; [|done]); [right; eauto | by left].
  - unfold get_general_answer, try_except, bind, ask_model.
    destruct (generate_content co _ _) as [reply|];
      [|intros ->; right; right; eexists; by left].
    destruct (contains "ESCALATE_TO_HUMAN" (upper (strip reply))
              || contains "escalate" (lower (strip reply)));
      intros ->; right; right; eexists;
      [by right; right | right; left; eauto].
Qed.

(** Whatever the collaborators do, [answer] sends at most one prompt and
    ends in one of these ways: it raises [VectorStoreException]
    (retrieval) or [LLMServiceException] (generation), or it returns a tier
    among [faq], [general] and [escalated] together with the score of the
    best retrieved match (zero without match); the escalate flag is set
    exactly for the tier [escalated], whose answer is the handoff
    message. *)
Theorem answer_outcomes (settings : Settings) (co : Collaborators)
    (query : string) (chat_history : list Turn) (log : list string) :
  let run := answer settings co query chat_history log in
  (exists sent, run.2 = (log ++ sent)%list /\ (List.length sent <= 1)%nat) /\
  match run.1 with
  | inr (a, escalate, score, tier) =>
      (exists matches,
         retrieve settings co query log = (inr matches, log) /\
         score = best_score matches) /\
      (tier = "faq" \/ tier = "general" \/ tier = "escalated") /\
      (escalate = true <-> tier = "escalated") /\
      (tier = "escalated" -> a = handoff_message)
  | inl e =>
      e = VectorStoreException "Failed to retrieve context" "retrieve" \/
      exists message, e = LLMServiceException message (chat_model settings)
  end.
Proof.
  intros run.
  destruct (answer_cases settings co query chat_history log)
    as [H | (matches & Hret & [(a & H & _) | [(p & [H | (a & H)] & _)
          | (p & [H | [(a & H) | H]])]])];
    fold run in H; rewrite H; cbn [fst snd].
  1, 2: split; [exists []; split; [by rewrite app_nil_r | simpl; lia]|].
  3-7: split; [exists [p]; split; [done | simpl; lia]|].
  1: by left.
  2, 4: right; eauto.
  all: split; [eauto|]; split; [auto|]; split; [split; intros [=] | intros [=]].
  all: done.
Qed.

Lemma last_n_app {A} (n : nat) (older recent : list A) :
  (n <= List.length recent)%nat ->
  last_n n (older ++ recent)%list = last_n n recent.
Proof.
  intros Hn. unfold last_n. rewrite length_app.
  destruct older as [|x older]; [done|].
  replace (n <? List.length (x :: older) + List.length recent)%nat with true
    by (symmetry; apply Nat.ltb_lt; simpl; lia).
  rewrite skipn_app, skipn_all2 by lia.
  replace (List.length (x :: older) + List.length recent - n
           - List.length (x :: older))%nat
    with (List.length recent - n)%nat by lia.
  destruct (n <? List.length recent)%nat eqn:E; [done|].
  apply Nat.ltb_ge in E.
  by replace (List.length recent - n)%nat with 0%nat by lia.
Qed.

(** Only the last six turns of the history reach the generative model:
    putting any older turns in front of a history of six or more turns
    changes neither the outcome of [answer] nor what it sends. *)
Theorem answer_ignores_older_turns (settings : Settings) (co : Collaborators)
    (query : string) (older recent : list Turn) (log : list string) :
  (6 <= List.length recent)%nat ->
  answer settings co query (older ++ recent)%list log
  = answer settings co query recent log.
Proof.
  intros Hlen. unfold answer. by rewrite (last_n_app 6 older recent Hlen).
Qed.

Lemma answer_ignores_older_turns_witness :
  let turn := fun who text => {| role := who; content := text |} in
  let recent := [turn "user" "a"; turn "assistant" "b"; turn "user" "c";
                 turn "assistant" "d"; turn "user" "e"; turn "assistant" "f"] in
  answer default_settings (Scenarios.fixed [] (Some "fine")) "q"
    (turn "user" "long ago" :: recent) []
  = answer default_settings (Scenarios.fixed [] (Some "fine")) "q" recent [].
Proof.
  intros turn recent.
  apply (answer_ignores_older_turns default_settings
           (Scenarios.fixed [] (Some "fine")) "q" [turn "user" "long ago"] recent []).
  simpl. lia.
Defined.

(** *** Composition of outcomes *)

Lemma outcome_ret {A} (a : A) (log : list string) (Q : A -> Prop)
    (E : exn -> Prop) :
  Q a -> outcome (ret a) log 0 Q E.
Proof. intros H. exists []. by rewrite app_nil_r. Qed.

Lemma outcome_weaken {A} (c : Run A) (log : list string) (n m : nat)
    (Q Q' : A -> Prop) (E E' : exn -> Prop) :
  outcome c log n Q E -> (n <= m)%nat ->
  (forall a, Q a -> Q' a) -> (forall e, E e -> E' e) ->
  outcome c log m Q' E'.
Proof.
  intros (sent & Hlog & Hlen & Hres) Hnm HQ HE. exists sent.
  split; [done|]. split; [lia|]. destruct ((c log).1); auto.
Qed.

Lemma outcome_bind {A B} (c : Run A) (k : A -> Run B) (log : list string)
    (n m : nat) (Q : A -> Prop) (R : B -> Prop) (E : exn -> Prop) :
  outcome c log n Q E ->
  (forall a log', Q a -> outcome (k a) log' m R E) ->
  outcome (bind c k) log (n + m) R E.
Proof.
  intros (sent & Hlog & Hlen & Hres) Hk. unfold outcome, bind.
  destruct (c log) as [[e|a] log1]; simpl in *; subst log1.
  - exists sent. split; [done|]. split; [lia | done].
  - destruct (Hk a (log ++ sent)%list Hres) as (sent' & Hlog' & Hlen' & Hres').
    exists (sent ++ sent')%list. rewrite Hlog', app_assoc, length_app.
    split; [done|]. split; [lia | done].
Qed.

Lemma outcome_answer (settings : Settings) (co : Collaborators)
    (query : string) (chat_history : list Turn) (log : list string) :
  outcome (answer settings co query chat_history) log 1
    (fun r => (answer settings co query chat_history log).1 = inr r)
    (pipeline_error settings).
Proof.
  destruct (answer_cases settings co query chat_history log)
    as [H | (matches & Hret & [(a & H & _) | [(p & [H | (a & H)] & _)
          | (p & [H | [(a & H) | H]])]])].
  1, 2: exists []; rewrite H, app_nil_r; cbn [fst snd];
    (split; [done|]); (split; [simpl; lia|]).
  3-7: exists [p]; rewrite H; cbn [fst snd];
    (split; [done|]); (split; [simpl; lia|]).
  all: try done.
  - by left.
  - right. eauto.
  - right. eauto.
Qed.

Lemma outcome_build_context (settings : Settings) (co : Collaborators)
    (query : string) (log : list string) :
  outcome (build_context settings co query) log 0 (fun _ => True)
    (pipeline_error settings).
Proof.
  exists []. rewrite app_nil_r.
  destruct (build_context_cases settings co query log)
    as [(matches & _ & ->)|[_ ->]]; cbn [fst snd];
    (split; [done|]); (split; [done|]); [done | by left].
Qed.

Lemma outcome_summarize (settings : Settings) (co : Collaborators)
    (chat_history : list Turn) (log : list string) :
  outcome (summarize_conversation settings co chat_history) log 1
    (fun _ => True) (pipeline_error settings).
Proof.
  unfold summarize_conversation. destruct chat_history as [|m h].
  - by apply outcome_weaken with (n := 0%nat) (Q := fun _ => True)
                                  (E := pipeline_error settings);
      [apply outcome_ret | lia | |].
  - unfold outcome, try_except, bind, ask_model.
    destruct (generate_content co _ _); cbn [fst snd]; eexists [_];
      (split; [reflexivity|]); (split; [simpl; lia|]); [done | right; eauto].
Qed.

Lemma outcome_suggest (settings : Settings) (co : Collaborators)
    (query : string) (chat_history : list Turn) (context : string)
    (log : list string) :
  outcome (suggest_next_actions co query chat_history context) log 2
    (fun actions => (List.length actions <= 5)%nat /\ Forall acceptable actions)
    (pipeline_error settings).
Proof.
  unfold outcome, suggest_next_actions, bind, try_except, ask_model, ret.
  destruct (generate_content co (List.length log) _) as [topic|];
    destruct (generate_content co _ _) as [response|]; cbn [fst snd];
    eexists [_; _]; rewrite <- app_assoc;
    (split; [reflexivity|]); (split; [simpl; lia|]).
  all: try (split; [simpl; lia | apply SuggestionFacts.fallback_is_acceptable]).
  all: split; [rewrite length_take; lia|];
    apply Forall_take, SuggestionFacts.filter_Forall,
      SuggestionFacts.kept_is_acceptable.
Qed.

Lemma outcome_enhanced_response (settings : Settings) (co : Collaborators)
    (query : string) (chat_history : list Turn) (include_suggestions : bool)
    (log : list string) :
  outcome
    (generate_enhanced_response settings co query chat_history include_suggestions)
    log 4
    (fun r =>
       let '(a, escalate, score, summary, suggestions, tier) := r in
       (answer settings co query chat_history log).1
         = inr (a, escalate, score, tier) /\
       (summary = None <-> (List.length chat_history < 4)%nat) /\
       (suggestions = None <-> include_suggestions = false \/ escalate = true) /\
       (forall actions, suggestions = Some actions ->
          (List.length actions <= 5)%nat /\ Forall acceptable actions))
    (pipeline_error settings).
Proof.
  unfold generate_enhanced_response.
  apply (outcome_bind _ _ log 1 3 _ _ _ (outcome_answer _ _ _ _ _)).
  intros [[[a escalate] score] tier] log1 Hanswer.
  apply (outcome_bind _ _ log1 1 2
           (fun summary : option string =>
              summary = None <-> (List.length chat_history < 4)%nat)).
  { destruct (4 <=? List.length chat_history)%nat eqn:H4.
    - apply Nat.leb_le in H4.
      apply (outcome_bind _ _ log1 1 0 _ _ _ (outcome_summarize _ _ _ _)).
      intros summary log2 _. apply outcome_ret. split; [done | lia].
    - apply Nat.leb_gt in H4.
      apply outcome_weaken with (n := 0%nat)
        (Q := fun summary : option string =>
                summary = None <-> (List.length chat_history < 4)%nat)
        (E := pipeline_error settings); [apply outcome_ret | lia | |]; done. }
  intros summary log2 Hsummary.
  apply (outcome_bind _ _ log2 2 0
           (fun suggestions : option (list string) =>
              (suggestions = None
               <-> include_suggestions = false \/ escalate = true) /\
              (forall actions, suggestions = Some actions ->
                 (List.length actions <= 5)%nat /\ Forall acceptable actions))).
  { destruct (include_suggestions && negb escalate) eqn:Hsug.
    - apply andb_true_iff in Hsug as [-> Hesc]. apply negb_true_iff in Hesc.
      subst escalate.
      apply (outcome_bind _ _ log2 0 2 _ _ _ (outcome_build_context _ _ _ _)).
      intros [[context flag] sc] log3 _.
      apply (outcome_bind _ _ log3 2 0 _ _ _
               (outcome_suggest settings _ _ _ _ _)).
      intros actions log4 Hactions. apply outcome_ret. split.
      + split; [done | by intros [|]].
      + by intros ? [= <-].
    - apply outcome_weaken with (n := 0%nat)
        (Q := fun suggestions : option (list string) =>
                (suggestions = None
                 <-> include_suggestions = false \/ escalate = true) /\
                (forall actions, suggestions = Some actions ->
                   (List.length actions <= 5)%nat /\ Forall acceptable actions))
        (E := pipeline_error settings); [apply outcome_ret | lia | |]; try done.
      split; [|done]. split; [|done]. intros _.
      apply andb_false_iff in Hsug as [->| Hesc]; [by left|].
      apply negb_false_iff in Hesc. by right. }
  intros suggestions log3 [Hsug Hacts]. by apply outcome_ret.
Qed.

(** [generate_enhanced_response] sends at most four prompts and raises
    nothing but the two pipeline exceptions.  When it returns, its answer,
    escalate flag, score and tier are those of [answer]; a summary is
    present exactly when the history has four turns or more; suggestions
    are present exactly when they were asked for and the answer did not
    escalate, and then there are at most five of them, all passing the
    filter. *)
Theorem enhanced_response_outcomes (settings : Settings) (co : Collaborators)
    (query : string) (chat_history : list Turn) (include_suggestions : bool)
    (log : list string) :
  outcome
    (generate_enhanced_response settings co query chat_history include_suggestions)
    log 4
    (fun r =>
       let '(a, escalate, score, summary, suggestions, tier) := r in
       (answer settings co query chat_history log).1
         = inr (a, escalate, score, tier) /\
       (summary = None <-> (List.length chat_history < 4)%nat) /\
       (suggestions = None <-> include_suggestions = false \/ escalate = true) /\
       (forall actions, suggestions = Some actions ->
          (List.length actions <= 5)%nat /\ Forall acceptable actions))
    (pipeline_error settings).
Proof. apply outcome_enhanced_response. Qed.

End PipelineFacts.


(** ** The life of a session *)

Module LifecycleFacts.
Import Sessions SessionVocabulary SessionFacts.

Lemma deactivate_session_run (orc : Oracles) (w : World) (session_id : string) :
  deactivate_session orc session_id w
  = match chat_sessions (db w) !! session_id with
    | Some s =>
        (inr true,
         {| db := {| chat_sessions :=
                       <[session_id := deactivated s (utcnow orc (clock_reads w))]>
                         (chat_sessions (db w));
                     chat_messages := chat_messages (db w) |};
            clock_reads := S (clock_reads w);
            uuids_drawn := uuids_drawn w |})
    | None =>
        (inr false,
         {| db := db w; clock_reads := S (clock_reads w);
            uuids_drawn := uuids_drawn w |})
    end.
Proof.
  unfold deactivate_session. tx_run.
  destruct (chat_sessions (db w) !! session_id); reflexivity.
Qed.

(** [deactivate_session] never raises.  On an id that is not in the table
    it answers false and leaves both tables as they are.  On a known id it
    answers true, whether the session was active or not; afterwards the
    session is inactive, every other column but [updated_at] is kept, no
    other session and no message is touched, and a second call answers true
    again and leaves the session inactive. *)
Theorem deactivate_session_effect (orc : Oracles) (w : World)
    (session_id : string) :
  let run := deactivate_session orc session_id w in
  let again := deactivate_session orc session_id run.2 in
  chat_messages (db run.2) = chat_messages (db w) /\
  (forall other, other <> session_id ->
     chat_sessions (db run.2) !! other = chat_sessions (db w) !! other) /\
  match chat_sessions (db w) !! session_id with
  | None => run.1 = inr false /\ db run.2 = db w
  | Some s =>
      run.1 = inr true /\
      chat_sessions (db run.2) !! session_id
        = Some (deactivated s (utcnow orc (clock_reads w))) /\
      again.1 = inr true /\
      chat_sessions (db again.2) !! session_id
        = Some (deactivated s (utcnow orc (S (clock_reads w))))
  end.
Proof.
  intros run again. subst again run. rewrite !deactivate_session_run.
  destruct (chat_sessions (db w) !! session_id) as [s|] eqn:Hs;
    cbn [fst snd db chat_sessions chat_messages clock_reads].
  - rewrite !lookup_insert_eq. cbn [fst snd db chat_sessions].
    rewrite lookup_insert_eq.
    split; [done|]. split; [intros other Hne; by rewrite lookup_insert_ne|].
    done.
  - done.
Qed.

(** A deactivated session is never given back: resolving its id creates a
    session under another id, and the deactivated row stays as it is. *)
Theorem deactivated_session_is_not_resolved (orc : Oracles) (w : World)
    (session_id : string) (s : ChatSession.t) :
  chat_sessions (db w) !! session_id = Some s ->
  ChatSession.is_active s = false ->
  chat_sessions (db w) !! uuid4 orc (uuids_drawn w) = None ->
  let run := get_or_create_session orc (Some session_id) w in
  exists new_id s',
    run.1 = inr (new_id, s') /\ new_id <> session_id /\
    ChatSession.is_active s' = true /\
    chat_sessions (db run.2) !! session_id = Some s.
Proof.
  intros Hs Hoff Hfresh run. subst run.
  rewrite (resolve_miss orc w (Some session_id)); [|  | exact Hfresh].
  - cbn [fst snd db chat_sessions]. do 2 eexists. split; [reflexivity|].
    assert (uuid4 orc (uuids_drawn w) <> session_id) as Hne by congruence.
    split; [done|]. split; [done|]. by rewrite lookup_insert_ne.
  - intros sid s0 (Hid & _ & Hs0 & Hact & _). injection Hid as <-.
    rewrite Hs in Hs0. injection Hs0 as <-. congruence.
Qed.

Lemma deactivated_session_is_not_resolved_witness :
  (get_or_create_session SessionScenarios.at_200 (Some "closed")
     SessionScenarios.three_sessions).1
  = inr ("id-0", {| ChatSession.created_at := 202;
                    ChatSession.updated_at := 203;
                    ChatSession.expires_at := Some (201 + session_timeout);
                    ChatSession.is_active := true;
                    ChatSession.message_count := 0;
                    ChatSession.last_activity := 204 |}).
Proof.
  destruct (deactivated_session_is_not_resolved SessionScenarios.at_200
              SessionScenarios.three_sessions "closed"
              (SessionScenarios.session (Some 100) false))
    as (new_id & s' & Hrun & _).
  - vm_compute. reflexivity.
  - reflexivity.
  - vm_compute. reflexivity.
  - vm_compute. reflexivity.
Defined.

Lemma add_message_active (orc : Oracles) (w : World)
    (session_id role content : string) (s : ChatSession.t) :
  chat_sessions (db w) !! session_id = Some s ->
  ChatSession.is_active s = true ->
  chat_messages (db w) !! uuid4 orc (uuids_drawn w) = None ->
  let n := clock_reads w in
  let message := {|
    ChatMessage.session_id := session_id;
    ChatMessage.role := role;
    ChatMessage.content := content;
    ChatMessage.created_at := utcnow orc (S (S n)) |} in
  add_message orc session_id role content w
  = (inr (uuid4 orc (uuids_drawn w), message),
     {| db := {|
          chat_sessions :=
            <[session_id := touched s (utcnow orc n) (utcnow orc (S n))]>
              (chat_sessions (db w));
          chat_messages :=
            <[uuid4 orc (uuids_drawn w) := message]> (chat_messages (db w)) |};
        clock_reads := S (S (S n));
        uuids_drawn := S (uuids_drawn w) |}).
Proof.
  intros Hs Hon Hfresh n message. unfold add_message. tx_run.
  rewrite Hs, Hon. tx_run. rewrite Hfresh. reflexivity.
Qed.

Lemma create_session_cases (orc : Oracles) (w : World) :
  match create_session orc w with
  | (inr (sid, s), w1) =>
      ChatSession.is_active s = true /\
      chat_sessions (db w1) = <[sid := s]> (chat_sessions (db w)) /\
      chat_messages (db w1) = chat_messages (db w) /\
      chat_sessions (db w) !! sid = None /\
      ChatSession.message_count s = 0 /\
      uuids_drawn w1 = S (uuids_drawn w)
  | (inl e, w1) => e = IntegrityError "chat_sessions" /\ db w1 = db w
  end.
Proof.
  unfold create_session. tx_run.
  destruct (chat_sessions (db w) !! uuid4 orc (uuids_drawn w)) eqn:Hid; tx_run; done.
Qed.

(** What [get_or_create_session] does to the tables, in all cases: it
    raises nothing but the primary-key violation of a colliding new id
    (then nothing is written); otherwise it returns an active session that
    is in the table under the id returned, keeps every message, and keeps
    every other session. *)
Lemma get_or_create_session_cases (orc : Oracles) (w : World)
    (session_id : option string) :
  match get_or_create_session orc session_id w with
  | (inr (sid, s), w1) =>
      ChatSession.is_active s = true /\
      chat_sessions (db w1) = <[sid := s]> (chat_sessions (db w)) /\
      chat_messages (db w1) = chat_messages (db w) /\
      match chat_sessions (db w) !! sid with
      | Some s0 => ChatSession.message_count s = ChatSession.message_count s0
      | None => ChatSession.message_count s = 0
      end
  | (inl e, w1) => e = IntegrityError "chat_sessions" /\ db w1 = db w
  end.
Proof.
  assert (forall w0 : World,
    db w0 = db w ->
    match create_session orc w0 with
    | (inr (sid, s), w1) =>
        ChatSession.is_active s = true /\
        chat_sessions (db w1) = <[sid := s]> (chat_sessions (db w)) /\
        chat_messages (db w1) = chat_messages (db w) /\
        match chat_sessions (db w) !! sid with
        | Some s0 => ChatSession.message_count s = ChatSession.message_count s0
        | None => ChatSession.message_count s = 0
        end
    | (inl e, w1) => e = IntegrityError "chat_sessions" /\ db w1 = db w
    end) as Hcreate.
  { intros w0 Hdb. pose proof (create_session_cases orc w0) as H.
    destruct (create_session orc w0) as [[e|[sid s]] w1]; rewrite <- Hdb.
    - done.
    - destruct H as (? & ? & ? & -> & ? & ?). done. }
  unfold get_or_create_session.
  destruct session_id as [sid|]; [|by apply Hcreate].
  destruct (PyStr.truthy sid); [|by apply Hcreate]. tx_run.
  destruct (chat_sessions (db w) !! sid) as [s|] eqn:Hs; [|by apply Hcreate].
  destruct (ChatSession.is_active s && expires_after s _) eqn:Hel;
    [|by apply Hcreate].
  unfold _update_session_activity. tx_run. rewrite Hs.
  apply andb_true_iff in Hel as [Hact _]. done.
Qed.

(** The chat turn relies on this: the session that
    [get_or_create_session] returns always accepts the next message, so
    that [add_message] on it raises no [SessionException]; with an unused
    message id it succeeds and stores the message under that session. *)
Theorem resolved_session_accepts_messages (orc : Oracles) (w : World)
    (session_id : option string) (role content : string) :
  match get_or_create_session orc session_id w with
  | (inr (sid, s), w1) =>
      chat_sessions (db w1) !! sid = Some s /\
      ChatSession.is_active s = true /\
      (chat_messages (db w1) !! uuid4 orc (uuids_drawn w1) = None ->
       exists message w2,
         add_message orc sid role content w1
           = (inr (uuid4 orc (uuids_drawn w1), message), w2) /\
         ChatMessage.session_id message = sid /\
         ChatMessage.role message = role /\
         ChatMessage.content message = content /\
         chat_messages (db w2) !! uuid4 orc (uuids_drawn w1) = Some message) /\
      (chat_messages (db w1) !! uuid4 orc (uuids_drawn w1) <> None ->
       add_message orc sid role content w1
         = (inl (IntegrityError "chat_messages"),
            {| db := db w1; clock_reads := S (S (S (clock_reads w1)));
               uuids_drawn := S (uuids_drawn w1) |}))
  | (inl e, w1) => e = IntegrityError "chat_sessions" /\ db w1 = db w
  end.
Proof.
  pose proof (get_or_create_session_cases orc w session_id) as H.
  destruct (get_or_create_session orc session_id w) as [[e|[sid s]] w1]; [done|].
  destruct H as (Hact & Hss & _ & _).
  assert (chat_sessions (db w1) !! sid = Some s) as Hs
    by (rewrite Hss; apply lookup_insert_eq).
  split; [done|]. split; [done|]. split.
  - intros Hfresh. do 2 eexists.
    rewrite (add_message_active orc w1 sid role content s Hs Hact Hfresh).
    split; [reflexivity|]. cbn [db chat_messages fst snd].
    by rewrite lookup_insert_eq.
  - intros Hused. unfold add_message. tx_run. rewrite Hs, Hact. tx_run.
    destruct (chat_messages (db w1) !! uuid4 orc (uuids_drawn w1)); done.
Qed.

(** *** What every call of the manager preserves *)

Lemma add_message_cases (orc : Oracles) (w : World)
    (session_id role content : string) :
  match add_message orc session_id role content w with
  | (inr (mid, m), w1) =>
      exists s t_activity t_update,
        chat_sessions (db w) !! session_id = Some s /\
        chat_messages (db w) !! mid = None /\
        ChatMessage.session_id m = session_id /\
        chat_sessions (db w1)
          = <[session_id := touched s t_activity t_update]> (chat_sessions (db w)) /\
        chat_messages (db w1) = <[mid := m]> (chat_messages (db w))
  | (inl e, w1) => db w1 = db w
  end.
Proof.
  unfold add_message. tx_run.
  destruct (chat_sessions (db w) !! session_id) as [s|] eqn:Hs; [|done].
  destruct (ChatSession.is_active s); [|done]. tx_run.
  destruct (chat_messages (db w) !! uuid4 orc (uuids_drawn w)) eqn:Hid; [done|].
  tx_run. eauto 10.
Qed.

Lemma list_messages_keeps_world (session_id : string) (w : World) :
  (list_messages session_id w).2 = w.
Proof.
  unfold list_messages. tx_run.
  destruct (chat_sessions (db w) !! session_id) as [s|]; [|done].
  by destruct (ChatSession.is_active s).
Qed.

Lemma cleanup_run (orc : Oracles) (w : World) :
  let t := utcnow orc (clock_reads w) in
  let selected := filter (fun kv => swept t kv.2 = true) (chat_sessions (db w)) in
  let ids := map fst (map_to_list selected) in
  cleanup_expired_sessions orc w
  = (inr (Z.of_nat (size selected)),
     {| db := delete_sessions_in ids (delete_messages_in ids (db w));
        clock_reads := S (clock_reads w);
        uuids_drawn := uuids_drawn w |}).
Proof.
  intros t selected ids. subst ids. rewrite <- (length_map_to_list selected).
  subst selected. unfold cleanup_expired_sessions. tx_run. fold t.
  destruct (map_to_list (filter _ (chat_sessions (db w)))) as [|kv l] eqn:Hl.
  - cbn [map List.length]. by rewrite delete_nothing.
  - tx_run. reflexivity.
Qed.

Lemma messages_of_unchanged (d d' : DB) (sid : string) :
  chat_messages d' = chat_messages d -> messages_of d' sid = messages_of d sid.
Proof. unfold messages_of. by intros ->. Qed.

Lemma no_message_without_session (d : DB) (sid : string) :
  owned d -> chat_sessions d !! sid = None -> size (messages_of d sid) = 0%nat.
Proof.
  intros Hown Hnone. apply map_size_empty_iff, map_empty. intros mid.
  apply map_lookup_filter_None. destruct (chat_messages d !! mid) as [m|] eqn:Hm;
    [right | by left].
  intros m' [= <-] Hsid. cbn [snd] in Hsid. destruct (Hown mid m Hm) as [s Hs].
  congruence.
Qed.

Lemma step_keeps_consistency (orc : Oracles) (w w' : World) :
  manager_step orc w w' ->
  owned (db w) -> counted (db w) -> owned (db w') /\ counted (db w').
Proof.
  intros Hstep Hown Hcnt. destruct Hstep as [sid0 w | sid0 role content w
    | sid0 w | sid0 w | w].
  - (* get_or_create_session *)
    pose proof (get_or_create_session_cases orc w sid0) as H.
    destruct (get_or_create_session orc sid0 w) as [[e|[sid s]] w1];
      cbn [snd]; [destruct H as [_ ->]; done|].
    destruct H as (_ & Hss & Hms & Hc). split.
    + intros mid m Hm. rewrite Hms in Hm. rewrite Hss.
      destruct (Hown mid m Hm) as [s0 Hs0].
      destruct (decide (sid = ChatMessage.session_id m)) as [<-|Hne];
        [rewrite lookup_insert_eq | rewrite lookup_insert_ne by done]; eauto.
    + intros sid' s' Hs'. rewrite (messages_of_unchanged _ _ _ Hms).
      rewrite Hss in Hs'.
      destruct (decide (sid = sid')) as [<-|Hne].
      * rewrite lookup_insert_eq in Hs'. injection Hs' as <-.
        destruct (chat_sessions (db w) !! sid) as [s0|] eqn:Hs0.
        -- rewrite Hc. by apply Hcnt.
        -- rewrite Hc. by rewrite no_message_without_session.
      * rewrite lookup_insert_ne in Hs' by done. by apply Hcnt.
  - (* add_message *)
    pose proof (add_message_cases orc w sid0 role content) as H.
    destruct (add_message orc sid0 role content w) as [[e|[mid m]] w1];
      cbn [snd]; [by rewrite H|].
    destruct H as (s & ta & tu & Hs & Hfresh & Hsid & Hss & Hms). split.
    + intros mid' m' Hm'. rewrite Hms in Hm'. rewrite Hss.
      destruct (decide (mid = mid')) as [<-|Hne].
      * rewrite lookup_insert_eq in Hm'. injection Hm' as <-.
        rewrite Hsid, lookup_insert_eq. eauto.
      * rewrite lookup_insert_ne in Hm' by done.
        destruct (Hown mid' m' Hm') as [s0 Hs0].
        destruct (decide (sid0 = ChatMessage.session_id m')) as [<-|Hne'];
          [rewrite lookup_insert_eq | rewrite lookup_insert_ne by done]; eauto.
    + intros sid' s' Hs'. rewrite Hss in Hs'. unfold messages_of. rewrite Hms.
      destruct (decide (sid0 = sid')) as [<-|Hne].
      * rewrite lookup_insert_eq in Hs'. injection Hs' as <-.
        rewrite map_filter_insert_True by done.
        rewrite map_size_insert_None
          by (apply map_lookup_filter_None; by left).
        cbn [touched ChatSession.message_count].
        rewrite (Hcnt sid0 s Hs). unfold messages_of. lia.
      * rewrite lookup_insert_ne in Hs' by done.
        rewrite map_filter_insert_not'; [by apply Hcnt | cbn [snd]; congruence |].
        intros y Hy. congruence.
  - (* list_messages *)
    by rewrite list_messages_keeps_world.
  - (* deactivate_session *)
    rewrite deactivate_session_run.
    destruct (chat_sessions (db w) !! sid0) as [s|] eqn:Hs; cbn [snd db]; [|done].
    split.
    + intros mid m Hm. cbn [chat_messages chat_sessions] in *.
      destruct (Hown mid m Hm) as [s0 Hs0].
      destruct (decide (sid0 = ChatMessage.session_id m)) as [<-|Hne];
        [rewrite lookup_insert_eq | rewrite lookup_insert_ne by done]; eauto.
    + intros sid' s' Hs'. cbn [chat_sessions] in Hs'.
      change (messages_of _ sid') with (messages_of (db w) sid').
      destruct (decide (sid0 = sid')) as [<-|Hne].
      * rewrite lookup_insert_eq in Hs'. injection Hs' as <-.
        exact (Hcnt sid0 s Hs).
      * rewrite lookup_insert_ne in Hs' by done. by apply Hcnt.
  - (* cleanup_expired_sessions *)
    rewrite cleanup_run. cbn [snd db].
    set (t := utcnow orc (clock_reads w)).
    set (ids := map fst (map_to_list
                  (filter (fun kv => swept t kv.2 = true) (chat_sessions (db w))))).
    split.
    + intros mid m Hm.
      rewrite (deleted_messages_lookup t (db w) mid : chat_messages
                 (delete_sessions_in ids (delete_messages_in ids (db w))) !! mid = _)
        in Hm.
      rewrite (deleted_sessions_lookup t (db w) (ChatMessage.session_id m)
                 : chat_sessions
                     (delete_sessions_in ids (delete_messages_in ids (db w))) !! _ = _).
      destruct (chat_messages (db w) !! mid) as [m0|] eqn:Hm0; [|done].
      destruct (owner_swept (db w) t m0) eqn:Hsw; [done|]. injection Hm as <-.
      destruct (Hown mid m0 Hm0) as [s Hs0]. unfold owner_swept in Hsw.
      rewrite Hs0 in Hsw |- *. rewrite Hsw. eauto.
    + intros sid s Hs.
      rewrite (deleted_sessions_lookup t (db w) sid : chat_sessions
                 (delete_sessions_in ids (delete_messages_in ids (db w))) !! _ = _)
        in Hs.
      destruct (chat_sessions (db w) !! sid) as [s0|] eqn:Hs0; [|done].
      destruct (swept t s0) eqn:Hsw; [done|]. injection Hs as <-.
      rewrite (Hcnt sid s0 Hs0). do 2 f_equal.
      unfold messages_of, delete_sessions_in, delete_messages_in.
      cbn [chat_messages]. symmetry. apply map_filter_filter_l.
      intros mid m _ Hsid. cbn [snd] in *. subst sid.
      intros Hin. apply swept_ids in Hin as (s1 & Hs1 & Hsw1). congruence.
Qed.

(** Every call of the session manager, returning or raising, keeps these
    two facts about the tables: each message belongs to a session of the
    table, and the message counter of each session is the number of its
    messages.  They hold of an empty database, hence of every database the
    manager alone has built. *)
Theorem manager_keeps_tables_consistent (orc : Oracles) :
  (forall w w', manager_step orc w w' ->
     owned (db w) -> counted (db w) -> owned (db w') /\ counted (db w')) /\
  (forall w, reachable orc w -> owned (db w) /\ counted (db w)).
Proof.
  split; [intros w w'; apply step_keeps_consistency|].
  intros w Hreach. induction Hreach as [reads draws | w w' _ [Hown Hcnt] Hstep].
  - split; [intros mid m Hm | intros sid s Hs]; cbn [db chat_messages chat_sessions] in *;
      by rewrite lookup_empty in *.
  - by apply (step_keeps_consistency orc w w').
Qed.

Lemma swept_monotone (t t' : Z) (s : ChatSession.t) :
  t' <= t -> swept t' s = true -> swept t s = true.
Proof.
  unfold swept, expires_before. intros Hle.
  destruct (ChatSession.expires_at s) as [e|]; [|done].
  rewrite !andb_true_iff, !Z.ltb_lt. intros [??]. split; [lia | done].
Qed.

(** After a sweep that read the clock at [t], no session that is active
    and expired at [t] is left; and a further sweep whose clock reading is
    not later than [t] removes nothing and reports zero. *)
Theorem sweep_is_complete_and_stable (orc : Oracles) (w : World) :
  let t := utcnow orc (clock_reads w) in
  let w1 := (cleanup_expired_sessions orc w).2 in
  (forall sid s, chat_sessions (db w1) !! sid = Some s ->
     ~ (ChatSession.is_active s = true /\ expired_at s t)) /\
  (utcnow orc (clock_reads w1) <= t ->
   cleanup_expired_sessions orc w1
   = (inr 0, {| db := db w1; clock_reads := S (clock_reads w1);
                uuids_drawn := uuids_drawn w1 |})).
Proof.
  intros t w1.
  assert (forall sid s, chat_sessions (db w1) !! sid = Some s -> swept t s = false)
    as Hleft.
  { intros sid s. subst w1. rewrite cleanup_run. cbn [snd db]. fold t.
    rewrite (deleted_sessions_lookup t (db w) sid : chat_sessions
               (delete_sessions_in _ (delete_messages_in _ (db w))) !! _ = _).
    destruct (chat_sessions (db w) !! sid) as [s0|]; [|done].
    destruct (swept t s0) eqn:Hsw; [done|]. by intros [= <-]. }
  split.
  - intros sid s Hs Hexp. apply swept_iff in Hexp.
    by rewrite (Hleft sid s Hs) in Hexp.
  - intros Hle. rewrite cleanup_run.
    assert (filter (fun kv : string * ChatSession.t =>
                      swept (utcnow orc (clock_reads w1)) kv.2 = true)
                   (chat_sessions (db w1)) = ∅) as ->.
    { apply map_empty. intros sid. apply map_lookup_filter_None.
      destruct (chat_sessions (db w1) !! sid) as [s|] eqn:Hs; [right | by left].
      intros s' [= <-] Hsw. cbn [snd] in Hsw.
      apply (swept_monotone t) in Hsw; [|done].
      by rewrite (Hleft sid s Hs) in Hsw. }
    rewrite map_to_list_empty, map_size_empty. cbn [map]. by rewrite delete_nothing.
Qed.

Lemma list_messages_of_active_witness :
  list_messages "live" SessionScenarios.three_sessions
  = (inr [("m-live", SessionScenarios.message "live" "hi" 40)],
     SessionScenarios.three_sessions).
Proof.
  destruct (list_messages_of_active SessionScenarios.three_sessions "live"
              (SessionScenarios.session (Some 900) true))
    as (l & Hrun & _ & _ & _).
  - vm_compute. reflexivity.
  - reflexivity.
  - vm_compute. reflexivity.
Defined.

End LifecycleFacts.


(** ** Ingestion, again *)

Module IngestMoreFacts.
Import Ingest IngestVocabulary IngestFacts.

Lemma upsert_twice (items : list (string * Entry)) (index : gmap string Entry) :
  upsert items (upsert items index) = upsert items index.
Proof.
  apply map_eq. intros k. rewrite !upsert_lookup.
  by destruct (last_with_key k items).
Qed.

(** Ingesting a batch a second time changes nothing: the same response,
    the same index (the embedding of a text being the same both times). *)
Theorem ingest_twice_is_ingest_once (co : Collaborators)
    (index : gmap string Entry) (items : list IngestFAQItem) :
  let once := ingest_faq co items index in
  ingest_faq co items once.2 = once.
Proof.
  intros once. subst once. unfold ingest_faq.
  destruct items as [|it items]; [done|].
  destruct (embed_texts co _) as [vectors|] eqn:Hemb; cbn [snd]; rewrite ?Hemb;
    [|done].
  unfold upsert_faqs. by rewrite upsert_twice.
Qed.

Lemma upsert_dom (items : list (string * Entry)) :
  forall index : gmap string Entry,
  dom (upsert items index) = dom index ∪ list_to_set (map fst items).
Proof.
  unfold upsert. induction items as [|item rest IH]; intros index; simpl.
  - by rewrite (right_id_L ∅ (∪)).
  - rewrite IH, dom_insert_L.
    by rewrite (comm_L (∪) {[item.1]} (dom index)), (assoc_L (∪)).
Qed.

Lemma upsert_size (items : list (string * Entry)) :
  forall index : gmap string Entry,
  (size (upsert items index) <= size index + List.length items)%nat.
Proof.
  unfold upsert. induction items as [|item rest IH]; intros index; simpl; [lia|].
  specialize (IH (<[item.1 := item.2]> index)).
  destruct (index !! item.1) as [e|] eqn:Hk.
  - rewrite map_size_insert_Some in IH by eauto. lia.
  - rewrite map_size_insert_None in IH by done. lia.
Qed.

Lemma zipped_ids (co : Collaborators) (items : list IngestFAQItem) :
  forall vectors : list (list Q),
  map fst (map (fun iv => (faq_id co (question iv.1), stored iv.1 iv.2))
               (zip items vectors))
  = map (fun it => faq_id co (question it)) (take (List.length vectors) items).
Proof.
  induction items as [|it items IH]; intros [|v vectors]; try reflexivity.
  simpl. by rewrite IH.
Qed.

(** The response counts the items of the request, not the entries
    written.  What is written is one entry per distinct id among the items
    that got a vector: if the embedding model returns fewer vectors than
    texts, the items beyond them are left out without an error; and items
    sharing an id, or an id already in the index, add no entry. *)
Theorem ingest_counts_items_not_entries (co : Collaborators)
    (index : gmap string Entry) (items : list IngestFAQItem)
    (vectors : list (list Q)) :
  items <> [] ->
  embed_texts co
    (map (fun qa : string * string => qa.1 ++ PyStr.nl ++ qa.2)
         (zip (map question items) (map answer items))) = Some vectors ->
  let run := ingest_faq co items index in
  run.1 = inr (Z.of_nat (List.length items)) /\
  dom run.2
  = dom index ∪
    list_to_set (map (fun it => faq_id co (question it))
                     (take (List.length vectors) items)) /\
  (size run.2 <= size index + Nat.min (List.length items) (List.length vectors))%nat.
Proof.
  intros Hne Hemb run. subst run. unfold ingest_faq.
  destruct items as [|it items]; [done|]. rewrite Hemb. cbn [fst snd].
  unfold upsert_faqs. rewrite upserted_items, !length_map.
  split; [done|]. split.
  - by rewrite upsert_dom, zipped_ids.
  - etransitivity; [apply upsert_size|].
    rewrite length_map, length_zip. lia.
Qed.

Lemma ingest_counts_items_not_entries_witness :
  let run := ingest_faq plain [first_version; second_version] ∅ in
  run.1 = inr 2 /\ (size run.2 <= 2)%nat /\
  dom run.2 = {[faq_id plain (question first_version)]}.
Proof.
  destruct (ingest_counts_items_not_entries plain ∅
              [first_version; second_version]
              [[inject_Z 40]; [inject_Z 67]])
    as (Hn & Hdom & Hsize).
  - intros H; discriminate H.
  - vm_compute. reflexivity.
  - split; [exact Hn|]. split; [exact Hsize|].
    rewrite Hdom. cbn [List.length take map]. set_solver.
Defined.

End IngestMoreFacts.


(** ** The chat endpoints *)

Module ApiFacts.
#[local] Set Warnings "-notation-overridden".
Import PyStr Sessions SessionVocabulary Vocabulary Api ApiVocabulary SessionFacts.

Ltac api_step :=
  unfold Api.bind, Api.ret, tx, rag;
  cbn beta iota delta [world prompts fst snd].
Ltac api_run := repeat (progress api_step).

Lemma add_message_on_active (orc : Oracles) (w : World)
    (session_id role content : string) (s : ChatSession.t) :
  chat_sessions (db w) !! session_id = Some s ->
  ChatSession.is_active s = true ->
  match add_message orc session_id role content w with
  | (inr (mid, m), w1) =>
      chat_messages (db w) !! mid = None /\
      ChatMessage.session_id m = session_id /\
      ChatMessage.role m = role /\
      ChatMessage.content m = content /\
      (exists t_activity t_update,
         chat_sessions (db w1)
         = <[session_id := touched s t_activity t_update]> (chat_sessions (db w))) /\
      chat_messages (db w1) = <[mid := m]> (chat_messages (db w))
  | (inl e, w1) => e = IntegrityError "chat_messages" /\ db w1 = db w
  end.
Proof.
  intros Hs Hon. unfold add_message. tx_run. rewrite Hs, Hon.
  tx_run.
  destruct (chat_messages (db w) !! uuid4 orc (uuids_drawn w)) eqn:Hid; [done|].
  tx_run. repeat (split; [done|]). split; [|done]. eauto.
Qed.

Lemma list_messages_run (w : World) (session_id : string) (s : ChatSession.t) :
  chat_sessions (db w) !! session_id = Some s ->
  ChatSession.is_active s = true ->
  list_messages session_id w
  = (inr (merge_sort created_le
            (map_to_list (messages_of (db w) session_id))), w).
Proof.
  intros Hs Hon. unfold list_messages. tx_run. by rewrite Hs, Hon.
Qed.

Lemma stored_turn (d : DB) (sid mid : string) (m : ChatMessage.t) :
  chat_messages d !! mid = Some m ->
  ChatMessage.session_id m = sid ->
  ChatMessage.role m = "user" \/ ChatMessage.role m = "assistant" ->
  In {| Rag.role := ChatMessage.role m; Rag.content := ChatMessage.content m |}
     (history_of (merge_sort created_le (map_to_list (messages_of d sid)))).
Proof.
  intros Hm Hsid Hrole. unfold history_of.
  apply (in_map (fun km : string * ChatMessage.t =>
                   {| Rag.role := ChatMessage.role km.2;
                      Rag.content := ChatMessage.content km.2 |}) _ (mid, m)).
  apply filter_In. split.
  - apply list_elem_of_In. rewrite merge_sort_Permutation.
    apply elem_of_map_to_list. unfold messages_of.
    by apply map_lookup_filter_Some.
  - cbn [snd]. by destruct Hrole as [-> | ->].
Qed.

Lemma history_roles (stored : list (string * ChatMessage.t)) :
  Forall (fun t => Rag.role t = "user" \/ Rag.role t = "assistant")
         (history_of stored).
Proof.
  unfold history_of. apply Forall_forall. intros t Ht.
  apply list_elem_of_In, in_map_iff in Ht as (km & <- & Hkm).
  apply filter_In in Hkm as [_ Hrole]. cbn [Rag.role].
  apply orb_true_iff in Hrole as [H | H]; apply String.eqb_eq in H; auto.
Qed.









Lemma first_user_content_skips (skipped : list Rag.Turn) (turn : Rag.Turn)
    (rest : list Rag.Turn) :
  Forall (fun t => Rag.role t <> "user") skipped ->
  Rag.role turn = "user" ->
  first_user_content (skipped ++ turn :: rest) = Some (Rag.content turn).
Proof.
  intros Hskipped Hturn. induction Hskipped as [|t l Ht _ IH]; simpl.
  - by rewrite Hturn.
  - apply String.eqb_neq in Ht. by rewrite Ht.
Qed.

Lemma first_user_content_none (turns : list Rag.Turn) :
  Forall (fun t => Rag.role t <> "user") turns ->
  first_user_content turns = None.
Proof.
  induction 1 as [|t l Ht _ IH]; simpl; [done|].
  apply String.eqb_neq in Ht. by rewrite Ht.
Qed.

(** The query that [suggest_actions] hands to the pipeline is never empty.
    It is the query of the request when that is given and not empty;
    otherwise the content of the last user turn of the history, or the
    stock question when that content is empty or no user turn exists. *)
Theorem latest_user_message_selection (query : option string)
    (chat_history : list Rag.Turn) :
  let latest := latest_user_message query chat_history in
  truthy latest = true /\
  (given query = true -> query = Some latest) /\
  (given query = false ->
     (forall older turn newer,
        chat_history = (older ++ turn :: newer)%list ->
        Rag.role turn = "user" ->
        Forall (fun t => Rag.role t <> "user") newer ->
        latest = if truthy (Rag.content turn) then Rag.content turn
                 else default_query) /\
     (Forall (fun t => Rag.role t <> "user") chat_history ->
      latest = default_query)).
Proof.
  intros latest. subst latest. unfold latest_user_message. split; [|split].
  - destruct (negb (given query) && _);
      [destruct (first_user_content _) as [text|]|];
      try (destruct query as [text|]); try destruct (truthy text) eqn:H; done.
  - destruct query as [q|]; [|done]. cbn [given]. intros Hq.
    rewrite Hq. cbn [negb andb]. by rewrite Hq.
  - intros Hq. rewrite Hq. cbn [negb andb]. split.
    + intros older turn newer -> Hrole Hnewer.
      rewrite rev_app_distr. simpl rev. rewrite <- app_assoc. simpl app.
      rewrite first_user_content_skips; [|by apply Forall_rev|done].
      by destruct older.
    + intros Hnone.
      rewrite first_user_content_none by by apply Forall_rev.
      destruct chat_history; destruct query as [q|]; try done;
        cbn [given] in Hq; cbn [negb]; by rewrite Hq.
Qed.

Section Endpoints.
Variable settings : Rag.Settings.
Variable co : Rag.Collaborators.
Variable orc : Oracles.
Variable format_score : Q -> string.

Lemma chat_turn_cases (req : ChatRequest.t) (st : Server) :
  match chat_turn settings co orc format_score req st with
  | (inr resp, st') =>
      exists sid s1 s3 user_id user_msg reply_id reply_msg h
             a esc score summary sugg tier,
        match chat_sessions (db (world st)) !! sid with
        | Some s0 => ChatSession.message_count s1 = ChatSession.message_count s0
        | None => ChatSession.message_count s1 = 0
        end /\
        chat_sessions (db (world st'))
          = <[sid := s3]> (chat_sessions (db (world st))) /\
        ChatSession.is_active s3 = true /\
        ChatSession.message_count s3 = ChatSession.message_count s1 + 2 /\
        chat_messages (db (world st)) !! user_id = None /\
        chat_messages (db (world st)) !! reply_id = None /\
        user_id <> reply_id /\
        user_msg.(ChatMessage.session_id) = sid /\
        user_msg.(ChatMessage.role) = "user" /\
        user_msg.(ChatMessage.content) = ChatRequest.message req /\
        reply_msg.(ChatMessage.session_id) = sid /\
        reply_msg.(ChatMessage.role) = "assistant" /\
        reply_msg.(ChatMessage.content) = a /\
        chat_messages (db (world st'))
          = <[reply_id := reply_msg]>
              (<[user_id := user_msg]> (chat_messages (db (world st)))) /\
        In {| Rag.role := "user"; Rag.content := ChatRequest.message req |} h /\
        Forall (fun t => Rag.role t = "user" \/ Rag.role t = "assistant") h /\
        Rag.generate_enhanced_response settings co (ChatRequest.message req) h
          (ChatRequest.include_suggestions req) (prompts st)
          = (inr (a, esc, score, summary, sugg, tier), prompts st') /\
        resp = {|
          ChatResponse.session_id := sid;
          ChatResponse.response := a;
          ChatResponse.escalated := esc;
          ChatResponse.escalation_reason :=
            if esc
            then Some ("Low similarity score: " ++ format_score score ++
                       ". Escalating to human agent.")
            else None;
          ChatResponse.conversation_summary :=
            if ChatRequest.include_summary req && given summary
            then summary else None;
          ChatResponse.next_actions := sugg;
          ChatResponse.response_type := tier;
          ChatResponse.confidence_score := Some score |}
  | (inl e, st') => chat_error settings e
  end.
Proof.
  unfold chat_turn. api_run.
  pose proof (LifecycleFacts.get_or_create_session_cases orc (world st)
                (ChatRequest.session_id req)) as H1.
  destruct (get_or_create_session orc (ChatRequest.session_id req) (world st))
    as [[e|[sid s1]] w1]; api_run.
  { left. tauto. }
  destruct H1 as (Hact1 & Hss1 & Hms1 & Hcnt1).
  assert (chat_sessions (db w1) !! sid = Some s1) as Hs1
    by (rewrite Hss1; apply lookup_insert_eq).
  pose proof (add_message_on_active orc w1 sid "user" (ChatRequest.message req)
                s1 Hs1 Hact1) as H2.
  destruct (add_message orc sid "user" (ChatRequest.message req) w1)
    as [[e|[user_id user_msg]] w2]; api_run.
  { right. left. tauto. }
  destruct H2 as (Hfresh2 & Hsid2 & Hrole2 & Hcontent2 & (t1 & t2 & Hss2) & Hms2).
  assert (chat_sessions (db w2) !! sid = Some (touched s1 t1 t2)) as Hs2
    by (rewrite Hss2; apply lookup_insert_eq).
  rewrite (list_messages_run w2 sid _ Hs2 Hact1). api_run.
  set (h := history_of _).
  destruct (Rag.generate_enhanced_response settings co (ChatRequest.message req) h
              (ChatRequest.include_suggestions req) (prompts st))
    as [[e|[[[[[a esc] score] summary] sugg] tier]] log'] eqn:Hrag; api_run.
  { right. right.
    destruct (PipelineFacts.outcome_enhanced_response settings co
                (ChatRequest.message req) h (ChatRequest.include_suggestions req)
                (prompts st)) as (_ & _ & _ & He).
    by rewrite Hrag in He. }
  pose proof (add_message_on_active orc w2 sid "assistant" a _ Hs2 Hact1) as H3.
  destruct (add_message orc sid "assistant" a w2)
    as [[e|[reply_id reply_msg]] w3]; api_run.
  { right. left. tauto. }
  destruct H3 as (Hfresh3 & Hsid3 & Hrole3 & Hcontent3 & (t3 & t4 & Hss3) & Hms3).
  exists sid, s1, (touched (touched s1 t1 t2) t3 t4), user_id, user_msg,
    reply_id, reply_msg, h, a, esc, score, summary, sugg, tier.
  rewrite Hms2, Hms1 in Hfresh3.
  split; [exact Hcnt1|].
  split; [by rewrite Hss3, Hss2, Hss1, !insert_insert_eq|].
  split; [exact Hact1|].
  split; [cbn; lia|].
  split; [by rewrite <- Hms1|].
  split; [by apply lookup_insert_None in Hfresh3 as [? _]|].
  split; [by apply lookup_insert_None in Hfresh3 as [_ ?]|].
  do 6 (split; [done|]).
  split; [by rewrite Hms3, Hms2, Hms1|].
  split.
  { subst h. rewrite <- Hrole2, <- Hcontent2.
    apply (stored_turn (db w2) sid user_id user_msg); [|done|by left].
    rewrite Hms2. apply lookup_insert_eq. }
  split; [apply history_roles|]. split; [done|]. reflexivity.
Qed.


(** What the response of [chat] carries.  The pipeline is handed a history
    of user and assistant turns that already contains the message being
    answered; answer, escalation flag, tier and confidence score are those
    of [answer] on that history.  The escalation reason is present exactly
    when the response escalates, and quotes the formatted score.
    Suggestions are absent exactly when they were not asked for or the
    response escalates, and when present they are at most five and pass
    the filter.  A summary is absent when it was not asked for, and while
    the history has fewer than four turns. *)
Theorem chat_response_follows_pipeline (req : ChatRequest.t) (st : Server) :
  match (chat settings co orc format_score req st).1 with
  | inr resp =>
      exists h score,
        In {| Rag.role := "user"; Rag.content := ChatRequest.message req |} h /\
        Forall (fun t => Rag.role t = "user" \/ Rag.role t = "assistant") h /\
        (Rag.answer settings co (ChatRequest.message req) h (prompts st)).1
          = inr (ChatResponse.response resp, ChatResponse.escalated resp, score,
                 ChatResponse.response_type resp) /\
        ChatResponse.confidence_score resp = Some score /\
        ChatResponse.escalation_reason resp
          = (if ChatResponse.escalated resp
             then Some ("Low similarity score: " ++ format_score score ++
                        ". Escalating to human agent.")
             else None) /\
        (ChatResponse.next_actions resp = None <->
           ChatRequest.include_suggestions req = false \/
           ChatResponse.escalated resp = true) /\
        (forall actions, ChatResponse.next_actions resp = Some actions ->
           (List.length actions <= 5)%nat /\ Forall acceptable actions) /\
        (ChatRequest.include_summary req = false \/ (List.length h < 4)%nat ->
           ChatResponse.conversation_summary resp = None)
  | inl _ => True
  end.
Proof.
  unfold chat. pose proof (chat_turn_cases req st) as H.
  destruct (chat_turn settings co orc format_score req st) as [[e|resp] st'];
    cbn [fst snd]; [done|].
  destruct H as (sid & s1 & s3 & user_id & user_msg & reply_id & reply_msg & h &
                 a & esc & score & summary & sugg & tier &
                 _ & _ & _ & _ & _ & _ & _ & _ & _ & _ & _ & _ & _ & _ &
                 Hin & Hroles & Hrag & ->).
  cbn [ChatResponse.response ChatResponse.escalated ChatResponse.response_type
       ChatResponse.confidence_score ChatResponse.escalation_reason
       ChatResponse.next_actions ChatResponse.conversation_summary].
  destruct (PipelineFacts.outcome_enhanced_response settings co
              (ChatRequest.message req) h (ChatRequest.include_suggestions req)
              (prompts st)) as (_ & _ & _ & Hres).
  rewrite Hrag in Hres. cbn [fst] in Hres.
  destruct Hres as (Hanswer & Hsummary & Hsugg & Hactions).
  exists h, score. do 7 (split; [done|]).
  intros [-> | Hshort]; [done|].
  apply Hsummary in Hshort as ->. by rewrite andb_false_r.
Qed.





End Endpoints.

(** A first turn answered from the knowledge base: the session and both
    messages are committed. *)
Example first_turn_is_committed :
  let run := chat Rag.default_settings
               (Scenarios.fixed Scenarios.direct_hit
                  (Some "Check the sign-in page for the reset link first."))
               SessionScenarios.at_200 ApiScenarios.two_digits
               ApiScenarios.first_request ApiScenarios.fresh_server in
  (exists resp, run.1 = inr resp /\
     ChatResponse.session_id resp = "id-0" /\
     ChatResponse.response resp = "Use the reset link on the sign-in page." /\
     ChatResponse.response_type resp = "faq") /\
  size (chat_sessions (db (world run.2))) = 1%nat /\
  size (chat_messages (db (world run.2))) = 2%nat.
Proof. vm_compute. split; [eexists; split; [reflexivity|]|]; done. Qed.

(** The same turn with the embedding model down: [chat_turn] has stored
    the session and the user's message when the retrieval raises, and
    [chat] leaves neither behind. *)
Example failed_turn_leaves_no_trace :
  let collaborators := ApiScenarios.embedding_down in
  let turn := chat_turn Rag.default_settings collaborators
                SessionScenarios.at_200 ApiScenarios.two_digits
                ApiScenarios.first_request ApiScenarios.fresh_server in
  let run := chat Rag.default_settings collaborators
               SessionScenarios.at_200 ApiScenarios.two_digits
               ApiScenarios.first_request ApiScenarios.fresh_server in
  run.1 = inl (VectorStoreException "Failed to retrieve context" "retrieve") /\
  size (chat_messages (db (world turn.2))) = 1%nat /\
  db (world run.2) = db SessionScenarios.empty_world.
Proof. vm_compute. done. Qed.

End ApiFacts.


(** ** Errors on the way out *)

Module MiddlewareFacts.
Import Exceptions Middleware.

(** The status codes of [to_http_exception]: 400 exactly for a session
    error, 422 exactly for a validation error, 503 exactly for the errors
    of the three external services, and 500 for every other error code,
    known to the table or not. *)
Theorem to_http_exception_statuses (exception : CustomerBotException) :
  let status := (to_http_exception exception).1 in
  (status = 400 <-> error_code exception = "SESSION_ERROR") /\
  (status = 422 <-> error_code exception = "VALIDATION_ERROR") /\
  (status = 503 <->
     In (error_code exception)
        ["LLM_SERVICE_ERROR"; "VECTOR_STORE_ERROR"; "EMBEDDING_ERROR"]) /\
  (status = 400 \/ status = 422 \/ status = 500 \/ status = 503).
Proof.
  intros status. subst status. unfold to_http_exception. cbn [fst].
  destruct (status_code_mapping !! error_code exception) as [code|] eqn:Hcode.
  - apply elem_of_list_to_map_2 in Hcode.
    cbn [default]. set (k := error_code exception) in *.
    repeat (apply elem_of_cons in Hcode as [[= -> ->] | Hcode]);
      [..|by apply elem_of_nil in Hcode].
    all: simpl; intuition (try discriminate; try lia).
  - cbn [default].
    split; [|split; [|split]]; try (right; right; left; reflexivity).
    all: split; [discriminate|].
    all: simpl; intros H; exfalso.
    all: repeat (destruct H as [H|H]; [rewrite <- H in Hcode; vm_compute in Hcode; discriminate|]); try done.
    all: rewrite H in Hcode; vm_compute in Hcode; discriminate.
Qed.

#[local] Set Warnings "-notation-overridden".
Import Sessions SessionVocabulary Vocabulary Api ApiVocabulary.

Section Served.
Variable settings : Rag.Settings.
Variable co : Rag.Collaborators.
Variable orc : Oracles.
Variable format_score : Q -> string.

(** A chat turn behind the middleware.  A response of the handler is
    passed on as it is.  A failed turn is answered with 503 under the
    error code of the vector store or of the generative model, or with
    the anonymous 500 response, never with 400; and it leaves the tables
    as they were. *)
Theorem failed_chat_turn_is_answered (req : ChatRequest.t) (st : Server) :
  let run := dispatch (chat settings co orc format_score req) st in
  match run.1 with
  | Passed resp => (chat settings co orc format_score req st).1 = inr resp
  | Replaced r =>
      db (world run.2) = db (world st) /\
      ((status_code r = 503 /\
        In (error (content r)) ["VECTOR_STORE_ERROR"; "LLM_SERVICE_ERROR"]) \/
       r = {| status_code := 500;
              content := {|
                error := "INTERNAL_SERVER_ERROR";
                body_message :=
                  "An unexpected error occurred. Please try again later.";
                body_details := None |} |})
  end.
Proof.
  intros run. subst run. unfold dispatch, chat.
  pose proof (ApiFacts.chat_turn_cases settings co orc format_score req st) as H.
  destruct (chat_turn settings co orc format_score req st) as [[e|resp] st'];
    cbn [fst snd]; [|done].
  destruct H as [-> | [-> | [-> | (message & ->)]]]; cbn; split; try done;
    auto.
Qed.



End Served.

End MiddlewareFacts.


(** ** Request metrics *)

Module MetricsFacts.
Import PyStr Metrics MetricsVocabulary.

Section Recorded.
Context {float : Type} `{Float float}.

Lemma recorded_snoc (requests : list (RequestMetrics.t float))
    (r : RequestMetrics.t float) (self : MetricsCollector float) :
  recorded (requests ++ [r]) self = record_request r (recorded requests self).
Proof. unfold recorded. by rewrite fold_left_app. Qed.

Lemma number_snoc (requests : list (RequestMetrics.t float))
    (r : RequestMetrics.t float) :
  number (requests ++ [r]) = number requests + 1.
Proof. unfold number. rewrite length_app. simpl. lia. Qed.

Lemma filter_snoc {A} (f : A -> bool) (l : list A) (x : A) :
  List.filter f (l ++ [x]) = (List.filter f l ++ if f x then [x] else [])%list.
Proof. rewrite List.filter_app. simpl. by destruct (f x). Qed.

(** The counters of an endpoint count its requests.  After any sequence of
    requests recorded by a new collector, an endpoint has an entry exactly
    when a request to it was recorded; its [count] is their number, its
    [success_count] the number of those with a status from 200 to 399,
    and [count] is [success_count] plus [error_count];
    [get_endpoint_metrics] reports exactly the endpoints with an entry,
    with that count. *)
Theorem endpoint_counters_count_requests (max_history : nat)
    (requests : list (RequestMetrics.t float)) (key : string) :
  let collector := recorded requests (init max_history) in
  let mine := requests_to key requests in
  match endpoint_metrics collector !! key with
  | None => mine = [] /\ get_endpoint_metrics collector !! key = None
  | Some entry =>
      mine <> [] /\
      EndpointMetrics.count entry = number mine /\
      EndpointMetrics.success_count entry
        = number (List.filter
                    (fun r => succeeded (RequestMetrics.status_code r)) mine) /\
      EndpointMetrics.count entry
        = EndpointMetrics.success_count entry + EndpointMetrics.error_count entry /\
      exists stats,
        get_endpoint_metrics collector !! key = Some stats /\
        EndpointStats.total_requests stats = number mine
  end.
Proof.
  intros collector mine. subst collector mine.
  assert (forall key,
    match endpoint_metrics (recorded requests (init max_history)) !! key with
    | None => requests_to key requests = []
    | Some entry =>
        requests_to key requests <> [] /\
        EndpointMetrics.count entry = number (requests_to key requests) /\
        EndpointMetrics.success_count entry
          = number (List.filter
                      (fun r => succeeded (RequestMetrics.status_code r))
                      (requests_to key requests)) /\
        EndpointMetrics.count entry
          = EndpointMetrics.success_count entry + EndpointMetrics.error_count entry
    end) as Hinv.
  { clear key. induction requests as [|r requests IH] using rev_ind; intros key.
    - unfold recorded, init. cbn [fold_left endpoint_metrics].
      by rewrite lookup_empty.
    - rewrite recorded_snoc. unfold record_request at 1.
      cbn [endpoint_metrics]. fold (endpoint_key r).
      unfold requests_to. rewrite filter_snoc. fold (requests_to key requests).
      destruct (String.eqb_spec (endpoint_key r) key) as [<- | Hne].
      + rewrite lookup_insert_eq. specialize (IH (endpoint_key r)).
        cbn [EndpointMetrics.count EndpointMetrics.success_count
             EndpointMetrics.error_count].
        rewrite filter_snoc, !number_snoc.
        split; [by destruct (requests_to _ _)|].
        destruct (endpoint_metrics _ !! endpoint_key r) as [entry|];
          cbn [default new_endpoint_entry EndpointMetrics.count
               EndpointMetrics.success_count EndpointMetrics.error_count].
        * destruct IH as (_ & Hc & Hs & He). unfold id.
          destruct (succeeded _); rewrite ?number_snoc, ?app_nil_r; lia.
        * rewrite IH. cbn [List.filter app]. unfold number.
          destruct (succeeded _); cbn [List.length]; lia.
      + rewrite lookup_insert_ne by done. rewrite app_nil_r. apply IH. }
  specialize (Hinv key). unfold get_endpoint_metrics.
  rewrite lookup_fmap.
  destruct (endpoint_metrics _ !! key) as [entry|] eqn:Hentry.
  - destruct Hinv as (Hne & Hcount & Hsucc & Hsum).
    do 4 (split; [done|]).
    rewrite (map_lookup_filter_Some_2 _ _ key entry); [|done|].
    + eexists. split; [reflexivity|]. done.
    + cbn [snd]. rewrite Hcount. unfold number.
      destruct (requests_to key requests); [done | simpl; lia].
  - split; [done|].
    by rewrite map_lookup_filter_None_2 by (left; done).
Qed.

Lemma last_n_snoc {A} (n : nat) (l : list A) (x : A) :
  last_n n (last_n n l ++ [x]) = last_n n (l ++ [x]).
Proof.
  unfold last_n.
  destruct (Nat.ltb_spec n (List.length l)) as [Hlt | Hge]; [|done].
  rewrite !length_app, length_skipn. simpl List.length.
  destruct (Nat.ltb_spec n (List.length l - (List.length l - n) + 1)); [|lia].
  destruct (Nat.ltb_spec n (List.length l + 1)); [|lia].
  rewrite !skipn_app, length_skipn, skipn_skipn.
  replace (List.length l - (List.length l - n) + 1 - n
           + (List.length l - n))%nat with (List.length l + 1 - n)%nat by lia.
  f_equal. f_equal. lia.
Qed.

Lemma last_n_length {A} (n : nat) (l : list A) :
  (List.length (last_n n l) <= n)%nat.
Proof.
  unfold last_n. destruct (Nat.ltb_spec n (List.length l)); [|done].
  rewrite length_skipn. lia.
Qed.

Lemma last_n_keeps_last {A} (n : nat) (l : list A) (x : A) :
  (0 < n)%nat -> In x (last_n n (l ++ [x])).
Proof.
  intros Hn. unfold last_n. rewrite length_app. simpl List.length.
  destruct (Nat.ltb_spec n (List.length l + 1)); [|by apply in_or_app; right; left].
  rewrite skipn_app. apply in_or_app. right.
  replace (List.length l + 1 - n - List.length l)%nat with 0%nat by lia.
  by left.
Qed.

(** The history of a new collector holds the latest [max_history]
    requests recorded, in the order of recording. *)
Theorem history_keeps_latest_requests (max_history : nat)
    (requests : list (RequestMetrics.t float)) :
  let collector := recorded requests (init max_history) in
  Metrics.max_history collector = max_history /\
  request_history collector = last_n max_history requests /\
  (List.length (request_history collector) <= max_history)%nat.
Proof.
  intros collector. subst collector.
  assert (Metrics.max_history (recorded requests (init max_history)) = max_history
          /\ request_history (recorded requests (init max_history))
              = last_n max_history requests) as [Hmax Hhist].
  { induction requests as [|r requests [IHmax IH]] using rev_ind.
    - split; [done|]. by destruct max_history.
    - rewrite recorded_snoc. unfold record_request.
      cbn [Metrics.max_history request_history]. split; [done|].
      unfold deque_append. by rewrite IHmax, IH, last_n_snoc. }
  split; [done|]. split; [done|]. rewrite Hhist. apply last_n_length.
Qed.

(** The counters of a session count its requests.  A session has an entry
    exactly when its id is not empty and a request carrying it was
    recorded; [request_count] is their number, [escalations] the number
    of the escalated ones, and [confidence_scores] their scores in the
    order of recording, requests without a score left out.
    [get_session_metrics] answers [None] for a session without entry. *)
Theorem session_counters_count_requests (max_history : nat)
    (requests : list (RequestMetrics.t float)) (sid : string) :
  let collector := recorded requests (init max_history) in
  let mine := requests_of sid requests in
  match session_metrics collector !! sid with
  | None =>
      (sid = "" \/ mine = []) /\ get_session_metrics sid collector = None
  | Some entry =>
      sid <> "" /\ mine <> [] /\
      SessionMetrics.request_count entry = number mine /\
      SessionMetrics.escalations entry
        = number (List.filter RequestMetrics.escalated mine) /\
      SessionMetrics.confidence_scores entry
        = omap RequestMetrics.confidence_score mine
  end.
Proof.
  intros collector mine. subst collector mine.
  assert (
    match session_metrics (recorded requests (init max_history)) !! sid with
    | None => sid = "" \/ requests_of sid requests = []
    | Some entry =>
        sid <> "" /\ requests_of sid requests <> [] /\
        SessionMetrics.request_count entry = number (requests_of sid requests) /\
        SessionMetrics.escalations entry
          = number (List.filter RequestMetrics.escalated
                      (requests_of sid requests)) /\
        SessionMetrics.confidence_scores entry
          = omap RequestMetrics.confidence_score (requests_of sid requests)
    end) as Hinv.
  { induction requests as [|r requests IH] using rev_ind.
    - unfold recorded, init. cbn [fold_left session_metrics].
      rewrite lookup_empty. auto.
    - rewrite recorded_snoc. unfold record_request at 1.
      cbn [session_metrics]. unfold requests_of. rewrite filter_snoc.
      fold (requests_of sid requests).
      destruct (RequestMetrics.session_id r) as [s|] eqn:Hsid;
        [destruct (truthy s) eqn:Htruthy|].
      + destruct (String.eqb_spec s sid) as [-> | Hne].
        * rewrite lookup_insert_eq.
          cbn [SessionMetrics.request_count SessionMetrics.escalations
               SessionMetrics.confidence_scores].
          rewrite filter_snoc, omap_app, !number_snoc.
          split; [intros ->; discriminate Htruthy|].
          split. { intros Happ. apply app_eq_nil in Happ as [_ Hr]. discriminate Hr. }
          destruct (session_metrics _ !! sid) as [entry|];
            cbn [default new_session_entry SessionMetrics.request_count
                 SessionMetrics.escalations SessionMetrics.confidence_scores].
          -- destruct IH as (_ & _ & Hc & He & Hs). unfold id.
             rewrite Hc, He, Hs. split; [done|]. split.
             ++ destruct (RequestMetrics.escalated r);
                  rewrite ?number_snoc, ?app_nil_r; done.
             ++ destruct (RequestMetrics.confidence_score r) eqn:Hscore; simpl;
                  rewrite ?Hscore, ?app_nil_r; done.
          -- destruct IH as [-> | Hnone]; [done|]. rewrite Hnone.
             cbn [List.filter app omap]. unfold number. split; [done|]. split.
             ++ by destruct (RequestMetrics.escalated r).
             ++ destruct (RequestMetrics.confidence_score r) eqn:Hscore; simpl;
                  rewrite ?Hscore; done.
        * rewrite lookup_insert_ne by done. rewrite app_nil_r. apply IH.
      + destruct s; [|done].
        destruct (String.eqb_spec "" sid) as [<- | Hne].
        * destruct (session_metrics _ !! "") as [entry|]; [by destruct IH|].
          by left.
        * rewrite app_nil_r. apply IH.
      + rewrite app_nil_r. apply IH. }
  unfold get_session_metrics.
  by destruct (session_metrics _ !! sid).
Qed.

Lemma newer_than_float_time (cutoff : Z)
    (history : list (RequestMetrics.t float)) (r : RequestMetrics.t float) :
  In r history -> has_float_time r -> newer_than cutoff history = None.
Proof.
  intros Hin [t Ht]. induction history as [|r0 history IH]; [done|].
  simpl. destruct Hin as [-> | Hin].
  - by rewrite Ht.
  - destruct (RequestMetrics.timestamp r0); [|done]. by rewrite IH.
Qed.

Lemma newer_than_datetimes (cutoff : Z) (history : list (RequestMetrics.t float)) :
  Forall has_datetime history ->
  exists kept,
    newer_than cutoff history = Some kept /\
    Forall has_datetime kept /\
    (List.length kept <= List.length history)%nat.
Proof.
  induction 1 as [|r history [t Ht] _ (kept & IH & Hkept & Hlen)]; simpl.
  - by exists [].
  - rewrite Ht, IH. eexists. split; [reflexivity|].
    destruct (cutoff <? t)%Z; simpl.
    + split; [constructor; [by exists t | done] | lia].
    + split; [done | lia].
Qed.

(** The request that [chat] records carries the float of [time.time()]
    as its timestamp.  Once it is in the history, [get_system_metrics]
    and [cleanup_old_metrics] raise: both compare every timestamp of the
    history with a [datetime]. *)
Theorem metrics_fail_after_chat_request (self : MetricsCollector float)
    (response_time now score : float) (session_id response_type : string)
    (escalated : bool) (utcnow : nat -> Z) (reading max_age_hours : Z) :
  (0 < Metrics.max_history self)%nat ->
  let collector :=
    record_request
      (chat_request response_time now session_id score response_type escalated)
      self in
  get_system_metrics utcnow collector = None /\
  cleanup_old_metrics reading max_age_hours collector = None.
Proof.
  intros Hmax collector.
  set (r := chat_request response_time now session_id score response_type
              escalated) in *.
  assert (In r (request_history collector)) as Hin
    by (by apply last_n_keeps_last).
  assert (has_float_time r) as Hfloat by by exists now.
  split.
  - unfold get_system_metrics.
    destruct (request_history collector) as [|oldest rest] eqn:Hhist; [done|].
    by rewrite (newer_than_float_time _ _ r Hin Hfloat).
  - unfold cleanup_old_metrics.
    by rewrite (newer_than_float_time _ _ r Hin Hfloat).
Qed.

(** When every timestamp of the history is a [datetime],
    [get_system_metrics] returns.  The successful and the failed requests
    add up to the total, which is at most the length of the history, and
    at least one when the history is not empty: with no request in the
    last hour, the whole history is reported. *)
Theorem system_metrics_of_datetimes (self : MetricsCollector float)
    (utcnow : nat -> Z) :
  Forall has_datetime (request_history self) ->
  exists m,
    get_system_metrics utcnow self = Some m /\
    SystemMetrics.total_requests m
      = SystemMetrics.successful_requests m + SystemMetrics.failed_requests m /\
    0 <= SystemMetrics.successful_requests m <= SystemMetrics.total_requests m /\
    SystemMetrics.total_requests m <= number (request_history self) /\
    (request_history self <> [] -> 1 <= SystemMetrics.total_requests m) /\
    SystemMetrics.active_sessions m = Z.of_nat (size (session_metrics self)).
Proof.
  intros Hall. unfold get_system_metrics.
  destruct (request_history self) as [|oldest rest] eqn:Hhist.
  - eexists. split; [reflexivity|]. cbn. unfold number. simpl. repeat split; lia || done.
  - destruct (newer_than_datetimes (utcnow 0%nat - hour) _ Hall)
      as (kept & -> & Hkept & Hlen).
    set (recent := match kept with [] => oldest :: rest | _ => kept end).
    assert (Forall has_datetime recent) as Hrecent by (subst recent; by destruct kept).
    assert (List.length recent <= List.length (oldest :: rest))%nat as Hbound
      by (subst recent; by destruct kept).
    assert (recent <> []) as Hne by (subst recent; by destruct kept).
    assert (has_datetime (hd oldest recent)) as [t_first Hfirst].
    { destruct recent as [|r0 recent0]; [done|]. by inversion Hrecent. }
    assert (has_datetime (List.last recent oldest)) as [t_last Hlast].
    { eapply Forall_forall; [exact Hrecent|].
      apply list_elem_of_In.
      destruct (exists_last Hne) as (l & x & ->). rewrite last_last.
      apply in_or_app. right. by left. }
    unfold rate_per_minute. rewrite Hfirst, Hlast.
    eexists. split; [reflexivity|].
    cbn [SystemMetrics.total_requests SystemMetrics.successful_requests
         SystemMetrics.failed_requests SystemMetrics.active_sessions].
    pose proof (List.filter_length_le
                  (fun r => succeeded (RequestMetrics.status_code r)) recent).
    unfold number. destruct recent; [done|]. simpl List.length in *.
    repeat split; lia.
Qed.

End Recorded.

Import MetricsScenarios.

Lemma metrics_fail_after_chat_request_witness :
  get_system_metrics (fun _ => 7200000000)
    (record_request after_chat (init 1000)) = None.
Proof.
  apply (metrics_fail_after_chat_request (init 1000) 0.2%Q 1700000000%Q 0.95%Q
           "id-0" "faq" false (fun _ => 7200000000) 0 24).
  simpl. lia.
Defined.

Lemma system_metrics_of_datetimes_witness :
  exists m,
    get_system_metrics (fun _ => 7200000000)
      (recorded [stamped 200 10; stamped 500 20]
                (init 1000)) = Some m /\
    SystemMetrics.total_requests m = 2 /\
    SystemMetrics.successful_requests m = 1.
Proof.
  destruct (system_metrics_of_datetimes
              (recorded [stamped 200 10;
                         stamped 500 20] (init 1000))
              (fun _ => 7200000000)) as (m & Hm & _).
  - vm_compute. repeat constructor; eexists; reflexivity.
  - exists m. split; [exact Hm|].
    vm_compute in Hm. injection Hm as <-. split; reflexivity.
Defined.

End MetricsFacts.


(** ** Sessions without expiration *)

Module UnboundedSessionFacts.
Import Sessions SessionVocabulary SessionFacts.

(** A session whose [expires_at] is NULL (the column is nullable, and the
    startup migration adds it without a value to the rows of an older
    database) is left alone by the manager: [get_or_create_session] never
    hands it out again but answers its id with a new session, or raises on
    a colliding new id, and [cleanup_expired_sessions] removes neither the
    session nor any of its messages, at whatever time it runs. *)
Theorem session_without_expiration_is_left_alone (orc : Oracles) (w : World)
    (sid : string) (s : ChatSession.t) :
  chat_sessions (db w) !! sid = Some s ->
  ChatSession.expires_at s = None ->
  match get_or_create_session orc (Some sid) w with
  | (inr (sid', _), w1) =>
      sid' <> sid /\ chat_sessions (db w1) !! sid = Some s
  | (inl e, w1) => e = IntegrityError "chat_sessions" /\ db w1 = db w
  end /\
  let after_sweep := (cleanup_expired_sessions orc w).2 in
  chat_sessions (db after_sweep) !! sid = Some s /\
  messages_of (db after_sweep) sid = messages_of (db w) sid.
Proof.
  intros Hs Hnull. split.
  - assert (forall w0 : World,
      db w0 = db w ->
      match create_session orc w0 with
      | (inr (sid', _), w1) =>
          sid' <> sid /\ chat_sessions (db w1) !! sid = Some s
      | (inl e, w1) => e = IntegrityError "chat_sessions" /\ db w1 = db w
      end) as Hcreate.
    { intros w0 Hdb. pose proof (LifecycleFacts.create_session_cases orc w0) as H.
      destruct (create_session orc w0) as [[e|[sid' s']] w1].
      - by rewrite <- Hdb.
      - destruct H as (_ & Hss & _ & Hfresh & _). rewrite Hdb in Hss, Hfresh.
        assert (sid' <> sid) as Hne by (intros ->; congruence).
        split; [done|]. by rewrite Hss, lookup_insert_ne. }
    unfold get_or_create_session.
    destruct (PyStr.truthy sid); [|by apply Hcreate]. tx_run. rewrite Hs.
    unfold expires_after. rewrite Hnull, andb_false_r. by apply Hcreate.
  - intros after_sweep. subst after_sweep. rewrite LifecycleFacts.cleanup_run.
    cbn [snd db].
    set (t := utcnow orc (clock_reads w)).
    assert (swept t s = false) as Hkept
      by (unfold swept, expires_before; by rewrite Hnull).
    split.
    + by rewrite deleted_sessions_lookup, Hs, Hkept.
    + apply map_eq. intros mid. apply option_eq. intros m. unfold messages_of.
      rewrite !map_lookup_filter_Some, deleted_messages_lookup. cbn [snd].
      assert (ChatMessage.session_id m = sid -> owner_swept (db w) t m = false)
        as Howner by (intros Hm; unfold owner_swept; by rewrite Hm, Hs).
      destruct (chat_messages (db w) !! mid) as [m0|]; [|by split; intros [? ?]].
      split.
      * intros [Hm0 Hm]. destruct (owner_swept (db w) t m0); [done|].
        by injection Hm0 as ->.
      * intros [[= ->] Hm]. by rewrite Howner.
Qed.

Lemma session_without_expiration_is_left_alone_witness :
  chat_sessions
    (db (cleanup_expired_sessions SessionScenarios.at_200
           MigrationScenarios.migrated).2) !! "old"
  = Some (SessionScenarios.session None true).
Proof.
  apply (session_without_expiration_is_left_alone SessionScenarios.at_200
           MigrationScenarios.migrated "old" (SessionScenarios.session None true));
    reflexivity.
Defined.

End UnboundedSessionFacts.


(** ** The dataset loader *)

Module LoaderFacts.
Import PyStr Ingest HFDatasetLoader PyStrFacts.

Lemma lstrip_idempotent (s : string) : lstrip (lstrip s) = lstrip s.
Proof.
  induction s as [|c s IH]; [done|]. simpl.
  destruct (isspace c) eqn:Hc; [done|]. simpl. by rewrite Hc.
Qed.

Lemma rstrip_idempotent (s : string) : rstrip (rstrip s) = rstrip s.
Proof.
  induction s as [|c s IH]; [done|]. simpl.
  destruct (rstrip s) as [|d r] eqn:Hr.
  - destruct (isspace c) eqn:Hc; [done|]. simpl. by rewrite Hc.
  - rewrite rstrip_cons, IH. done.
Qed.

Lemma lstrip_of_rstrip (s : string) :
  lstrip s = s -> lstrip (rstrip s) = rstrip s.
Proof.
  destruct s as [|c s]; [done|]. intros Hl.
  assert (isspace c = false) as Hc.
  { simpl in Hl. destruct (isspace c); [|done].
    assert (String.length (lstrip s) <= String.length s)%nat as Hlen
      by (destruct (lstrip_shorter s) as [-> | ?]; lia).
    rewrite Hl in Hlen. simpl in Hlen. lia. }
  destruct (rstrip_cons_cases c s) as [H0 | [r Hr]].
  - by rewrite H0.
  - rewrite Hr. simpl. by rewrite Hc.
Qed.

Lemma strip_idempotent (s : string) : strip (strip s) = strip s.
Proof.
  unfold strip.
  rewrite (lstrip_of_rstrip (lstrip s)) by apply lstrip_idempotent.
  apply rstrip_idempotent.
Qed.

Lemma extracted_item (question_col answer_col : string) (item : Row)
    (faq : IngestFAQItem) :
  extracted question_col answer_col item = Some faq ->
  10 <= len (question faq) /\ 10 <= len (answer faq) /\
  strip (question faq) = question faq /\ strip (answer faq) = answer faq.
Proof.
  unfold extracted.
  destruct (item !! question_col) as [q|]; [|done].
  destruct (item !! answer_col) as [a|]; [|done].
  destruct (len (strip q) <? 10)%Z eqn:Hq; [done|].
  destruct (len (strip a) <? 10)%Z eqn:Ha; [done|].
  intros [= <-]. cbn [question answer].
  apply Z.ltb_ge in Hq, Ha. rewrite !strip_idempotent. done.
Qed.

Lemma omap_length_le {A B} (f : A -> option B) (l : list A) :
  (List.length (omap f l) <= List.length l)%nat.
Proof.
  induction l as [|x l IH]; [done|]. csimpl. destruct (f x); csimpl; lia.
Qed.

(** [extract_faqs]: every item returned has a question and an answer of
    ten characters or more that [strip] leaves as they are; there are at
    most as many items as rows; the dataset is not changed, and
    [self.faqs] holds the result unless the call gave up with an empty
    list.  The call raises exactly on a split that exists and has no
    row: when it returns, the split, if it exists, has a row. *)
Theorem extract_faqs_outcomes (split : string) (self : t) :
  match extract_faqs split self with
  | Some (result, self') =>
      Forall (fun faq =>
                10 <= len (question faq) /\ 10 <= len (answer faq) /\
                strip (question faq) = question faq /\
                strip (answer faq) = answer faq) result /\
      dataset self' = dataset self /\
      (faqs self' = result \/ (result = [] /\ self' = self)) /\
      forall splits data,
        dataset self = Some splits -> split_data splits split = Some data ->
        data <> [] /\ (List.length result <= List.length data)%nat
  | None =>
      exists splits,
        dataset self = Some splits /\ split_data splits split = Some []
  end.
Proof.
  unfold extract_faqs.
  destruct (dataset self) as [[|first_split splits]|] eqn:Hdataset.
  - split; [constructor|]. split; [done|]. split; [by right|].
    by intros ? ? [= <-] [=].
  - destruct (split_data (first_split :: splits) split) as [[|first_row data]|]
      eqn:Hsplit.
    + by eexists.
    + destruct (first_column question_cols first_row) as [question_col|];
        [destruct (first_column answer_cols first_row) as [answer_col|]|].
      * split; [|split; [done|split; [by left|]]].
        -- apply Forall_forall. intros faq Hfaq.
           apply list_elem_of_omap in Hfaq as (item & _ & Hitem).
           by apply extracted_item in Hitem.
        -- intros ? ? [= <-] Hd. rewrite Hsplit in Hd. injection Hd as <-.
           split; [done | apply omap_length_le].
      * split; [constructor|]. split; [done|]. split; [by right|].
        intros ? ? [= <-] Hd. rewrite Hsplit in Hd. injection Hd as <-.
        split; [done | simpl; lia].
      * split; [constructor|]. split; [done|]. split; [by right|].
        intros ? ? [= <-] Hd. rewrite Hsplit in Hd. injection Hd as <-.
        split; [done | simpl; lia].
    + split; [constructor|]. split; [done|]. split; [by right|].
      intros ? ? [= <-] Hd. by rewrite Hsplit in Hd.
  - split; [constructor|]. split; [done|]. split; [by right|].
    by intros ? ? [=].
Qed.

Lemma keep_unseen_snoc (all_faqs : list IngestFAQItem) (faq : IngestFAQItem) :
  fold_left keep_unseen (all_faqs ++ [faq]) (∅, [])
  = keep_unseen (fold_left keep_unseen all_faqs (∅, [])) faq.
Proof. by rewrite fold_left_app. Qed.

Lemma unique_faqs_invariant (all_faqs : list IngestFAQItem) :
  let state := fold_left keep_unseen all_faqs (∅, []) in
  (forall q, q ∈ state.1 <-> q ∈ map question state.2) /\
  NoDup (map question state.2) /\
  sublist state.2 all_faqs /\
  (forall q, q ∈ map question all_faqs <-> q ∈ map question state.2) /\
  (forall faq, faq ∈ state.2 ->
     exists before after,
       all_faqs = (before ++ faq :: after)%list /\
       question faq ∉ map question before).
Proof.
  induction all_faqs as [|faq all_faqs IH] using rev_ind.
  - cbn. split; [intros q; by rewrite elem_of_empty, elem_of_nil|].
    split; [constructor|]. split; [constructor|]. split; [done|].
    intros faq Hfaq. by apply elem_of_nil in Hfaq.
  - cbn zeta in *. rewrite keep_unseen_snoc.
    destruct (fold_left keep_unseen all_faqs (∅, [])) as [seen unique].
    cbn [fst snd] in IH. destruct IH as (Hseen & Hnodup & Hsub & Hall & Hfirst).
    unfold keep_unseen. cbn [fst snd].
    destruct (decide (question faq ∈ seen)) as [Hin | Hout]; cbn [fst snd].
    + split; [done|]. split; [done|].
      split; [by apply sublist_inserts_r|]. split.
      * intros q. rewrite map_app, elem_of_app, Hall. cbn [map].
        rewrite list_elem_of_singleton. split; [|by left].
        intros [Hq | ->]; [done|]. by apply Hseen.
      * intros kept Hkept.
        destruct (Hfirst kept Hkept) as (before & after & -> & Hbefore).
        exists before, (after ++ [faq])%list. by rewrite <- app_assoc.
    + assert (question faq ∉ map question unique) as Hnew
        by (by rewrite <- Hseen).
      split; [|split; [|split; [|split]]].
      * intros q. rewrite map_app, elem_of_app, elem_of_union, Hseen. cbn [map].
        rewrite elem_of_singleton, list_elem_of_singleton. tauto.
      * rewrite map_app. apply NoDup_app. split; [done|]. split.
        -- intros q Hq. cbn [map]. rewrite list_elem_of_singleton.
           intros ->. done.
        -- cbn [map]. apply NoDup_singleton.
      * by apply sublist_app.
      * intros q. rewrite !map_app, !elem_of_app, Hall. done.
      * intros kept Hkept. apply elem_of_app in Hkept as [Hkept | Hkept].
        -- destruct (Hfirst kept Hkept) as (before & after & -> & Hbefore).
           exists before, (after ++ [faq])%list. by rewrite <- app_assoc.
        -- apply list_elem_of_singleton in Hkept as ->.
           exists all_faqs, []. split; [done|]. by rewrite Hall.
Qed.

(** The loop of [main] that drops repeated questions keeps the first item
    of every question: no question occurs twice in the result, the result
    is a sublist of the input (the order is kept), the questions of the
    result are those of the input, and no item before a kept item has its
    question. *)
Theorem unique_faqs_keeps_first_occurrences (all_faqs : list IngestFAQItem) :
  let unique := unique_faqs all_faqs in
  NoDup (map question unique) /\
  sublist unique all_faqs /\
  (forall q, q ∈ map question all_faqs <-> q ∈ map question unique) /\
  (forall faq, faq ∈ unique ->
     exists before after,
       all_faqs = (before ++ faq :: after)%list /\
       question faq ∉ map question before).
Proof.
  intros unique. subst unique. unfold unique_faqs.
  destruct (unique_faqs_invariant all_faqs) as (_ & H). exact H.
Qed.

(** What the loop of [main] buys at ingestion.  For the batch it leaves,
    when the ids of different questions differ, none of them is in the
    index yet and the embedding model returns one vector per text,
    [ingest_faq] writes as many entries as it reports. *)
Theorem deduplicated_batch_is_counted_exactly (co : Collaborators)
    (index : gmap string Entry) (all_faqs : list IngestFAQItem)
    (vectors : list (list Q)) :
  let items := unique_faqs all_faqs in
  items <> [] ->
  (forall a b, a ∈ items -> b ∈ items ->
     faq_id co (question a) = faq_id co (question b) ->
     question a = question b) ->
  (forall it, it ∈ items -> index !! faq_id co (question it) = None) ->
  embed_texts co
    (map (fun qa : string * string => qa.1 ++ PyStr.nl ++ qa.2)
         (zip (map question items) (map answer items))) = Some vectors ->
  List.length vectors = List.length items ->
  let run := ingest_faq co items index in
  run.1 = inr (Z.of_nat (List.length items)) /\
  size run.2 = (size index + List.length items)%nat.
Proof.
  intros items Hne Hinj Hfresh Hemb Hlen run. subst run. unfold ingest_faq.
  destruct items as [|it0 items0] eqn:Hitems; [done|]. rewrite <- Hitems in *.
  rewrite Hemb. cbn [fst snd]. unfold upsert_faqs.
  rewrite IngestFacts.upserted_items, !length_map. split; [done|].
  rewrite <- !size_dom, IngestMoreFacts.upsert_dom, IngestMoreFacts.zipped_ids.
  rewrite Hlen, firstn_all.
  assert (NoDup (map question items)) as Hnodup.
  { subst items. unfold unique_faqs.
    by destruct (unique_faqs_invariant all_faqs) as (_ & ? & _). }
  rewrite size_union.
  - rewrite size_list_to_set; [by rewrite length_map|].
    rewrite <- (map_map question (faq_id co)).
    apply NoDup_fmap_2_strong; [|done].
    intros q1 q2 Hq1 Hq2 Hid.
    apply list_elem_of_fmap in Hq1 as (a & -> & Ha).
    apply list_elem_of_fmap in Hq2 as (b & -> & Hb). by apply Hinj.
  - intros id Hold Hnew. apply elem_of_dom in Hold as [entry Hentry].
    apply elem_of_list_to_set, list_elem_of_fmap in Hnew as (it & -> & Hit).
    rewrite Hfresh in Hentry by done. done.
Qed.

Lemma deduplicated_batch_is_counted_exactly_witness :
  let items := unique_faqs LoaderScenarios.batch in
  List.length items = 2%nat /\
  size (ingest_faq IngestVocabulary.plain items ∅).2 = 2%nat.
Proof.
  destruct (deduplicated_batch_is_counted_exactly IngestVocabulary.plain ∅
              LoaderScenarios.batch
              (map (fun it => [inject_Z (len (question it ++ nl ++ answer it))])
                   (unique_faqs LoaderScenarios.batch)))
    as [_ Hsize].
  - discriminate.
  - intros a b _ _. vm_compute. intros [= Hq]. exact Hq.
  - intros it _. apply lookup_empty.
  - reflexivity.
  - reflexivity.
  - split; [reflexivity|]. rewrite Hsize. reflexivity.
Defined.

(** The rows of [loaded]: the first is kept without its blanks, the
    second has too short a question, the third has no answer. *)
Example extraction_strips_and_filters :
  extract_faqs "train" LoaderScenarios.loaded
  = Some ([IngestVocabulary.second_version],
          {| dataset := dataset LoaderScenarios.loaded;
             faqs := [IngestVocabulary.second_version] |}).
Proof. reflexivity. Qed.

End LoaderFacts.
